(** * Journal transfer (validator/journal/protocol/journal_transfer.py)

    A shallow embedding of the [JournalTransfer] class and of
    [start_journal_transfer], followed by the properties of the transfer
    protocol.

    The Python object graph is flattened into one record, [World]:
    the attributes of [self] (the session), the parts of the journal, of the
    gossip layer and of the twisted reactor that the code touches, and the
    traces of the calls made to external collaborators (messages sent,
    handlers registered, timers scheduled, journal submissions, log lines,
    callback invocations).  Handlers are functions [World -> World]. *)

From Stdlib Require Import ZArith List Bool Lia.
From stdpp Require Import base option list strings gmap.

Local Open Scope list_scope.

(** ** Data model *)

Definition Identifier := string.

(** Transactions and blocks are opaque payloads with an identifier; a block
    also lists the identifiers of its transactions. *)
Record Transaction := mkTransaction {
  TxnIdentifier : Identifier;
  TxnPayload : string
}.

Record TransactionBlock := mkTransactionBlock {
  BlockIdentifier : Identifier;
  TransactionIDs : list Identifier;
  BlockPayload : string
}.

Record PeerNode := mkPeer {
  PeerIdentifier : string;
  PeerName : string
}.

(** [collections.OrderedDict] keyed by identifiers: an association list in
    insertion order.  Assigning to a key that is present replaces the value
    in place and keeps the position; assigning to a new key appends. *)
Module OrderedDict.
Section Dict.
Context {V : Type}.

Definition t := list (Identifier * V).

Definition empty : t := [].

Fixpoint setitem (d : t) (k : Identifier) (v : V) : t :=
  match d with
  | [] => [(k, v)]
  | (k', v') :: d' =>
      if String.eqb k' k then (k', v) :: d'
      else (k', v') :: setitem d' k v
  end.

Fixpoint getitem (d : t) (k : Identifier) : option V :=
  match d with
  | [] => None
  | (k', v') :: d' => if String.eqb k' k then Some v' else getitem d' k
  end.

Definition keys (d : t) : list Identifier := map fst d.
Definition values (d : t) : list V := map snd d.
Definition iteritems (d : t) : list (Identifier * V) := d.
End Dict.
Arguments t : clear implicits.
End OrderedDict.

Abbreviation OrderedDict := OrderedDict.t.

(** Requests sent to the peer. *)
Inductive Message :=
| BlockListRequestMessage (BlockListIndex : Z)
| BlockRequestMessage (BlockID : Identifier)
| TransactionRequestMessage (TransactionID : Identifier)
| UncommittedListRequestMessage (TransactionListIndex : Z).

(** Messages received from the peer.  The embedded, type-tagged bodies of
    [BlockReplyMessage] and [TransactionReplyMessage] are carried already
    unpacked: [gossip.unpack_message] belongs to the transport. *)
Inductive Reply :=
| BlockListReplyMessage (BlockListIndex : Z) (BlockIDs : list Identifier)
| BlockReplyMessage (Block : TransactionBlock)
| UncommittedListReplyMessage (TransactionListIndex : Z)
                              (TransactionIDs : list Identifier)
| TransactionReplyMessage (Txn : Transaction)
| TransferFailedMessage.

(** The message types handlers are registered for. *)
Inductive MsgKind :=
| KBlockListReply | KBlockReply | KUncommittedListReply
| KTransactionReply | KTransferFailed.

Definition kind_of (r : Reply) : MsgKind :=
  match r with
  | BlockListReplyMessage _ _ => KBlockListReply
  | BlockReplyMessage _ => KBlockReply
  | UncommittedListReplyMessage _ _ => KUncommittedListReply
  | TransactionReplyMessage _ => KTransactionReply
  | TransferFailedMessage => KTransferFailed
  end.

Definition kind_eqb (a b : MsgKind) : bool :=
  match a, b with
  | KBlockListReply, KBlockListReply
  | KBlockReply, KBlockReply
  | KUncommittedListReply, KUncommittedListReply
  | KTransactionReply, KTransactionReply
  | KTransferFailed, KTransferFailed => true
  | _, _ => false
  end.

(** The bound methods of the session that serve as handlers. *)
Inductive Handler :=
| H_blocklistreplyhandler | H_blockreplyhandler | H_txnlistreplyhandler
| H_txnreplyhandler | H_failedhandler.

(** Deferred calls given to [reactor.callLater]. *)
Inductive Deferred := CallInitiateJournalTransfer.

(** Exceptions a journal submission may raise, as [_finish] tells them
    apart. *)
Inductive Exn := AssertionError | OtherException (name : string).

(** Submissions to the journal: [add_pending_transaction(txn, build_block)]
    and [commit_transaction_block(blk)].  The argument is the value stored in
    the map, which is [None] for an identifier that was never resolved. *)
Inductive JournalCall :=
| AddPendingTransaction (txn : option Transaction) (build_block : bool)
| CommitTransactionBlock (blk : option TransactionBlock).

Inductive LogEntry :=
| LogDebug (text : string)
| LogInfo (text : string)
| LogWarn (text : string)
| LogError (text : string).

(** The journal as this module sees it: the attributes it reads, and the
    behaviour of its two submission methods.  [submit history call] tells
    whether [call] raises when it is made after the submissions of [history]
    (with their outcomes) and, if so, what it raises. *)
Record Journal := mkJournal {
  Restore : bool;
  persistmap_keys : list string;         (* GlobalStoreMap.persistmap_keys() *)
  BlockStore : gmap string TransactionBlock;
  TransactionStore : gmap string Transaction;
  submit : list (JournalCall * option Exn) -> JournalCall -> option Exn
}.

(** The session and its surroundings.  The session attributes ([Peer] to
    [UncommittedTransactions]) are created by [initiate_journal_transfer]
    before any handler is registered; the record carries them from the start
    with empty values, which are never read before that point.  The attribute
    [RetryID] is written once and never read, and is left out. *)
Record World := mkWorld {
  journal : Journal;
  peer_list : list PeerNode;                        (* gossip.peer_list() *)
  dispatcher : list (MsgKind * Handler);            (* Journal.dispatcher *)
  sent : list (Message * string);                   (* gossip.send_message *)
  timers : list (Z * Deferred);                     (* reactor.callLater *)
  journal_calls : list (JournalCall * option Exn);  (* submissions, outcome *)
  log : list LogEntry;
  callbacks : nat;                                  (* calls of Callback *)
  Peer : PeerNode;
  BlockMap : OrderedDict (option TransactionBlock);
  PendingBlocks : list Identifier;
  TransactionMap : OrderedDict (option Transaction);
  PendingTransactions : list Identifier;
  ProcessingUncommitted : bool;
  UncommittedTransactions : list Identifier
}.

Definition set_dispatcher (x : list (MsgKind * Handler)) (w : World) : World :=
  mkWorld (journal w) (peer_list w) x (sent w) (timers w) (journal_calls w)
    (log w) (callbacks w) (Peer w) (BlockMap w) (PendingBlocks w)
    (TransactionMap w) (PendingTransactions w) (ProcessingUncommitted w)
    (UncommittedTransactions w).

Definition set_sent (x : list (Message * string)) (w : World) : World :=
  mkWorld (journal w) (peer_list w) (dispatcher w) x (timers w)
    (journal_calls w) (log w) (callbacks w) (Peer w) (BlockMap w)
    (PendingBlocks w) (TransactionMap w) (PendingTransactions w)
    (ProcessingUncommitted w) (UncommittedTransactions w).

Definition set_timers (x : list (Z * Deferred)) (w : World) : World :=
  mkWorld (journal w) (peer_list w) (dispatcher w) (sent w) x
    (journal_calls w) (log w) (callbacks w) (Peer w) (BlockMap w)
    (PendingBlocks w) (TransactionMap w) (PendingTransactions w)
    (ProcessingUncommitted w) (UncommittedTransactions w).

Definition set_journal_calls (x : list (JournalCall * option Exn))
    (w : World) : World :=
  mkWorld (journal w) (peer_list w) (dispatcher w) (sent w) (timers w) x
    (log w) (callbacks w) (Peer w) (BlockMap w) (PendingBlocks w)
    (TransactionMap w) (PendingTransactions w) (ProcessingUncommitted w)
    (UncommittedTransactions w).

Definition set_log (x : list LogEntry) (w : World) : World :=
  mkWorld (journal w) (peer_list w) (dispatcher w) (sent w) (timers w)
    (journal_calls w) x (callbacks w) (Peer w) (BlockMap w) (PendingBlocks w)
    (TransactionMap w) (PendingTransactions w) (ProcessingUncommitted w)
    (UncommittedTransactions w).

Definition set_callbacks (x : nat) (w : World) : World :=
  mkWorld (journal w) (peer_list w) (dispatcher w) (sent w) (timers w)
    (journal_calls w) (log w) x (Peer w) (BlockMap w) (PendingBlocks w)
    (TransactionMap w) (PendingTransactions w) (ProcessingUncommitted w)
    (UncommittedTransactions w).

Definition set_Peer (x : PeerNode) (w : World) : World :=
  mkWorld (journal w) (peer_list w) (dispatcher w) (sent w) (timers w)
    (journal_calls w) (log w) (callbacks w) x (BlockMap w) (PendingBlocks w)
    (TransactionMap w) (PendingTransactions w) (ProcessingUncommitted w)
    (UncommittedTransactions w).

Definition set_BlockMap (x : OrderedDict (option TransactionBlock))
    (w : World) : World :=
  mkWorld (journal w) (peer_list w) (dispatcher w) (sent w) (timers w)
    (journal_calls w) (log w) (callbacks w) (Peer w) x (PendingBlocks w)
    (TransactionMap w) (PendingTransactions w) (ProcessingUncommitted w)
    (UncommittedTransactions w).

Definition set_PendingBlocks (x : list Identifier) (w : World) : World :=
  mkWorld (journal w) (peer_list w) (dispatcher w) (sent w) (timers w)
    (journal_calls w) (log w) (callbacks w) (Peer w) (BlockMap w) x
    (TransactionMap w) (PendingTransactions w) (ProcessingUncommitted w)
    (UncommittedTransactions w).

Definition set_TransactionMap (x : OrderedDict (option Transaction))
    (w : World) : World :=
  mkWorld (journal w) (peer_list w) (dispatcher w) (sent w) (timers w)
    (journal_calls w) (log w) (callbacks w) (Peer w) (BlockMap w)
    (PendingBlocks w) x (PendingTransactions w) (ProcessingUncommitted w)
    (UncommittedTransactions w).

Definition set_PendingTransactions (x : list Identifier) (w : World) : World :=
  mkWorld (journal w) (peer_list w) (dispatcher w) (sent w) (timers w)
    (journal_calls w) (log w) (callbacks w) (Peer w) (BlockMap w)
    (PendingBlocks w) (TransactionMap w) x (ProcessingUncommitted w)
    (UncommittedTransactions w).

Definition set_ProcessingUncommitted (x : bool) (w : World) : World :=
  mkWorld (journal w) (peer_list w) (dispatcher w) (sent w) (timers w)
    (journal_calls w) (log w) (callbacks w) (Peer w) (BlockMap w)
    (PendingBlocks w) (TransactionMap w) (PendingTransactions w) x
    (UncommittedTransactions w).

Definition set_UncommittedTransactions (x : list Identifier)
    (w : World) : World :=
  mkWorld (journal w) (peer_list w) (dispatcher w) (sent w) (timers w)
    (journal_calls w) (log w) (callbacks w) (Peer w) (BlockMap w)
    (PendingBlocks w) (TransactionMap w) (PendingTransactions w)
    (ProcessingUncommitted w) x.

Definition set_peer_list (x : list PeerNode) (w : World) : World :=
  mkWorld (journal w) x (dispatcher w) (sent w) (timers w) (journal_calls w)
    (log w) (callbacks w) (Peer w) (BlockMap w) (PendingBlocks w)
    (TransactionMap w) (PendingTransactions w) (ProcessingUncommitted w)
    (UncommittedTransactions w).

(** ** External collaborators *)

(** [gossip.send_message(request, self.Peer.Identifier)] *)
Definition send_message (m : Message) (w : World) : World :=
  set_sent (sent w ++ [(m, PeerIdentifier (Peer w))]) w.

(** [reactor.callLater(delay, f)] *)
Definition callLater (delay : Z) (f : Deferred) (w : World) : World :=
  set_timers (timers w ++ [(delay, f)]) w.

Definition logger (e : LogEntry) (w : World) : World :=
  set_log (log w ++ [e]) w.

Definition unregister (k : MsgKind) (d : list (MsgKind * Handler)) :=
  List.filter (fun kh => negb (kind_eqb (fst kh) k)) d.

(** [dispatcher.register_message_handler(kind, handler)]: one handler per
    message type, the last registration wins. *)
Definition register_message_handler (k : MsgKind) (h : Handler)
    (w : World) : World :=
  set_dispatcher (unregister k (dispatcher w) ++ [(k, h)]) w.

(** [dispatcher.clear_message_handler(kind)] *)
Definition clear_message_handler (k : MsgKind) (w : World) : World :=
  set_dispatcher (unregister k (dispatcher w)) w.

Fixpoint handler_of (d : list (MsgKind * Handler)) (k : MsgKind)
    : option Handler :=
  match d with
  | [] => None
  | (k', h) :: d' => if kind_eqb k' k then Some h else handler_of d' k
  end.

(** ** The draining functions *)

(** The loop
    [for txnid in ids: TransactionMap[txnid] = None;
                       PendingTransactions.append(txnid)]
    shared by [_kick_off_next_block], [_blockreplyhandler] and
    [_handleuncommitted]. *)
Fixpoint enqueue_transactions (ids : list Identifier) (w : World) : World :=
  match ids with
  | [] => w
  | txnid :: ids' =>
      let w := set_TransactionMap
                 (OrderedDict.setitem (TransactionMap w) txnid None) w in
      let w := set_PendingTransactions (PendingTransactions w ++ [txnid]) w in
      enqueue_transactions ids' w
  end.

(** The loop of [_blocklistreplyhandler]:
    [for blockid in ids: BlockMap[blockid] = None;
                         PendingBlocks.append(blockid)]. *)
Fixpoint enqueue_blocks (ids : list Identifier) (w : World) : World :=
  match ids with
  | [] => w
  | blockid :: ids' =>
      let w := set_BlockMap
                 (OrderedDict.setitem (BlockMap w) blockid None) w in
      let w := set_PendingBlocks (PendingBlocks w ++ [blockid]) w in
      enqueue_blocks ids' w
  end.

(** The [while] loop of [_kick_off_next_transaction].  Each iteration pops
    the head of [PendingTransactions] and nothing in the body appends to it,
    so the loop is a recursion on the queue's content at entry. *)
Fixpoint kick_off_next_transaction_loop (pending : list Identifier)
    (w : World) : bool * World :=
  match pending with
  | [] => (false, w)
  | txnid :: rest =>
      let w := set_PendingTransactions rest w in            (* pop(0) *)
      match TransactionStore (journal w) !! txnid with
      | None =>
          (true, send_message (TransactionRequestMessage txnid) w)
      | Some txn =>
          kick_off_next_transaction_loop rest
            (set_TransactionMap
               (OrderedDict.setitem (TransactionMap w) txnid (Some txn)) w)
      end
  end.

Definition _kick_off_next_transaction (w : World) : bool * World :=
  kick_off_next_transaction_loop (PendingTransactions w) w.

(** The [while] loop of [_kick_off_next_block], followed by the final call
    of [_kick_off_next_transaction].  The body pops the head of
    [PendingBlocks] and appends only to [PendingTransactions]. *)
Fixpoint kick_off_next_block_loop (pending : list Identifier)
    (w : World) : bool * World :=
  match pending with
  | [] => _kick_off_next_transaction w
  | blockid :: rest =>
      let w := set_PendingBlocks rest w in                  (* pop(0) *)
      match BlockStore (journal w) !! blockid with
      | None =>
          (true, send_message (BlockRequestMessage blockid) w)
      | Some blk =>
          let w := set_BlockMap
                     (OrderedDict.setitem (BlockMap w) blockid (Some blk)) w in
          (* BlockMap[blockid].TransactionIDs is the record just stored *)
          let w := enqueue_transactions (TransactionIDs blk) w in
          kick_off_next_block_loop rest w
      end
  end.

Definition _kick_off_next_block (w : World) : bool * World :=
  kick_off_next_block_loop (PendingBlocks w) w.

(** ** The commit phase *)

(** One [for] loop of the [try] block of [_finish]: the submissions are made
    in order, and the first one that raises ends the loop with its
    exception. *)
Fixpoint submit_all (calls : list JournalCall) (w : World)
    : option Exn * World :=
  match calls with
  | [] => (None, w)
  | c :: rest =>
      match submit (journal w) (journal_calls w) c with
      | Some e =>
          (Some e, set_journal_calls (journal_calls w ++ [(c, Some e)]) w)
      | None =>
          submit_all rest
            (set_journal_calls (journal_calls w ++ [(c, None)]) w)
      end
  end.

Definition pending_submissions (w : World) : list JournalCall :=
  map (fun kv => AddPendingTransaction (snd kv) false)
      (OrderedDict.iteritems (TransactionMap w)).

Definition block_submissions (w : World) : list JournalCall :=
  map (fun kv => CommitTransactionBlock (snd kv))
      (OrderedDict.iteritems (BlockMap w)).

(** The body of the [try] block: both loops, the second one only when the
    first one raised nothing. *)
Definition finish_try (w : World) : option Exn * World :=
  match submit_all (pending_submissions w) w with
  | (Some e, w') => (Some e, w')
  | (None, w') => submit_all (block_submissions w') w'
  end.

Definition clear_all_handlers (w : World) : World :=
  let w := clear_message_handler KBlockListReply w in
  let w := clear_message_handler KBlockReply w in
  let w := clear_message_handler KUncommittedListReply w in
  let w := clear_message_handler KTransactionReply w in
  clear_message_handler KTransferFailed w.

Definition Callback (w : World) : World :=
  set_callbacks (S (callbacks w)) w.

Definition _finish (w : World) : World :=
  let (raised, w) := finish_try w in
  let w :=
    match raised with
    | None => w
    | Some AssertionError => logger (LogError "assertion failure") w
    | Some (OtherException _) =>
        logger (LogError "unexpected error happened committing blocks") w
    end in
  let w := logger (LogInfo "journal transferred") w in
  let w := clear_all_handlers w in
  Callback w.

(** ** The handlers *)

Definition _handleuncommitted (w : World) : World :=
  let w := logger (LogDebug "transition to uncommitted messages") w in
  if negb (ProcessingUncommitted w)
     && (0 <? length (UncommittedTransactions w))%nat
  then
    let w := set_ProcessingUncommitted true w in
    let w := enqueue_transactions (UncommittedTransactions w) w in
    let (sent_one, w) := _kick_off_next_transaction w in
    if sent_one then w else _finish w
  else _finish w.

Definition _blocklistreplyhandler (BlockListIndex : Z)
    (BlockIDs : list Identifier) (w : World) : World :=
  let w := logger (LogDebug "received block identifiers") w in
  let w := enqueue_blocks BlockIDs w in
  if (0 <? length BlockIDs)%nat then
    send_message
      (BlockListRequestMessage (BlockListIndex + Z.of_nat (length BlockIDs)))
      w
  else
    let (sent_one, w) := _kick_off_next_block w in
    if sent_one then w
    else send_message (UncommittedListRequestMessage 0) w.

Definition _txnlistreplyhandler (TransactionListIndex : Z)
    (TransactionIDs : list Identifier) (w : World) : World :=
  let w := logger (LogDebug "received uncommitted transactions") w in
  let w := set_UncommittedTransactions
             (UncommittedTransactions w ++ TransactionIDs) w in
  if (0 <? length TransactionIDs)%nat then
    send_message
      (UncommittedListRequestMessage
         (TransactionListIndex + Z.of_nat (length TransactionIDs)))
      w
  else
    let (sent_one, w) := _kick_off_next_block w in
    if sent_one then w else _handleuncommitted w.

Definition _blockreplyhandler (blk : TransactionBlock) (w : World) : World :=
  let w := logger (LogInfo "received block") w in
  let w := set_BlockMap
             (OrderedDict.setitem (BlockMap w) (BlockIdentifier blk)
                (Some blk)) w in
  let w := enqueue_transactions (TransactionIDs blk) w in
  let (sent_one, w) := _kick_off_next_transaction w in
  if sent_one then w
  else
    let (sent_one, w) := _kick_off_next_block w in
    if sent_one then w else _handleuncommitted w.

Definition _txnreplyhandler (txn : Transaction) (w : World) : World :=
  let w := logger (LogDebug "received transaction") w in
  let w := set_TransactionMap
             (OrderedDict.setitem (TransactionMap w) (TxnIdentifier txn)
                (Some txn)) w in
  let (sent_one, w) := _kick_off_next_transaction w in
  if sent_one then w
  else
    let (sent_one, w) := _kick_off_next_block w in
    if sent_one then w else _handleuncommitted w.

Definition _failedhandler (w : World) : World :=
  let w := logger (LogWarn "journal transfer failed") w in
  let w := clear_all_handlers w in
  callLater 10 CallInitiateJournalTransfer w.

(** ** Starting a transfer *)

(** [random.choice(peers)], with the random draw [rnd] made explicit. *)
Definition random_choice (rnd : nat) (p0 : PeerNode) (peers : list PeerNode)
    : PeerNode :=
  nth (rnd mod length peers) peers p0.

Definition initiate_journal_transfer (rnd : nat) (w : World) : World :=
  match peer_list w with
  | [] => callLater 10 CallInitiateJournalTransfer w
  | p0 :: _ =>
      let w := set_Peer (random_choice rnd p0 (peer_list w)) w in
      let w := logger (LogInfo "initiate journal transfer") w in
      let w := set_BlockMap OrderedDict.empty w in
      let w := set_PendingBlocks [] w in
      let w := set_TransactionMap OrderedDict.empty w in
      let w := set_PendingTransactions [] w in
      let w := set_ProcessingUncommitted false w in
      let w := set_UncommittedTransactions [] w in
      let w := register_message_handler KBlockListReply
                 H_blocklistreplyhandler w in
      let w := register_message_handler KBlockReply H_blockreplyhandler w in
      let w := register_message_handler KUncommittedListReply
                 H_txnlistreplyhandler w in
      let w := register_message_handler KTransactionReply
                 H_txnreplyhandler w in
      let w := register_message_handler KTransferFailed H_failedhandler w in
      send_message (BlockListRequestMessage 0) w
  end.

(** [start_journal_transfer(journal, oncomplete)].  The world [w] holds the
    journal and its surroundings; constructing the [JournalTransfer] object
    only stores references, so the session is [w] itself. *)
Definition start_journal_transfer (rnd : nat) (w : World) : bool * World :=
  if Restore (journal w) && (1 <? length (persistmap_keys (journal w)))%nat
  then (false, w)
  else
    let w :=
      if Restore (journal w)
      then logger
             (LogWarn "restoration from persistence layer not possible") w
      else w in
    (true, initiate_journal_transfer rnd w).

(** ** Events *)

(** The dispatcher hands a received message to the handler registered for
    its type, and drops it when there is none.  The session registers each
    handler for the type it reads, so the last case of [run_handler] does not
    occur in a run; [_failedhandler] does not read its message. *)
Definition run_handler (h : Handler) (r : Reply) (w : World) : World :=
  match h, r with
  | H_blocklistreplyhandler, BlockListReplyMessage i ids =>
      _blocklistreplyhandler i ids w
  | H_blockreplyhandler, BlockReplyMessage blk => _blockreplyhandler blk w
  | H_txnlistreplyhandler, UncommittedListReplyMessage i ids =>
      _txnlistreplyhandler i ids w
  | H_txnreplyhandler, TransactionReplyMessage txn => _txnreplyhandler txn w
  | H_failedhandler, _ => _failedhandler w
  | _, _ => w
  end.

Definition dispatch (r : Reply) (w : World) : World :=
  match handler_of (dispatcher w) (kind_of r) with
  | Some h => run_handler h r w
  | None => w
  end.

(** The reactor runs a deferred call: it leaves the timer list and is
    executed. *)
Definition run_deferred (rnd : nat) (f : Deferred) (w : World) : World :=
  match f with
  | CallInitiateJournalTransfer => initiate_journal_transfer rnd w
  end.

(** What happens around the session: a message arrives, the oldest timer
    fires (with the random draw its call will make), or the gossip layer
    changes its peer list. *)
Inductive Event :=
| Receive (r : Reply)
| Fire (rnd : nat)
| PeersBecome (peers : list PeerNode).

Definition handle_event (e : Event) (w : World) : World :=
  match e with
  | Receive r => dispatch r w
  | Fire rnd =>
      match timers w with
      | [] => w
      | (_, f) :: ts => run_deferred rnd f (set_timers ts w)
      end
  | PeersBecome peers => set_peer_list peers w
  end.

Definition run_events (es : list Event) (w : World) : World :=
  fold_left (fun w e => handle_event e w) es w.

(** * Definitions used by the statements *)

(** A submission that went through, as it is recorded. *)
Definition applied (c : JournalCall) : JournalCall * option Exn := (c, None).

(** What the journal answers when the submissions [pre] have gone through
    and [c] comes next. *)
Definition answer_after (w : World) (pre : list JournalCall) (c : JournalCall)
    : option Exn :=
  submit (journal w) (journal_calls w ++ map applied pre) c.

(** The part of [_finish] that follows the [try] block. *)
Definition finish_epilogue (raised : option Exn) (w : World) : World :=
  let w :=
    match raised with
    | None => w
    | Some AssertionError => logger (LogError "assertion failure") w
    | Some (OtherException _) =>
        logger (LogError "unexpected error happened committing blocks") w
    end in
  Callback (clear_all_handlers (logger (LogInfo "journal transferred") w)).

(** The worlds used as concrete inputs. *)
Definition quiet_journal : Journal :=
  mkJournal false [] ∅ ∅ (fun _ _ => None).

Definition fresh_world (jn : Journal) (peers : list PeerNode) : World :=
  mkWorld jn peers [] [] [] [] [] 0 (mkPeer "" "") OrderedDict.empty []
    OrderedDict.empty [] false [].

Definition txn_of (k : Identifier) : Transaction := mkTransaction k "body".

Definition staged_world (jn : Journal) : World :=
  set_BlockMap [("b1", Some (mkTransactionBlock "b1" ["t1"; "t2"] "blk"))]
    (set_TransactionMap
       [("t1", Some (txn_of "t1")); ("t2", Some (txn_of "t2"));
        ("t3", Some (txn_of "t3"))]
       (fresh_world jn [mkPeer "p1" "peer one"])).

(** A journal whose second submission fails an assertion. *)
Definition second_fails : Journal :=
  mkJournal false [] ∅ ∅
    (fun history _ =>
       if (length history =? 1)%nat then Some AssertionError else None).

(** What a run of [for k in ids: d[k] = None] leaves in the map. *)
Definition mark_pending {V : Type} (ids : list Identifier)
    (d : OrderedDict (option V)) : OrderedDict (option V) :=
  fold_left (fun d k => OrderedDict.setitem d k None) ids d.

(** A session in which a transaction is resolved and then named again by the
    body of a later block: peer [p1] lists blocks [b1] and [b2], both bodies
    name transaction [t1]. *)
Definition peer1 : PeerNode := mkPeer "p1" "peer one".
Definition block_b1 : TransactionBlock := mkTransactionBlock "b1" ["t1"] "one".
Definition block_b2 : TransactionBlock := mkTransactionBlock "b2" ["t1"] "two".

Definition after_first_block : World :=
  let w := snd (start_journal_transfer 0 (fresh_world quiet_journal [peer1])) in
  let w := dispatch (BlockListReplyMessage 0 ["b1"; "b2"]) w in
  let w := dispatch (BlockListReplyMessage 2 []) w in
  let w := dispatch (BlockReplyMessage block_b1) w in
  dispatch (TransactionReplyMessage (txn_of "t1")) w.

(** What a run of [for k in ids: d[k] = store[k]] leaves in the map, for
    identifiers known to the store. *)
Definition copy_local {V : Type} (store : gmap string V)
    (ids : list Identifier) (d : OrderedDict (option V))
    : OrderedDict (option V) :=
  fold_left
    (fun d k =>
       match store !! k with
       | Some v => OrderedDict.setitem d k (Some v)
       | None => d
       end) ids d.

(** One iteration of the loop of [_kick_off_next_block] on a block found in
    the local store, after the pop. *)
Definition copy_local_block (blockid : Identifier) (blk : TransactionBlock)
    (w : World) : World :=
  enqueue_transactions (TransactionIDs blk)
    (set_BlockMap (OrderedDict.setitem (BlockMap w) blockid (Some blk)) w).

Definition copy_local_blocks (ids : list Identifier) (w : World) : World :=
  fold_left
    (fun w k =>
       match BlockStore (journal w) !! k with
       | Some blk => copy_local_block k blk w
       | None => w
       end) ids w.

Definition known {V : Type} (store : gmap string V) (k : Identifier) : Prop :=
  is_Some (store !! k).

(** A request for an identifier the local store does not hold. *)
Definition requests_missing (jn : Journal) (m : Message) : Prop :=
  match m with
  | BlockRequestMessage id => BlockStore jn !! id = None
  | TransactionRequestMessage id => TransactionStore jn !! id = None
  | _ => False
  end.

(** The messages sent between two worlds of one run. *)
Definition sent_since (w w' : World) : list (Message * string) :=
  drop (length (sent w)) (sent w').

(** Scenario A of the protocol: blocks [b1] and [b2] are queued, [b1] is in
    the local store (with its transaction [t1]), [b2] is not. *)
Definition block_b1_store : gmap string TransactionBlock :=
  <["b1" := block_b1]> ∅.

Definition txn_t1_store : gmap string Transaction :=
  <["t1" := txn_of "t1"]> ∅.

Definition journal_with_b1 : Journal :=
  mkJournal false [] block_b1_store txn_t1_store (fun _ _ => None).

Definition b1_b2_queued : World :=
  set_Peer peer1
    (enqueue_blocks ["b1"; "b2"] (fresh_world journal_with_b1 [peer1])).

(** [emits w w' out]: going from [w] to [w'], the messages [out] were sent,
    no timer was scheduled, and the peer, the journal, the peer list and the
    collected uncommitted list stayed the same. *)
Definition emits (w w' : World) (out : list (Message * string)) : Prop :=
  sent w' = sent w ++ out /\ timers w' = timers w /\ Peer w' = Peer w
  /\ journal w' = journal w /\ peer_list w' = peer_list w
  /\ UncommittedTransactions w' = UncommittedTransactions w.

(** Nothing, or one request for a body the store does not hold. *)
Definition one_fetch (w : World) (out : list (Message * string)) : Prop :=
  out = [] \/
  exists m, out = [(m, PeerIdentifier (Peer w))]
            /\ requests_missing (journal w) m.

(** A run of page replies, handled one after the other. *)
Definition feed_block_pages (pages : list (Z * list Identifier))
    (w : World) : World :=
  fold_left (fun w p => _blocklistreplyhandler (fst p) (snd p) w) pages w.

Definition feed_uncommitted_pages (pages : list (Z * list Identifier))
    (w : World) : World :=
  fold_left (fun w p => _txnlistreplyhandler (fst p) (snd p) w) pages w.

(** The next-page requests that a run of pages calls for. *)
Definition next_page_requests (request : Z -> Message) (peer : PeerNode)
    (pages : list (Z * list Identifier)) : list (Message * string) :=
  map (fun p => (request (fst p + Z.of_nat (length (snd p)))%Z,
                 PeerIdentifier peer)) pages.

Definition collected (pages : list (Z * list Identifier))
    : list Identifier :=
  concat (map snd pages).

Definition nonempty_pages (pages : list (Z * list Identifier)) : Prop :=
  Forall (fun p => snd p <> []) pages.

(** A session right after its start with peer [p1]. *)
Definition started : World :=
  snd (start_journal_transfer 0 (fresh_world quiet_journal [peer1])).

(** The world in which [_handleuncommitted] resumes the transaction drain:
    the flag is set and the uncommitted identifiers are enqueued. *)
Definition uncommitted_enqueued (w : World) : World :=
  enqueue_transactions (UncommittedTransactions w)
    (set_ProcessingUncommitted true
       (logger (LogDebug "transition to uncommitted messages") w)).

(** The world in which the uncommitted-list handler starts draining after
    an empty page. *)
Definition uncommitted_list_complete (w : World) : World :=
  set_UncommittedTransactions (UncommittedTransactions w ++ [])
    (logger (LogDebug "received uncommitted transactions") w).

Definition uncommitted_u1 : World :=
  set_UncommittedTransactions ["u1"] started.

(** The world in which [_blockreplyhandler] starts draining: the body is
    stored and its transactions are enqueued. *)
Definition block_body_stored (blk : TransactionBlock) (w : World) : World :=
  enqueue_transactions (TransactionIDs blk)
    (set_BlockMap
       (OrderedDict.setitem (BlockMap w) (BlockIdentifier blk) (Some blk))
       (logger (LogInfo "received block") w)).

(** The world in which [_txnreplyhandler] starts draining. *)
Definition transaction_body_stored (txn : Transaction) (w : World) : World :=
  set_TransactionMap
    (OrderedDict.setitem (TransactionMap w) (TxnIdentifier txn) (Some txn))
    (logger (LogDebug "received transaction") w).

(** The world in which [_blocklistreplyhandler] starts draining after an
    empty page. *)
Definition block_list_complete (w : World) : World :=
  logger (LogDebug "received block identifiers") w.

(** The common tail of the two body handlers. *)
Definition drain_after_body (w1 : World) : World :=
  let (sent_one, w) := _kick_off_next_transaction w1 in
  if sent_one then w
  else
    let (sent_one, w) := _kick_off_next_block w in
    if sent_one then w else _handleuncommitted w.

(** The transaction queue once it has been emptied from the local store. *)
Definition transactions_drained (w1 : World) : World :=
  set_TransactionMap
    (copy_local (TransactionStore (journal w1)) (PendingTransactions w1)
       (TransactionMap w1))
    (set_PendingTransactions [] w1).

(** The block queue once it has been emptied from the local store. *)
Definition blocks_drained (w1 : World) : World :=
  set_PendingBlocks [] (copy_local_blocks (PendingBlocks w1) w1).

(** A world in which both queues hold an identifier missing from the local
    store. *)
Definition both_queues_missing : World :=
  set_PendingTransactions ["t9"] (set_PendingBlocks ["b9"] started).

(** The handler that [initiate_journal_transfer] registers for a type. *)
Definition session_handler (k : MsgKind) : Handler :=
  match k with
  | KBlockListReply => H_blocklistreplyhandler
  | KBlockReply => H_blockreplyhandler
  | KUncommittedListReply => H_txnlistreplyhandler
  | KTransactionReply => H_txnreplyhandler
  | KTransferFailed => H_failedhandler
  end.

Definition no_handler (w : World) : Prop :=
  forall k, handler_of (dispatcher w) k = None.

(** A journal in restore mode with a persisted store. *)
Definition restored_journal : Journal :=
  mkJournal true ["a"; "b"] ∅ ∅ (fun _ _ => None).

(** [grows_by_one w w']: the step from [w] to [w'] only appended to the
    outbox and to the timer list, and appended one item at most in all. *)
Definition grows_by_one (w w' : World) : Prop :=
  exists out tm,
    sent w' = sent w ++ out /\ timers w' = timers w ++ tm
    /\ (length out + length tm <= 1)%nat.

(** Does the message [r] answer the request [m]?  A failure message answers
    any request. *)
Definition answers (r : Reply) (m : Message) : bool :=
  match r, m with
  | BlockListReplyMessage _ _, BlockListRequestMessage _ => true
  | BlockReplyMessage _, BlockRequestMessage _ => true
  | UncommittedListReplyMessage _ _, UncommittedListRequestMessage _ => true
  | TransactionReplyMessage _, TransactionRequestMessage _ => true
  | TransferFailedMessage, _ => true
  | _, _ => false
  end.

(** The requests sent between two worlds of one run. *)
Definition requests_since (w w' : World) : list Message :=
  map fst (sent_since w w').

(** The runs of a session with a peer that answers requests: [session_run w
    outstanding] holds when [w] is reached with the requests [outstanding]
    sent and not yet answered.  A run starts with [start_journal_transfer]
    in a world where nothing has been sent, scheduled or registered; then a
    message answering an outstanding request arrives, or the oldest timer
    fires, or the peer list changes. *)
Inductive session_run : World -> list Message -> Prop :=
| run_start w rnd :
    sent w = [] -> timers w = [] -> no_handler w ->
    session_run (snd (start_journal_transfer rnd w))
      (map fst (sent (snd (start_journal_transfer rnd w))))
| run_receive w before m after r :
    session_run w (before ++ m :: after) ->
    answers r m = true ->
    session_run (dispatch r w)
      (before ++ after ++ requests_since w (dispatch r w))
| run_fire w outstanding rnd :
    session_run w outstanding ->
    timers w <> [] ->
    session_run (handle_event (Fire rnd) w)
      (outstanding ++ requests_since w (handle_event (Fire rnd) w))
| run_peers w outstanding peers :
    session_run w outstanding ->
    session_run (handle_event (PeersBecome peers) w) outstanding.

Definition is_block_request (m : Message) : bool :=
  match m with BlockRequestMessage _ => true | _ => false end.

Definition is_transaction_request (m : Message) : bool :=
  match m with TransactionRequestMessage _ => true | _ => false end.

(** A drain sends one message at most, as its last action, and answers true
    exactly when it did. *)
Definition sends_at_most_once (w0 : World) (r : bool * World) : Prop :=
  exists out,
    sent (snd r) = sent w0 ++ out
    /\ (fst r = true ->
        exists m w1,
          out = [(m, PeerIdentifier (Peer w0))]
          /\ snd r = send_message m w1)
    /\ (fst r = false -> out = []).

(** The world of scenario A after the block list: [b1] is resolved from the
    store, [b2] has been requested. *)
Definition scenario_A : World :=
  let w := snd (start_journal_transfer 0
                  (fresh_world journal_with_b1 [peer1])) in
  let w := dispatch (BlockListReplyMessage 0 ["b1"; "b2"]) w in
  dispatch (BlockListReplyMessage 2 []) w.

Definition is_pending_submission (c : JournalCall) : bool :=
  match c with AddPendingTransaction _ _ => true | _ => false end.

(** A step that leaves the journal trace, the callback count and the timers
    as they were. *)
Definition steady (w w' : World) : Prop :=
  journal_calls w' = journal_calls w /\ callbacks w' = callbacks w
  /\ timers w' = timers w.

(** A step that ran the commit phase: the callback was invoked once, no
    handler is left, both queues are empty and no timer was added. *)
Definition commits (w w' : World) : Prop :=
  callbacks w' = S (callbacks w) /\ no_handler w'
  /\ PendingBlocks w' = [] /\ PendingTransactions w' = []
  /\ timers w' = timers w.

(** What one step may do to the journal. *)
Definition commit_or_nothing (w w' : World) : Prop :=
  (journal_calls w' = journal_calls w /\ callbacks w' = callbacks w)
  \/ commits w w'.

(** A session that found no peer at its start and waits for its timer. *)
Definition waiting_for_peer : World :=
  snd (start_journal_transfer 0 (fresh_world quiet_journal [])).

(** A session whose peer had no block: the block list ended at once and the
    uncommitted list has been requested. *)
Definition uncommitted_requested : World :=
  dispatch (BlockListReplyMessage 0 []) started.

(** Every queued block and transaction, and every transaction of a queued
    block, is in the local store. *)
Definition all_local (w : World) : Prop :=
  Forall (known (BlockStore (journal w))) (PendingBlocks w)
  /\ Forall (known (TransactionStore (journal w))) (PendingTransactions w)
  /\ forall k blk,
       In k (PendingBlocks w) -> BlockStore (journal w) !! k = Some blk ->
       Forall (known (TransactionStore (journal w))) (TransactionIDs blk).

(** A world with [b1] queued, when the store holds [b1] and its
    transaction. *)
Definition b1_queued : World :=
  set_Peer peer1
    (enqueue_blocks ["b1"] (fresh_world journal_with_b1 [peer1])).

(** The page replies of a peer that answers each request at the offset that
    was asked for: the first page at [offset], each further page at the
    offset of the page before plus its length. *)
Fixpoint echo_pages (offset : Z) (idss : list (list Identifier))
    : list (Z * list Identifier) :=
  match idss with
  | [] => []
  | ids :: rest =>
      (offset, ids) :: echo_pages (offset + Z.of_nat (length ids)) rest
  end.

(** Every identifier waiting in a queue has an entry in the map of its
    kind. *)
Definition queues_have_entries (w : World) : Prop :=
  (forall k, In k (PendingBlocks w) -> In k (OrderedDict.keys (BlockMap w)))
  /\ (forall k, In k (PendingTransactions w) ->
                In k (OrderedDict.keys (TransactionMap w))).

(** A step that moves the session on: it sent exactly one request and left
    the journal alone, or it sent nothing and ran the commit phase. *)
Definition progress (w w' : World) : Prop :=
  (exists request,
      sent w' = sent w ++ [(request, PeerIdentifier (Peer w))]
      /\ journal_calls w' = journal_calls w /\ callbacks w' = callbacks w)
  \/ (sent w' = sent w /\ commits w w').

(** A step that prepares a handler's work: nothing is sent, submitted or
    scheduled, and the peer stays. *)
Definition silent (w w' : World) : Prop :=
  sent w' = sent w /\ Peer w' = Peer w /\ steady w w'.

(** The transaction identifiers of the blocks [ids] found in the store, in
    the order in which [_kick_off_next_block] appends them. *)
Definition block_transactions (store : gmap string TransactionBlock)
    (ids : list Identifier) : list Identifier :=
  concat
    (map (fun k =>
            match store !! k with
            | Some blk => TransactionIDs blk
            | None => []
            end) ids).

(** A world whose queues mix identifiers the store holds ([b1], [t1]) with
    identifiers it does not hold ([b2], [t9]), the local ones queued again
    behind the missing ones. *)
Definition queues_mixed : World :=
  set_Peer peer1
    (enqueue_transactions ["t1"; "t9"; "t1"]
       (enqueue_blocks ["b1"; "b2"; "b1"]
          (fresh_world journal_with_b1 [peer1]))).

Definition is_block_reply (r : Reply) : bool :=
  match r with BlockReplyMessage _ => true | _ => false end.

(** The block-body requests sent so far that no received block body has
    answered. *)
Definition block_requests_unanswered (w : World) (received : list Reply)
    : nat :=
  length (List.filter is_block_request (map fst (sent w)))
  - length (List.filter is_block_reply received).

(** A peer that lists two blocks and then sends the empty page that ends the
    list twice. *)
Definition empty_page_twice : list Reply :=
  [ BlockListReplyMessage 0 ["b1"; "b2"];
    BlockListReplyMessage 2 [];
    BlockListReplyMessage 2 [] ].

Definition after_empty_page_twice : World :=
  run_events (map Receive empty_page_twice) started.

(** Going from [w] to [w'] removed no key from either map. *)
Definition keys_kept (w w' : World) : Prop :=
  (forall k, In k (OrderedDict.keys (BlockMap w)) ->
             In k (OrderedDict.keys (BlockMap w')))
  /\ (forall k, In k (OrderedDict.keys (TransactionMap w)) ->
                In k (OrderedDict.keys (TransactionMap w'))).

(** A session that has received the first page of the block list. *)
Definition blocks_listed : World :=
  dispatch (BlockListReplyMessage 0 ["b1"; "b2"]) started.

(** * Properties *)

(** ** Ordered dictionaries *)

Section OrderedDictFacts.
Context {V : Type}.
Implicit Types (d : OrderedDict V) (k : Identifier) (v : V).

Lemma setitem_keys_present d k v :
  In k (OrderedDict.keys d) ->
  OrderedDict.keys (OrderedDict.setitem d k v) = OrderedDict.keys d.
Proof.
  induction d as [|[k' v'] d IH]; cbn; [tauto|].
  intros Hin. destruct (String.eqb_spec k' k) as [->|Hne]; cbn; [easy|].
  f_equal. apply IH. destruct Hin; [congruence|assumption].
Qed.

Lemma setitem_keys_absent d k v :
  ~ In k (OrderedDict.keys d) ->
  OrderedDict.keys (OrderedDict.setitem d k v) = OrderedDict.keys d ++ [k].
Proof.
  induction d as [|[k' v'] d IH]; cbn; [easy|].
  intros Hin. destruct (String.eqb_spec k' k) as [->|Hne]; cbn; [tauto|].
  f_equal. apply IH. tauto.
Qed.

Lemma setitem_keys_incl d k v k0 :
  In k0 (OrderedDict.keys d) ->
  In k0 (OrderedDict.keys (OrderedDict.setitem d k v)).
Proof.
  intros H. destruct (in_dec String.string_dec k (OrderedDict.keys d)) as [Hk|Hk].
  - now rewrite setitem_keys_present.
  - rewrite setitem_keys_absent by assumption. apply in_or_app. now left.
Qed.

Lemma setitem_keys_self d k v :
  In k (OrderedDict.keys (OrderedDict.setitem d k v)).
Proof.
  destruct (in_dec String.string_dec k (OrderedDict.keys d)) as [Hk|Hk].
  - now rewrite setitem_keys_present.
  - rewrite setitem_keys_absent by assumption. apply in_or_app.
    right. now left.
Qed.

Lemma setitem_keys_NoDup d k v :
  List.NoDup (OrderedDict.keys d) ->
  List.NoDup (OrderedDict.keys (OrderedDict.setitem d k v)).
Proof.
  intros Hnd. destruct (in_dec String.string_dec k (OrderedDict.keys d)) as [Hk|Hk].
  - now rewrite setitem_keys_present.
  - rewrite setitem_keys_absent by assumption.
    apply NoDup_ListNoDup, NoDup_app. repeat split.
    + now apply NoDup_ListNoDup.
    + intros x Hx Hx'. apply list_elem_of_In in Hx.
      apply list_elem_of_In in Hx'. destruct Hx' as [<-|[]]. tauto.
    + apply NoDup_ListNoDup. constructor; [easy|constructor].
Qed.

Lemma getitem_setitem_eq d k v :
  OrderedDict.getitem (OrderedDict.setitem d k v) k = Some v.
Proof.
  induction d as [|[k' v'] d IH]; cbn.
  - now rewrite String.eqb_refl.
  - destruct (String.eqb_spec k' k) as [->|Hne]; cbn.
    + now rewrite String.eqb_refl.
    + destruct (String.eqb_spec k' k); [congruence|assumption].
Qed.

Lemma getitem_setitem_ne d k k0 v :
  k0 <> k ->
  OrderedDict.getitem (OrderedDict.setitem d k v) k0
  = OrderedDict.getitem d k0.
Proof.
  intros Hne. induction d as [|[k' v'] d IH]; cbn.
  - destruct (String.eqb_spec k k0); [congruence|reflexivity].
  - destruct (String.eqb_spec k' k) as [->|Hne']; cbn.
    + destruct (String.eqb_spec k k0); [congruence|reflexivity].
    + destruct (String.eqb_spec k' k0); [reflexivity|assumption].
Qed.
End OrderedDictFacts.

(** ** The commit phase *)

Lemma submit_all_frame cs w :
  snd (submit_all cs w)
  = set_journal_calls (journal_calls (snd (submit_all cs w))) w.
Proof.
  revert w. induction cs as [|c cs IH]; intros w; cbn.
  - now destruct w.
  - destruct (submit (journal w) (journal_calls w) c); cbn; [reflexivity|].
    rewrite IH at 1. reflexivity.
Qed.

Lemma submit_all_app a b w :
  submit_all (a ++ b) w =
  match submit_all a w with
  | (Some e, w') => (Some e, w')
  | (None, w') => submit_all b w'
  end.
Proof.
  revert w. induction a as [|c a IH]; intros w; cbn; [reflexivity|].
  destruct (submit (journal w) (journal_calls w) c); [reflexivity|apply IH].
Qed.

Lemma submit_all_ok cs w :
  fst (submit_all cs w) = None ->
  journal_calls (snd (submit_all cs w)) = journal_calls w ++ map applied cs.
Proof.
  revert w. induction cs as [|c cs IH]; intros w; cbn.
  - intros _. now rewrite app_nil_r.
  - destruct (submit (journal w) (journal_calls w) c); cbn; [discriminate|].
    intros H. rewrite IH by assumption. cbn. now rewrite <- app_assoc.
Qed.

Lemma submit_all_raise cs w e :
  fst (submit_all cs w) = Some e ->
  exists pre c post,
    cs = pre ++ c :: post /\
    journal_calls (snd (submit_all cs w))
    = journal_calls w ++ map applied pre ++ [(c, Some e)].
Proof.
  revert w. induction cs as [|c cs IH]; intros w; cbn; [discriminate|].
  destruct (submit (journal w) (journal_calls w) c) as [e'|] eqn:Hs; cbn.
  - intros [= ->]. now exists [], c, cs.
  - intros H. destruct (IH _ H) as (pre & c' & post & -> & Hj).
    exists (c :: pre), c', post. split; [reflexivity|].
    rewrite Hj. cbn. now rewrite <- app_assoc.
Qed.

Lemma submit_all_first_raise pre c post w e :
  (forall p1 x p2, pre = p1 ++ x :: p2 -> answer_after w p1 x = None) ->
  answer_after w pre c = Some e ->
  submit_all (pre ++ c :: post) w
  = (Some e,
     set_journal_calls
       (journal_calls w ++ map applied pre ++ [(c, Some e)]) w).
Proof.
  unfold answer_after. revert w.
  induction pre as [|x pre IH]; intros w Hpre Hc; cbn in *.
  - rewrite app_nil_r in Hc. now rewrite Hc.
  - specialize (Hpre [] x pre eq_refl) as Hx. cbn in Hx.
    rewrite app_nil_r in Hx. rewrite Hx.
    rewrite IH; cbn.
    + now rewrite <- app_assoc.
    + intros p1 y p2 ->. specialize (Hpre (x :: p1) y p2 eq_refl).
      cbn in Hpre. now rewrite <- app_assoc.
    + now rewrite <- app_assoc.
Qed.

Lemma submit_all_all_ok cs w :
  (forall p1 x p2, cs = p1 ++ x :: p2 -> answer_after w p1 x = None) ->
  fst (submit_all cs w) = None.
Proof.
  unfold answer_after. revert w.
  induction cs as [|x cs IH]; intros w Hcs; cbn in *; [reflexivity|].
  specialize (Hcs [] x cs eq_refl) as Hx. cbn in Hx.
  rewrite app_nil_r in Hx. rewrite Hx. apply IH; cbn.
  intros p1 y p2 ->. specialize (Hcs (x :: p1) y p2 eq_refl).
  cbn in Hcs. now rewrite <- app_assoc.
Qed.

(** The two loops of the [try] block behave as one loop over the
    transactions followed by the blocks. *)
Lemma finish_try_one_sequence w :
  finish_try w = submit_all (pending_submissions w ++ block_submissions w) w.
Proof.
  unfold finish_try. rewrite submit_all_app.
  pose proof (submit_all_frame (pending_submissions w) w) as Hf.
  destruct (submit_all (pending_submissions w) w) as [[e|] w']; cbn in *;
    [reflexivity|].
  rewrite Hf. reflexivity.
Qed.

Lemma finish_unfold w :
  _finish w = finish_epilogue (fst (finish_try w)) (snd (finish_try w)).
Proof. unfold _finish. now destruct (finish_try w). Qed.

Lemma finish_epilogue_journal_calls r w :
  journal_calls (finish_epilogue r w) = journal_calls w.
Proof. now destruct r as [[|]|]. Qed.

Lemma unregister_handler_of d k :
  handler_of (unregister k d) k = None.
Proof.
  induction d as [|[k' h] d IH]; cbn; [reflexivity|].
  destruct (kind_eqb k' k) eqn:E; cbn; [assumption|now rewrite E].
Qed.

Lemma unregister_handler_of_none d k k' :
  handler_of d k = None -> handler_of (unregister k' d) k = None.
Proof.
  induction d as [|[k0 h] d IH]; cbn; [reflexivity|].
  destruct (kind_eqb k0 k) eqn:E; [discriminate|].
  intros H. destruct (kind_eqb k0 k'); cbn; [auto|]. rewrite E. auto.
Qed.

Lemma clear_all_handlers_none w k :
  handler_of (dispatcher (clear_all_handlers w)) k = None.
Proof.
  unfold clear_all_handlers, clear_message_handler; cbn.
  destruct k;
    repeat first [ apply unregister_handler_of
                 | apply unregister_handler_of_none ].
Qed.

(** Whatever the journal answers, the submissions attempted by [_finish] are
    an initial segment of: the transactions of the map in map order, then
    the blocks of the map in map order. *)
Lemma finish_calls_prefix w :
  exists k,
    map fst (journal_calls (_finish w))
    = map fst (journal_calls w)
      ++ firstn k (pending_submissions w ++ block_submissions w).
Proof.
  rewrite finish_unfold, finish_epilogue_journal_calls,
    finish_try_one_sequence.
  set (cs := pending_submissions w ++ block_submissions w).
  destruct (fst (submit_all cs w)) as [e|] eqn:E.
  - destruct (submit_all_raise _ _ _ E) as (pre & c & post & Hcs & ->).
    exists (S (length pre)). rewrite Hcs, !map_app, map_map. cbn.
    rewrite map_id. f_equal.
    replace (S (length pre)) with (length (pre ++ [c]))
      by (rewrite length_app; cbn; lia).
    change (pre ++ c :: post) with (pre ++ [c] ++ post).
    rewrite app_assoc, firstn_app, firstn_all, Nat.sub_diag. cbn.
    now rewrite app_nil_r.
  - rewrite submit_all_ok by assumption. exists (length cs).
    rewrite firstn_all, map_app, map_map. cbn. now rewrite map_id.
Qed.

(** C1: when no submission raises, [_finish] submits every entry of the
    transaction map as a pending transaction with [build_block] false, in
    map order, before any block, and then commits every entry of the block
    map in map order. *)
Theorem finish_commit_order (w : World)
    (Hok : forall p1 x p2,
        pending_submissions w ++ block_submissions w = p1 ++ x :: p2 ->
        answer_after w p1 x = None) :
  journal_calls (_finish w)
  = journal_calls w
    ++ map (fun txn => applied (AddPendingTransaction txn false))
         (OrderedDict.values (TransactionMap w))
    ++ map (fun blk => applied (CommitTransactionBlock blk))
         (OrderedDict.values (BlockMap w)).
Proof.
  rewrite finish_unfold, finish_epilogue_journal_calls,
    finish_try_one_sequence.
  rewrite submit_all_ok by now apply submit_all_all_ok.
  unfold pending_submissions, block_submissions, OrderedDict.values,
    OrderedDict.iteritems.
  now rewrite map_app, !map_map.
Qed.

Lemma finish_commit_order_witness :
  journal_calls (_finish (staged_world quiet_journal))
  = [ applied (AddPendingTransaction (Some (txn_of "t1")) false);
      applied (AddPendingTransaction (Some (txn_of "t2")) false);
      applied (AddPendingTransaction (Some (txn_of "t3")) false);
      applied (CommitTransactionBlock
                 (Some (mkTransactionBlock "b1" ["t1"; "t2"] "blk"))) ].
Proof.
  apply (finish_commit_order (staged_world quiet_journal)).
  intros p1 x p2 _. reflexivity.
Defined.

(** C2: when the K-th submission of the commit phase is the first to raise
    (an assertion failure or anything else), the K-1 submissions before it
    stay applied, nothing after it is attempted, one error line is logged,
    the five handlers are cleared and the callback is invoked; [_finish]
    itself returns normally. *)
Theorem finish_abandons_on_first_error (w : World)
    (pre post : list JournalCall) (c : JournalCall) (e : Exn)
    (Hsplit : pending_submissions w ++ block_submissions w
              = pre ++ c :: post)
    (Hpre : forall p1 x p2, pre = p1 ++ x :: p2 -> answer_after w p1 x = None)
    (Hraise : answer_after w pre c = Some e) :
  journal_calls (_finish w)
  = journal_calls w ++ map applied pre ++ [(c, Some e)]
  /\ (exists text,
        log (_finish w)
        = log w ++ [LogError text; LogInfo "journal transferred"])
  /\ (forall k, handler_of (dispatcher (_finish w)) k = None)
  /\ callbacks (_finish w) = S (callbacks w)
  /\ sent (_finish w) = sent w
  /\ timers (_finish w) = timers w.
Proof.
  rewrite finish_unfold, finish_try_one_sequence, Hsplit.
  rewrite (submit_all_first_raise pre c post w e Hpre Hraise).
  cbn [fst snd].
  split; [now rewrite finish_epilogue_journal_calls|].
  split.
  { destruct e; cbn; rewrite <- app_assoc; eexists; reflexivity. }
  split.
  { intros k. unfold finish_epilogue, Callback.
    exact (clear_all_handlers_none _ k). }
  destruct e; cbn; auto.
Qed.

Lemma finish_abandons_on_first_error_witness :
  journal_calls (_finish (staged_world second_fails))
  = [ applied (AddPendingTransaction (Some (txn_of "t1")) false);
      (AddPendingTransaction (Some (txn_of "t2")) false,
       Some AssertionError) ]
  /\ (exists text,
        log (_finish (staged_world second_fails))
        = [LogError text; LogInfo "journal transferred"])
  /\ (forall k,
        handler_of (dispatcher (_finish (staged_world second_fails))) k
        = None)
  /\ callbacks (_finish (staged_world second_fails)) = 1
  /\ sent (_finish (staged_world second_fails)) = []
  /\ timers (_finish (staged_world second_fails)) = [].
Proof.
  apply (finish_abandons_on_first_error (staged_world second_fails)
           [AddPendingTransaction (Some (txn_of "t1")) false]
           [AddPendingTransaction (Some (txn_of "t3")) false;
            CommitTransactionBlock
              (Some (mkTransactionBlock "b1" ["t1"; "t2"] "blk"))]
           (AddPendingTransaction (Some (txn_of "t2")) false)
           AssertionError).
  - reflexivity.
  - intros [|y [|z p1]] x p2 H; try discriminate. reflexivity.
  - reflexivity.
Defined.

(** ** Insertion into the discovery maps *)

Lemma enqueue_transactions_eq ids w :
  enqueue_transactions ids w
  = set_PendingTransactions (PendingTransactions w ++ ids)
      (set_TransactionMap (mark_pending ids (TransactionMap w)) w).
Proof.
  revert w. induction ids as [|k ids IH]; intros w; cbn.
  - rewrite app_nil_r. now destruct w.
  - rewrite IH. cbn. now rewrite <- app_assoc.
Qed.

Lemma enqueue_blocks_eq ids w :
  enqueue_blocks ids w
  = set_PendingBlocks (PendingBlocks w ++ ids)
      (set_BlockMap (mark_pending ids (BlockMap w)) w).
Proof.
  revert w. induction ids as [|k ids IH]; intros w; cbn.
  - rewrite app_nil_r. now destruct w.
  - rewrite IH. cbn. now rewrite <- app_assoc.
Qed.

Section MarkPending.
Context {V : Type}.
Implicit Types (d : OrderedDict (option V)) (ids : list Identifier).

Lemma mark_pending_cons k ids d :
  mark_pending (k :: ids) d
  = mark_pending ids (OrderedDict.setitem d k None).
Proof. reflexivity. Qed.

Lemma mark_pending_keys_present ids d :
  (forall k, In k ids -> In k (OrderedDict.keys d)) ->
  OrderedDict.keys (mark_pending ids d) = OrderedDict.keys d.
Proof.
  revert d. induction ids as [|k ids IH]; intros d Hin; [reflexivity|].
  rewrite mark_pending_cons, IH.
  - apply setitem_keys_present, Hin. now left.
  - intros k' Hk'. apply setitem_keys_incl, Hin. now right.
Qed.

Lemma mark_pending_NoDup ids d :
  List.NoDup (OrderedDict.keys d) ->
  List.NoDup (OrderedDict.keys (mark_pending ids d)).
Proof.
  revert d. induction ids as [|k ids IH]; intros d Hnd; [assumption|].
  rewrite mark_pending_cons. apply IH, setitem_keys_NoDup, Hnd.
Qed.

Lemma mark_pending_getitem_other ids d k :
  ~ In k ids ->
  OrderedDict.getitem (mark_pending ids d) k = OrderedDict.getitem d k.
Proof.
  revert d. induction ids as [|k' ids IH]; intros d Hin; [reflexivity|].
  rewrite mark_pending_cons, IH by (cbn in Hin; tauto).
  apply getitem_setitem_ne. cbn in Hin. intros ->. tauto.
Qed.

Lemma mark_pending_getitem ids d k :
  In k ids -> OrderedDict.getitem (mark_pending ids d) k = Some None.
Proof.
  revert d. induction ids as [|k' ids IH]; intros d Hin; [easy|].
  rewrite mark_pending_cons.
  destruct (in_dec String.string_dec k ids) as [Hk|Hk]; [now apply IH|].
  destruct Hin as [->|Hin]; [|tauto].
  rewrite mark_pending_getitem_other by assumption.
  apply getitem_setitem_eq.
Qed.
End MarkPending.

(** C3, as stated, fails: [t1] is present and resolved in the transaction
    map when the body of [b2] names it again; the insertion loop of
    [_blockreplyhandler] resets its entry to pending and appends it to the
    queue once more, and the handler goes on to request it a second time. *)
Lemma repeated_reference_is_not_a_no_op :
  OrderedDict.getitem (TransactionMap after_first_block) "t1"
  = Some (Some (txn_of "t1"))
  /\ PendingTransactions after_first_block = []
  /\ OrderedDict.getitem
       (TransactionMap
          (enqueue_transactions (TransactionIDs block_b2) after_first_block))
       "t1"
     = Some None
  /\ PendingTransactions
       (enqueue_transactions (TransactionIDs block_b2) after_first_block)
     = ["t1"]
  /\ sent after_first_block
     = [ (BlockListRequestMessage 0, "p1"); (BlockListRequestMessage 2, "p1");
         (BlockRequestMessage "b1", "p1");
         (TransactionRequestMessage "t1", "p1");
         (BlockRequestMessage "b2", "p1") ]
  /\ sent (dispatch (BlockReplyMessage block_b2) after_first_block)
     = sent after_first_block ++ [(TransactionRequestMessage "t1", "p1")]
  /\ OrderedDict.getitem
       (TransactionMap
          (dispatch (BlockReplyMessage block_b2) after_first_block)) "t1"
     = Some None.
Proof. vm_compute. repeat split. Qed.

(** C3, amended: each identifier is a key of its map at most once, at the
    place of its first insertion.  When identifiers that are all present are
    named again, the keys of the map and their order do not change, while
    every named entry is reset to pending and every identifier is appended
    to the queue again. *)
Theorem repeated_reference_keeps_keys (w : World)
    (blockids txnids : list Identifier)
    (HndB : List.NoDup (OrderedDict.keys (BlockMap w)))
    (HndT : List.NoDup (OrderedDict.keys (TransactionMap w)))
    (HinB : forall k, In k blockids -> In k (OrderedDict.keys (BlockMap w)))
    (HinT : forall k, In k txnids ->
                      In k (OrderedDict.keys (TransactionMap w))) :
  let wb := enqueue_blocks blockids w in
  let wt := enqueue_transactions txnids w in
  (OrderedDict.keys (BlockMap wb) = OrderedDict.keys (BlockMap w)
   /\ List.NoDup (OrderedDict.keys (BlockMap wb))
   /\ (forall k, In k blockids ->
                 OrderedDict.getitem (BlockMap wb) k = Some None)
   /\ (forall k, ~ In k blockids ->
                 OrderedDict.getitem (BlockMap wb) k
                 = OrderedDict.getitem (BlockMap w) k)
   /\ PendingBlocks wb = PendingBlocks w ++ blockids)
  /\
  (OrderedDict.keys (TransactionMap wt) = OrderedDict.keys (TransactionMap w)
   /\ List.NoDup (OrderedDict.keys (TransactionMap wt))
   /\ (forall k, In k txnids ->
                 OrderedDict.getitem (TransactionMap wt) k = Some None)
   /\ (forall k, ~ In k txnids ->
                 OrderedDict.getitem (TransactionMap wt) k
                 = OrderedDict.getitem (TransactionMap w) k)
   /\ PendingTransactions wt = PendingTransactions w ++ txnids).
Proof.
  cbn zeta. rewrite enqueue_blocks_eq, enqueue_transactions_eq.
  cbn [BlockMap PendingBlocks TransactionMap PendingTransactions
       set_PendingBlocks set_BlockMap set_PendingTransactions
       set_TransactionMap].
  repeat split;
    auto using mark_pending_keys_present, mark_pending_NoDup,
               mark_pending_getitem, mark_pending_getitem_other.
Qed.

Lemma repeated_reference_keeps_keys_witness :
  let w := after_first_block in
  let wb := enqueue_blocks ["b2"; "b1"] w in
  let wt := enqueue_transactions ["t1"] w in
  (OrderedDict.keys (BlockMap wb) = OrderedDict.keys (BlockMap w)
   /\ List.NoDup (OrderedDict.keys (BlockMap wb))
   /\ (forall k, In k ["b2"; "b1"] ->
                 OrderedDict.getitem (BlockMap wb) k = Some None)
   /\ (forall k, ~ In k ["b2"; "b1"] ->
                 OrderedDict.getitem (BlockMap wb) k
                 = OrderedDict.getitem (BlockMap w) k)
   /\ PendingBlocks wb = PendingBlocks w ++ ["b2"; "b1"])
  /\
  (OrderedDict.keys (TransactionMap wt) = OrderedDict.keys (TransactionMap w)
   /\ List.NoDup (OrderedDict.keys (TransactionMap wt))
   /\ (forall k, In k ["t1"] ->
                 OrderedDict.getitem (TransactionMap wt) k = Some None)
   /\ (forall k, ~ In k ["t1"] ->
                 OrderedDict.getitem (TransactionMap wt) k
                 = OrderedDict.getitem (TransactionMap w) k)
   /\ PendingTransactions wt = PendingTransactions w ++ ["t1"]).
Proof.
  apply (repeated_reference_keeps_keys after_first_block ["b2"; "b1"] ["t1"]).
  - vm_compute. repeat constructor; cbn; intuition discriminate.
  - vm_compute. repeat constructor; cbn; intuition discriminate.
  - vm_compute. tauto.
  - vm_compute. tauto.
Defined.

(** ** The draining functions *)

Lemma split_known {V : Type} (store : gmap string V) (ids : list Identifier) :
  Forall (known store) ids \/
  exists locals id rest,
    ids = locals ++ id :: rest /\ Forall (known store) locals
    /\ store !! id = None.
Proof.
  induction ids as [|k ids IH]; [left; constructor|].
  destruct (store !! k) as [v|] eqn:Hk.
  - destruct IH as [IH|(locals & id & rest & -> & Hl & Hm)].
    + left. constructor; [now exists v|assumption].
    + right. exists (k :: locals), id, rest. repeat split; [|assumption].
      constructor; [now exists v|assumption].
  - right. exists [], k, ids. repeat split; [constructor|assumption].
Qed.

Lemma transaction_loop_first_missing locals id rest w :
  Forall (known (TransactionStore (journal w))) locals ->
  TransactionStore (journal w) !! id = None ->
  kick_off_next_transaction_loop (locals ++ id :: rest) w
  = (true,
     send_message (TransactionRequestMessage id)
       (set_TransactionMap
          (copy_local (TransactionStore (journal w)) locals
             (TransactionMap w))
          (set_PendingTransactions rest w))).
Proof.
  revert w. induction locals as [|x locals IH]; intros w Hl Hm.
  - cbn. now rewrite Hm.
  - inversion Hl as [|? ? [txn Hx] Hl']; subst.
    cbn. rewrite Hx. rewrite IH by assumption. reflexivity.
Qed.

Lemma transaction_loop_all_known pending w :
  PendingTransactions w = pending ->
  Forall (known (TransactionStore (journal w))) pending ->
  kick_off_next_transaction_loop pending w
  = (false,
     set_TransactionMap
       (copy_local (TransactionStore (journal w)) pending (TransactionMap w))
       (set_PendingTransactions [] w)).
Proof.
  revert w. induction pending as [|x pending IH]; intros w Hp Hl.
  - cbn. destruct w; cbn in *. now subst.
  - inversion Hl as [|? ? [txn Hx] Hl']; subst.
    cbn. rewrite Hx. rewrite IH by (cbn; auto). reflexivity.
Qed.

Lemma copy_local_block_set_PendingBlocks k blk x w :
  copy_local_block k blk (set_PendingBlocks x w)
  = set_PendingBlocks x (copy_local_block k blk w).
Proof. unfold copy_local_block. now rewrite !enqueue_transactions_eq. Qed.

Lemma copy_local_block_journal k blk w :
  journal (copy_local_block k blk w) = journal w.
Proof. unfold copy_local_block. now rewrite enqueue_transactions_eq. Qed.

Lemma copy_local_blocks_journal ids w :
  journal (copy_local_blocks ids w) = journal w.
Proof.
  revert w. induction ids as [|k ids IH]; intros w; [reflexivity|].
  cbn. fold (copy_local_blocks ids). rewrite IH.
  destruct (BlockStore (journal w) !! k); [apply copy_local_block_journal|].
  reflexivity.
Qed.

Lemma copy_local_blocks_set_PendingBlocks ids x w :
  copy_local_blocks ids (set_PendingBlocks x w)
  = set_PendingBlocks x (copy_local_blocks ids w).
Proof.
  revert w. induction ids as [|k ids IH]; intros w; [reflexivity|].
  cbn. fold (copy_local_blocks ids).
  destruct (BlockStore (journal w) !! k).
  - now rewrite copy_local_block_set_PendingBlocks, IH.
  - apply IH.
Qed.

Lemma copy_local_blocks_cons_known k blk ids w :
  BlockStore (journal w) !! k = Some blk ->
  copy_local_blocks (k :: ids) w
  = copy_local_blocks ids (copy_local_block k blk w).
Proof. intros H. cbn. now rewrite H. Qed.

Lemma block_loop_first_missing locals id rest w :
  Forall (known (BlockStore (journal w))) locals ->
  BlockStore (journal w) !! id = None ->
  kick_off_next_block_loop (locals ++ id :: rest) w
  = (true,
     send_message (BlockRequestMessage id)
       (set_PendingBlocks rest (copy_local_blocks locals w))).
Proof.
  revert w. induction locals as [|x locals IH]; intros w Hl Hm.
  - cbn. now rewrite Hm.
  - inversion Hl as [|? ? [blk Hx] Hl']; subst.
    cbn [app kick_off_next_block_loop]. cbn [journal set_PendingBlocks].
    rewrite Hx. fold (copy_local_block x blk (set_PendingBlocks
                                               (locals ++ id :: rest) w)).
    rewrite IH; rewrite ?copy_local_block_journal; cbn [journal set_PendingBlocks]; auto.
    rewrite (copy_local_blocks_cons_known x blk) by assumption.
    rewrite copy_local_block_set_PendingBlocks,
      copy_local_blocks_set_PendingBlocks.
    reflexivity.
Qed.

Lemma block_loop_all_known pending w :
  PendingBlocks w = pending ->
  Forall (known (BlockStore (journal w))) pending ->
  kick_off_next_block_loop pending w
  = _kick_off_next_transaction
      (set_PendingBlocks [] (copy_local_blocks pending w)).
Proof.
  revert w. induction pending as [|x pending IH]; intros w Hp Hl.
  - cbn. destruct w; cbn in *. now subst.
  - inversion Hl as [|? ? [blk Hx] Hl']; subst.
    cbn [kick_off_next_block_loop]. cbn [journal set_PendingBlocks].
    rewrite Hx. fold (copy_local_block x blk (set_PendingBlocks pending w)).
    rewrite IH.
    + rewrite (copy_local_blocks_cons_known x blk) by assumption.
      rewrite copy_local_block_set_PendingBlocks,
        copy_local_blocks_set_PendingBlocks.
      reflexivity.
    + now rewrite copy_local_block_set_PendingBlocks.
    + now rewrite copy_local_block_journal.
Qed.

Lemma copy_local_blocks_frame ids w :
  exists bm tm pt,
    copy_local_blocks ids w
    = set_PendingTransactions pt (set_TransactionMap tm (set_BlockMap bm w)).
Proof.
  revert w. induction ids as [|k ids IH]; intros w.
  - exists (BlockMap w), (TransactionMap w), (PendingTransactions w).
    now destruct w.
  - change (copy_local_blocks (k :: ids) w)
      with (copy_local_blocks ids
              match BlockStore (journal w) !! k with
              | Some blk => copy_local_block k blk w
              | None => w
              end).
    destruct (BlockStore (journal w) !! k) as [blk|]; [|apply IH].
    destruct (IH (copy_local_block k blk w)) as (bm & tm & pt & ->).
    unfold copy_local_block. rewrite enqueue_transactions_eq.
    now exists bm, tm, pt.
Qed.

(** The two ways a drain can end. *)
Lemma kick_off_next_transaction_cases w :
  (exists locals id rest,
      PendingTransactions w = locals ++ id :: rest
      /\ Forall (known (TransactionStore (journal w))) locals
      /\ TransactionStore (journal w) !! id = None
      /\ _kick_off_next_transaction w
         = (true,
            send_message (TransactionRequestMessage id)
              (set_TransactionMap
                 (copy_local (TransactionStore (journal w)) locals
                    (TransactionMap w))
                 (set_PendingTransactions rest w))))
  \/
  (Forall (known (TransactionStore (journal w))) (PendingTransactions w)
   /\ _kick_off_next_transaction w
      = (false,
         set_TransactionMap
           (copy_local (TransactionStore (journal w))
              (PendingTransactions w) (TransactionMap w))
           (set_PendingTransactions [] w))).
Proof.
  unfold _kick_off_next_transaction.
  destruct (split_known (TransactionStore (journal w))
              (PendingTransactions w))
    as [Hall|(locals & id & rest & Hp & Hl & Hm)].
  - right. split; [assumption|]. now apply transaction_loop_all_known.
  - left. exists locals, id, rest. rewrite Hp. repeat split; auto.
    now apply transaction_loop_first_missing.
Qed.

Lemma kick_off_next_block_cases w :
  (exists locals id rest,
      PendingBlocks w = locals ++ id :: rest
      /\ Forall (known (BlockStore (journal w))) locals
      /\ BlockStore (journal w) !! id = None
      /\ _kick_off_next_block w
         = (true,
            send_message (BlockRequestMessage id)
              (set_PendingBlocks rest (copy_local_blocks locals w))))
  \/
  (Forall (known (BlockStore (journal w))) (PendingBlocks w)
   /\ _kick_off_next_block w
      = _kick_off_next_transaction
          (set_PendingBlocks [] (copy_local_blocks (PendingBlocks w) w))).
Proof.
  unfold _kick_off_next_block.
  destruct (split_known (BlockStore (journal w)) (PendingBlocks w))
    as [Hall|(locals & id & rest & Hp & Hl & Hm)].
  - right. split; [assumption|]. now apply block_loop_all_known.
  - left. exists locals, id, rest. rewrite Hp. repeat split; auto.
    now apply block_loop_first_missing.
Qed.

Lemma sent_since_app w w' out :
  sent w' = sent w ++ out -> sent_since w w' = out.
Proof. unfold sent_since. intros ->. now rewrite drop_app_length. Qed.

(** Summary of a transaction drain: it touches the transaction map, the
    transaction queue and the outbox only; it answers true exactly when it
    sent a message, which is then one request for a transaction missing
    from the store; it answers false only with the queue emptied. *)
Lemma kick_off_next_transaction_effect w :
  exists tm pt out,
    snd (_kick_off_next_transaction w)
    = set_sent (sent w ++ out)
        (set_PendingTransactions pt (set_TransactionMap tm w))
    /\ ((fst (_kick_off_next_transaction w) = true
         /\ exists id,
              out = [(TransactionRequestMessage id, PeerIdentifier (Peer w))]
              /\ In id (PendingTransactions w)
              /\ TransactionStore (journal w) !! id = None)
        \/ (fst (_kick_off_next_transaction w) = false
            /\ out = [] /\ pt = [])).
Proof.
  destruct (kick_off_next_transaction_cases w)
    as [(locals & id & rest & Hp & Hl & Hm & ->)|[Hall ->]].
  - eexists _, rest, _. split; [reflexivity|]. left. split; [reflexivity|].
    exists id. repeat split; auto. rewrite Hp. apply in_or_app.
    right. now left.
  - exists (copy_local (TransactionStore (journal w))
              (PendingTransactions w) (TransactionMap w)), [], [].
    split; [|right; auto].
    rewrite app_nil_r. reflexivity.
Qed.

(** Summary of a block drain. *)
Lemma kick_off_next_block_effect w :
  exists bm pb tm pt out,
    snd (_kick_off_next_block w)
    = set_sent (sent w ++ out)
        (set_PendingTransactions pt
           (set_TransactionMap tm
              (set_PendingBlocks pb (set_BlockMap bm w))))
    /\ ((fst (_kick_off_next_block w) = true
         /\ exists m,
              out = [(m, PeerIdentifier (Peer w))]
              /\ requests_missing (journal w) m)
        \/ (fst (_kick_off_next_block w) = false
            /\ out = [] /\ pb = [] /\ pt = [])).
Proof.
  destruct (kick_off_next_block_cases w)
    as [(locals & id & rest & Hp & Hl & Hm & ->)|[Hall ->]].
  - destruct (copy_local_blocks_frame locals w) as (bm & tm & pt & ->).
    exists bm, rest, tm, pt, [(BlockRequestMessage id, PeerIdentifier (Peer w))].
    split; [reflexivity|]. left. split; [reflexivity|].
    now exists (BlockRequestMessage id).
  - destruct (copy_local_blocks_frame (PendingBlocks w) w)
      as (bm & tm & pt & ->).
    set (w1 := set_PendingBlocks [] _).
    destruct (kick_off_next_transaction_effect w1)
      as (tm' & pt' & out & -> & Hcase).
    exists bm, [], tm', pt', out. split; [reflexivity|].
    destruct Hcase as [[-> (id & -> & _ & Hm)]|[-> [-> ->]]].
    + left. split; [reflexivity|].
      now exists (TransactionRequestMessage id).
    + right. auto.
Qed.

Example scenario_A_requests_only_b2 :
  sent (snd (_kick_off_next_block b1_b2_queued))
  = [(BlockRequestMessage "b2", "p1")]
  /\ BlockMap (snd (_kick_off_next_block b1_b2_queued))
     = [("b1", Some block_b1); ("b2", None)]
  /\ TransactionMap (snd (_kick_off_next_block b1_b2_queued))
     = [("t1", None)]
  /\ PendingTransactions (snd (_kick_off_next_block b1_b2_queued)) = ["t1"].
Proof. vm_compute. repeat split. Qed.

(** ** What a step may send *)

Lemma emits_refl w : emits w w [].
Proof. unfold emits. now rewrite app_nil_r. Qed.

Lemma emits_trans w1 w2 w3 o1 o2 :
  emits w1 w2 o1 -> emits w2 w3 o2 -> emits w1 w3 (o1 ++ o2).
Proof.
  unfold emits.
  intros (-> & -> & -> & -> & -> & ->) (-> & -> & -> & -> & -> & ->).
  now rewrite app_assoc.
Qed.

Lemma one_fetch_transport w w' out :
  Peer w' = Peer w -> journal w' = journal w ->
  one_fetch w' out -> one_fetch w out.
Proof. unfold one_fetch. now intros -> ->. Qed.

Lemma emits_logger e w : emits w (logger e w) [].
Proof. unfold emits. cbn. now rewrite app_nil_r. Qed.

Lemma emits_send m w :
  emits w (send_message m w) [(m, PeerIdentifier (Peer w))].
Proof. now unfold emits. Qed.

Lemma kick_off_next_transaction_emits w :
  exists out,
    emits w (snd (_kick_off_next_transaction w)) out
    /\ one_fetch w out
    /\ (fst (_kick_off_next_transaction w) = false -> out = [])
    /\ (fst (_kick_off_next_transaction w) = true -> out <> []).
Proof.
  destruct (kick_off_next_transaction_effect w)
    as (tm & pt & out & -> & Hcase).
  exists out. split; [now unfold emits|].
  destruct Hcase as [[-> (id & -> & _ & Hm)]|(-> & -> & _)].
  - repeat split; try easy. right.
    now exists (TransactionRequestMessage id).
  - repeat split; try easy. now left.
Qed.

Lemma kick_off_next_block_emits w :
  exists out,
    emits w (snd (_kick_off_next_block w)) out
    /\ one_fetch w out
    /\ (fst (_kick_off_next_block w) = false -> out = [])
    /\ (fst (_kick_off_next_block w) = true -> out <> []).
Proof.
  destruct (kick_off_next_block_effect w)
    as (bm & pb & tm & pt & out & -> & Hcase).
  exists out. split; [now unfold emits|].
  destruct Hcase as [[-> (m & -> & Hm)]|(-> & -> & _)].
  - repeat split; try easy. right. now exists m.
  - repeat split; try easy. now left.
Qed.

(** [_finish] changes the journal trace, the log, the dispatcher and the
    callback count, and nothing else. *)
Lemma finish_frame w :
  exists d jc lg,
    _finish w
    = set_callbacks (S (callbacks w))
        (set_dispatcher d (set_log lg (set_journal_calls jc w)))
    /\ forall k, handler_of d k = None.
Proof.
  exists (dispatcher (_finish w)), (journal_calls (_finish w)),
    (log (_finish w)).
  split.
  - rewrite finish_unfold, finish_try_one_sequence.
    set (cs := pending_submissions w ++ block_submissions w).
    rewrite (submit_all_frame cs w).
    generalize (journal_calls (snd (submit_all cs w))) as jc. intros jc.
    now destruct (fst (submit_all cs w)) as [[|]|].
  - intros k. rewrite finish_unfold. apply clear_all_handlers_none.
Qed.

Lemma finish_emits w : emits w (_finish w) [].
Proof.
  destruct (finish_frame w) as (d & jc & lg & -> & _).
  unfold emits. cbn. now rewrite app_nil_r.
Qed.

Lemma finish_callbacks w : callbacks (_finish w) = S (callbacks w).
Proof. now destruct (finish_frame w) as (d & jc & lg & -> & _). Qed.

Lemma enqueue_transactions_emits ids w :
  emits w (enqueue_transactions ids w) [].
Proof.
  rewrite enqueue_transactions_eq. unfold emits. cbn. now rewrite app_nil_r.
Qed.

Lemma enqueue_blocks_emits ids w : emits w (enqueue_blocks ids w) [].
Proof.
  rewrite enqueue_blocks_eq. unfold emits. cbn. now rewrite app_nil_r.
Qed.

(** Chaining a silent step with a step that sends [out]. *)
Lemma emits_after_silent w1 w2 w3 out :
  emits w1 w2 [] -> emits w2 w3 out -> emits w1 w3 out.
Proof. intros H1 H2. exact (emits_trans _ _ _ _ _ H1 H2). Qed.

Lemma emits_then_silent w1 w2 w3 out :
  emits w1 w2 out -> emits w2 w3 [] -> emits w1 w3 out.
Proof.
  intros H1 H2. rewrite <- (app_nil_r out).
  exact (emits_trans _ _ _ _ _ H1 H2).
Qed.

Lemma emits_peer w w' out : emits w w' out -> Peer w' = Peer w.
Proof. now intros (_ & _ & H & _). Qed.

Lemma emits_journal w w' out : emits w w' out -> journal w' = journal w.
Proof. now intros (_ & _ & _ & H & _). Qed.

Lemma one_fetch_after w w' o out :
  emits w w' o -> one_fetch w' out -> one_fetch w out.
Proof.
  intros He. apply one_fetch_transport;
    [exact (emits_peer _ _ _ He)|exact (emits_journal _ _ _ He)].
Qed.

Lemma handleuncommitted_emits w :
  exists out, emits w (_handleuncommitted w) out /\ one_fetch w out.
Proof.
  unfold _handleuncommitted.
  set (w0 := logger _ w).
  assert (H0 : emits w w0 []) by apply emits_logger.
  destruct (negb (ProcessingUncommitted w0) && _).
  - set (w1 := enqueue_transactions _ _).
    assert (H1 : emits w w1 []).
    { apply (emits_after_silent _ _ _ _ H0).
      apply (emits_after_silent _ (set_ProcessingUncommitted true w0));
        [unfold emits; cbn; now rewrite app_nil_r|].
      apply enqueue_transactions_emits. }
    destruct (kick_off_next_transaction_emits w1)
      as (out & He & Hf & Hfalse & _).
    destruct (_kick_off_next_transaction w1) as [[|] w2]; cbn in *.
    + exists out. split; [exact (emits_after_silent _ _ _ _ H1 He)|].
      exact (one_fetch_after _ _ _ _ H1 Hf).
    + exists []. rewrite (Hfalse eq_refl) in He. split; [|now left].
      apply (emits_after_silent _ _ _ _ H1).
      apply (emits_after_silent _ _ _ _ He), finish_emits.
  - exists []. split; [|now left].
    apply (emits_after_silent _ _ _ _ H0), finish_emits.
Qed.

(** ** Pagination *)

Lemma blocklistreplyhandler_nonempty i ids w :
  ids <> [] ->
  _blocklistreplyhandler i ids w
  = send_message (BlockListRequestMessage (i + Z.of_nat (length ids)))
      (enqueue_blocks ids (logger (LogDebug "received block identifiers") w)).
Proof. intros H. unfold _blocklistreplyhandler. now destruct ids. Qed.

Lemma txnlistreplyhandler_nonempty i ids w :
  ids <> [] ->
  _txnlistreplyhandler i ids w
  = send_message (UncommittedListRequestMessage (i + Z.of_nat (length ids)))
      (set_UncommittedTransactions (UncommittedTransactions w ++ ids)
         (logger (LogDebug "received uncommitted transactions") w)).
Proof. intros H. unfold _txnlistreplyhandler. now destruct ids. Qed.

(** On an empty page the block-list handler sends one message: a request
    for a missing body, or the first request of the uncommitted list. *)
Lemma blocklistreplyhandler_empty_emits i w :
  exists out,
    emits w (_blocklistreplyhandler i [] w) out
    /\ ((one_fetch w out /\ out <> [])
        \/ out = [(UncommittedListRequestMessage 0,
                   PeerIdentifier (Peer w))]).
Proof.
  unfold _blocklistreplyhandler. cbn [enqueue_blocks length Nat.ltb Nat.leb].
  set (w0 := logger _ w).
  assert (H0 : emits w w0 []) by apply emits_logger.
  destruct (kick_off_next_block_emits w0) as (out & He & Hf & Hfalse & Htrue).
  destruct (_kick_off_next_block w0) as [[|] w1]; cbn in *.
  - exists out. split; [exact (emits_after_silent _ _ _ _ H0 He)|].
    left. split; [exact (one_fetch_after _ _ _ _ H0 Hf)|auto].
  - rewrite (Hfalse eq_refl) in He.
    pose proof (emits_after_silent _ _ _ _ H0 He) as H1.
    eexists. split; [|right; reflexivity].
    rewrite <- (emits_peer _ _ _ H1).
    exact (emits_after_silent _ _ _ _ H1 (emits_send _ w1)).
Qed.

(** On an empty page the uncommitted-list handler sends nothing or one
    request for a missing body. *)
Lemma txnlistreplyhandler_empty_emits i w :
  exists out,
    emits w (_txnlistreplyhandler i [] w) out /\ one_fetch w out.
Proof.
  unfold _txnlistreplyhandler. cbn [length Nat.ltb Nat.leb].
  rewrite app_nil_r.
  set (w0 := set_UncommittedTransactions _ _).
  assert (H0 : emits w w0 []).
  { unfold emits, w0. cbn. now rewrite app_nil_r. }
  destruct (kick_off_next_block_emits w0) as (out & He & Hf & Hfalse & Htrue).
  destruct (_kick_off_next_block w0) as [[|] w1]; cbn in *.
  - exists out. split; [exact (emits_after_silent _ _ _ _ H0 He)|].
    exact (one_fetch_after _ _ _ _ H0 Hf).
  - rewrite (Hfalse eq_refl) in He.
    pose proof (emits_after_silent _ _ _ _ H0 He) as H1.
    destruct (handleuncommitted_emits w1) as (out' & He' & Hf').
    exists out'. split; [exact (emits_after_silent _ _ _ _ H1 He')|].
    exact (one_fetch_after _ _ _ _ H1 Hf').
Qed.

Lemma one_fetch_no_list_request w out m p :
  one_fetch w out -> In (m, p) out ->
  (forall j, m <> BlockListRequestMessage j)
  /\ (forall j, m <> UncommittedListRequestMessage j).
Proof.
  intros [->|(m' & -> & Hm)]; [easy|].
  intros [[= <- _]|[]]. split; intros j ->; exact Hm.
Qed.

Lemma feed_block_pages_nonempty pages w :
  Forall (fun p => snd p <> []) pages ->
  PendingBlocks (feed_block_pages pages w)
  = PendingBlocks w ++ collected pages
  /\ BlockMap (feed_block_pages pages w)
     = mark_pending (collected pages) (BlockMap w)
  /\ sent (feed_block_pages pages w)
     = sent w ++ next_page_requests BlockListRequestMessage (Peer w) pages
  /\ Peer (feed_block_pages pages w) = Peer w.
Proof.
  revert w. induction pages as [|[i ids] pages IH]; intros w Hne.
  - cbn. now rewrite !app_nil_r.
  - inversion Hne as [|? ? Hids Hne']; subst. cbn in Hids.
    change (feed_block_pages ((i, ids) :: pages) w)
      with (feed_block_pages pages (_blocklistreplyhandler i ids w)).
    destruct (IH (_blocklistreplyhandler i ids w) Hne')
      as (-> & -> & -> & ->).
    rewrite blocklistreplyhandler_nonempty by assumption.
    rewrite enqueue_blocks_eq. cbn.
    unfold collected, mark_pending. cbn.
    now rewrite fold_left_app, <- !app_assoc.
Qed.

Lemma feed_uncommitted_pages_nonempty pages w :
  Forall (fun p => snd p <> []) pages ->
  UncommittedTransactions (feed_uncommitted_pages pages w)
  = UncommittedTransactions w ++ collected pages
  /\ sent (feed_uncommitted_pages pages w)
     = sent w
       ++ next_page_requests UncommittedListRequestMessage (Peer w) pages
  /\ Peer (feed_uncommitted_pages pages w) = Peer w
  /\ journal (feed_uncommitted_pages pages w) = journal w.
Proof.
  revert w. induction pages as [|[i ids] pages IH]; intros w Hne.
  - cbn. now rewrite !app_nil_r.
  - inversion Hne as [|? ? Hids Hne']; subst. cbn in Hids.
    change (feed_uncommitted_pages ((i, ids) :: pages) w)
      with (feed_uncommitted_pages pages (_txnlistreplyhandler i ids w)).
    destruct (IH (_txnlistreplyhandler i ids w) Hne')
      as (-> & -> & -> & ->).
    rewrite txnlistreplyhandler_nonempty by assumption. cbn.
    unfold collected. cbn. now rewrite <- !app_assoc.
Qed.

Lemma length_collected pages :
  length (collected pages)
  = list_sum (map (fun p => length (snd p)) pages).
Proof.
  unfold collected. induction pages as [|p pages IH]; [reflexivity|].
  cbn. now rewrite length_app, IH.
Qed.

(** C6: for both paginated lists, a reply with a non-empty page appends its
    identifiers in order and sends exactly one request, for the page at the
    reply's offset plus the number of identifiers received; a reply with an
    empty page sends no request for a further page.  Over a run of non-empty
    pages closed by an empty one, the identifiers collected are those of the
    pages, in order, and their number is the sum of the page lengths. *)
Theorem pagination_ends_on_empty_page (w : World) :
  (forall i ids, ids <> [] ->
     PendingBlocks (_blocklistreplyhandler i ids w) = PendingBlocks w ++ ids
     /\ BlockMap (_blocklistreplyhandler i ids w)
        = mark_pending ids (BlockMap w)
     /\ sent (_blocklistreplyhandler i ids w)
        = sent w ++ [(BlockListRequestMessage (i + Z.of_nat (length ids)),
                      PeerIdentifier (Peer w))])
  /\ (forall i ids, ids <> [] ->
     UncommittedTransactions (_txnlistreplyhandler i ids w)
     = UncommittedTransactions w ++ ids
     /\ sent (_txnlistreplyhandler i ids w)
        = sent w
          ++ [(UncommittedListRequestMessage (i + Z.of_nat (length ids)),
               PeerIdentifier (Peer w))])
  /\ (forall i m p,
     In (m, p) (sent_since w (_blocklistreplyhandler i [] w)) ->
     forall j, m <> BlockListRequestMessage j)
  /\ (forall i,
     UncommittedTransactions (_txnlistreplyhandler i [] w)
     = UncommittedTransactions w
     /\ forall m p,
         In (m, p) (sent_since w (_txnlistreplyhandler i [] w)) ->
         forall j, m <> UncommittedListRequestMessage j)
  /\ (forall pages i, nonempty_pages pages ->
     PendingBlocks (feed_block_pages pages w)
     = PendingBlocks w ++ collected pages
     /\ length (PendingBlocks (feed_block_pages pages w))
        = length (PendingBlocks w)
          + list_sum (map (fun p => length (snd p)) pages)
     /\ exists out,
         sent (feed_block_pages (pages ++ [(i, [])]) w)
         = sent w
           ++ next_page_requests BlockListRequestMessage (Peer w) pages
           ++ out
         /\ forall m p, In (m, p) out ->
                        forall j, m <> BlockListRequestMessage j)
  /\ (forall pages i, nonempty_pages pages ->
     UncommittedTransactions (feed_uncommitted_pages (pages ++ [(i, [])]) w)
     = UncommittedTransactions w ++ collected pages
     /\ length (UncommittedTransactions
                  (feed_uncommitted_pages (pages ++ [(i, [])]) w))
        = length (UncommittedTransactions w)
          + list_sum (map (fun p => length (snd p)) pages)
     /\ exists out,
         sent (feed_uncommitted_pages (pages ++ [(i, [])]) w)
         = sent w
           ++ next_page_requests UncommittedListRequestMessage (Peer w) pages
           ++ out
         /\ forall m p, In (m, p) out ->
                        forall j, m <> UncommittedListRequestMessage j).
Proof.
  split; [|split; [|split; [|split; [|split]]]].
  - intros i ids Hne. rewrite blocklistreplyhandler_nonempty by assumption.
    now rewrite enqueue_blocks_eq.
  - intros i ids Hne. now rewrite txnlistreplyhandler_nonempty by assumption.
  - intros i m p.
    destruct (blocklistreplyhandler_empty_emits i w) as (out & He & Hout).
    rewrite (sent_since_app _ _ out) by apply He.
    intros Hin. destruct Hout as [[Hf _]| ->].
    + apply (one_fetch_no_list_request _ _ _ _ Hf Hin).
    + destruct Hin as [[= <- _]|[]]. discriminate.
  - intros i.
    destruct (txnlistreplyhandler_empty_emits i w) as (out & He & Hf).
    split; [apply He|]. intros m p.
    rewrite (sent_since_app _ _ out) by apply He.
    intros Hin. apply (one_fetch_no_list_request _ _ _ _ Hf Hin).
  - intros pages i Hne.
    destruct (feed_block_pages_nonempty pages w Hne) as (Hp & _ & Hs & Hpeer).
    split; [assumption|]. split.
    { now rewrite Hp, length_app, length_collected. }
    unfold feed_block_pages. rewrite fold_left_app. cbn [fold_left fst snd].
    fold (feed_block_pages pages w).
    destruct (blocklistreplyhandler_empty_emits i (feed_block_pages pages w))
      as (out & He & Hout).
    exists out. split.
    + destruct He as (-> & _). now rewrite Hs, <- app_assoc.
    + intros m p Hin. destruct Hout as [[Hf _]| ->].
      * apply (one_fetch_no_list_request _ _ _ _ Hf Hin).
      * destruct Hin as [[= <- _]|[]]. discriminate.
  - intros pages i Hne.
    destruct (feed_uncommitted_pages_nonempty pages w Hne)
      as (Hu & Hs & Hpeer & _).
    unfold feed_uncommitted_pages. rewrite fold_left_app.
    cbn [fold_left fst snd]. fold (feed_uncommitted_pages pages w).
    destruct (txnlistreplyhandler_empty_emits i
                (feed_uncommitted_pages pages w)) as (out & He & Hf).
    assert (Hu' : UncommittedTransactions
                    (_txnlistreplyhandler i []
                       (feed_uncommitted_pages pages w))
                  = UncommittedTransactions w ++ collected pages).
    { destruct He as (_ & _ & _ & _ & _ & ->). assumption. }
    split; [assumption|]. split.
    { now rewrite Hu', length_app, length_collected. }
    exists out. split.
    + destruct He as (-> & _). now rewrite Hs, <- app_assoc.
    + intros m p Hin. apply (one_fetch_no_list_request _ _ _ _ Hf Hin).
Qed.

Lemma pagination_ends_on_empty_page_witness :
  (PendingBlocks (_blocklistreplyhandler 0 ["b1"; "b2"] started)
   = PendingBlocks started ++ ["b1"; "b2"]
   /\ BlockMap (_blocklistreplyhandler 0 ["b1"; "b2"] started)
      = mark_pending ["b1"; "b2"] (BlockMap started)
   /\ sent (_blocklistreplyhandler 0 ["b1"; "b2"] started)
      = sent started ++ [(BlockListRequestMessage (0 + Z.of_nat 2),
                          PeerIdentifier (Peer started))])
  /\
  (UncommittedTransactions
     (feed_uncommitted_pages
        ([(0%Z, ["t1"; "t2"]); (2%Z, ["t3"])] ++ [(3%Z, [])]) started)
   = UncommittedTransactions started ++ ["t1"; "t2"; "t3"]
   /\ length (UncommittedTransactions
                (feed_uncommitted_pages
                   ([(0%Z, ["t1"; "t2"]); (2%Z, ["t3"])] ++ [(3%Z, [])])
                   started))
      = length (UncommittedTransactions started) + (2 + (1 + 0))
   /\ exists out,
       sent (feed_uncommitted_pages
               ([(0%Z, ["t1"; "t2"]); (2%Z, ["t3"])] ++ [(3%Z, [])])
               started)
       = sent started
         ++ [(UncommittedListRequestMessage 2, "p1");
             (UncommittedListRequestMessage 3, "p1")]
         ++ out
       /\ forall m p, In (m, p) out ->
                      forall j, m <> UncommittedListRequestMessage j).
Proof.
  split.
  - apply (proj1 (pagination_ends_on_empty_page started) 0%Z ["b1"; "b2"]).
    discriminate.
  - apply (proj2 (proj2 (proj2 (proj2 (proj2
             (pagination_ends_on_empty_page started)))))
             [(0%Z, ["t1"; "t2"]); (2%Z, ["t3"])] 3%Z).
    repeat constructor; discriminate.
Defined.

(** ** The transition to the uncommitted transactions *)

Lemma kick_off_next_transaction_untouched w :
  let w' := snd (_kick_off_next_transaction w) in
  ProcessingUncommitted w' = ProcessingUncommitted w
  /\ callbacks w' = callbacks w
  /\ journal_calls w' = journal_calls w
  /\ dispatcher w' = dispatcher w
  /\ PendingBlocks w' = PendingBlocks w
  /\ BlockMap w' = BlockMap w.
Proof.
  destruct (kick_off_next_transaction_effect w) as (tm & pt & out & H & _).
  cbn zeta. now rewrite H.
Qed.

Lemma finish_untouched w :
  ProcessingUncommitted (_finish w) = ProcessingUncommitted w
  /\ PendingBlocks (_finish w) = PendingBlocks w
  /\ PendingTransactions (_finish w) = PendingTransactions w.
Proof. now destruct (finish_frame w) as (d & jc & lg & -> & _). Qed.

(** C9: when the uncommitted list is complete and both drains are
    exhausted, [_handleuncommitted] runs.  With a non-empty list and the
    flag unset, it sets the flag, enqueues every uncommitted identifier in
    the transaction map and queue and resumes the transaction drain (the
    commit phase follows only if that drain sends nothing); with an empty
    list or the flag set, it goes to the commit phase at once. *)
Theorem uncommitted_list_is_merged_once (w : World) :
  (ProcessingUncommitted w = false -> UncommittedTransactions w <> [] ->
     let w1 := uncommitted_enqueued w in
     ProcessingUncommitted (_handleuncommitted w) = true
     /\ TransactionMap w1
        = mark_pending (UncommittedTransactions w) (TransactionMap w)
     /\ PendingTransactions w1
        = PendingTransactions w ++ UncommittedTransactions w
     /\ _handleuncommitted w
        = (if fst (_kick_off_next_transaction w1)
           then snd (_kick_off_next_transaction w1)
           else _finish (snd (_kick_off_next_transaction w1)))
     /\ (fst (_kick_off_next_transaction w1) = true ->
         callbacks (_handleuncommitted w) = callbacks w
         /\ journal_calls (_handleuncommitted w) = journal_calls w))
  /\ (ProcessingUncommitted w = true \/ UncommittedTransactions w = [] ->
      _handleuncommitted w
      = _finish (logger (LogDebug "transition to uncommitted messages") w)
      /\ sent (_handleuncommitted w) = sent w
      /\ callbacks (_handleuncommitted w) = S (callbacks w))
  /\ (forall i,
      let w0 := uncommitted_list_complete w in
      fst (_kick_off_next_block w0) = false ->
      _txnlistreplyhandler i [] w
      = _handleuncommitted (snd (_kick_off_next_block w0))
      /\ PendingBlocks (snd (_kick_off_next_block w0)) = []
      /\ PendingTransactions (snd (_kick_off_next_block w0)) = []).
Proof.
  split; [|split].
  - intros Hflag Hne. cbn zeta.
    assert (Hh : _handleuncommitted w
                 = (if fst (_kick_off_next_transaction
                              (uncommitted_enqueued w))
                    then snd (_kick_off_next_transaction
                                (uncommitted_enqueued w))
                    else _finish (snd (_kick_off_next_transaction
                                         (uncommitted_enqueued w))))).
    { unfold _handleuncommitted. cbn [ProcessingUncommitted logger set_log
        set_ProcessingUncommitted UncommittedTransactions]. rewrite Hflag.
      destruct (UncommittedTransactions w) eqn:Hu; [easy|].
      cbn [negb andb length Nat.ltb Nat.leb].
      unfold uncommitted_enqueued. rewrite Hu.
      now destruct (_kick_off_next_transaction _) as [[|] w2]. }
    pose proof (kick_off_next_transaction_untouched (uncommitted_enqueued w))
      as (Hpu & Hcb & Hjc & _).
    assert (Hpu1 : ProcessingUncommitted (uncommitted_enqueued w) = true).
    { unfold uncommitted_enqueued. now rewrite enqueue_transactions_eq. }
    repeat split.
    + rewrite Hh.
      destruct (fst (_kick_off_next_transaction (uncommitted_enqueued w))).
      * now rewrite Hpu.
      * destruct (finish_untouched
                    (snd (_kick_off_next_transaction
                            (uncommitted_enqueued w)))) as (-> & _).
        now rewrite Hpu.
    + unfold uncommitted_enqueued. now rewrite enqueue_transactions_eq.
    + unfold uncommitted_enqueued. now rewrite enqueue_transactions_eq.
    + assumption.
    + rewrite Hh, H, Hcb. unfold uncommitted_enqueued.
      now rewrite enqueue_transactions_eq.
    + rewrite Hh, H, Hjc. unfold uncommitted_enqueued.
      now rewrite enqueue_transactions_eq.
  - intros Hcase.
    assert (Hh : _handleuncommitted w
                 = _finish
                     (logger (LogDebug "transition to uncommitted messages")
                        w)).
    { unfold _handleuncommitted. cbn [ProcessingUncommitted logger set_log
        UncommittedTransactions].
      destruct Hcase as [-> | ->]; [reflexivity|].
      cbn [length Nat.ltb Nat.leb]. now rewrite andb_false_r. }
    rewrite Hh. split; [reflexivity|]. split.
    + destruct (finish_emits (logger
                  (LogDebug "transition to uncommitted messages") w))
        as (-> & _). cbn. now rewrite app_nil_r.
    + now rewrite finish_callbacks.
  - intros i w0 Hfalse.
    destruct (kick_off_next_block_effect w0)
      as (bm & pb & tm & pt & out & Hsnd & Hcase).
    split.
    + change (_txnlistreplyhandler i [] w)
        with (let (sent_one, w') := _kick_off_next_block w0 in
              if sent_one then w' else _handleuncommitted w').
      destruct (_kick_off_next_block w0) as [[|] w1]; [discriminate|].
      reflexivity.
    + rewrite Hsnd. cbn.
      destruct Hcase as [[Ht _]|(_ & _ & -> & ->)]; [congruence|auto].
Qed.

Lemma uncommitted_list_is_merged_once_witness :
  (let w1 := uncommitted_enqueued uncommitted_u1 in
   ProcessingUncommitted (_handleuncommitted uncommitted_u1) = true
   /\ TransactionMap w1
      = mark_pending (UncommittedTransactions uncommitted_u1)
          (TransactionMap uncommitted_u1)
   /\ PendingTransactions w1
      = PendingTransactions uncommitted_u1
        ++ UncommittedTransactions uncommitted_u1
   /\ _handleuncommitted uncommitted_u1
      = (if fst (_kick_off_next_transaction w1)
         then snd (_kick_off_next_transaction w1)
         else _finish (snd (_kick_off_next_transaction w1)))
   /\ (fst (_kick_off_next_transaction w1) = true ->
       callbacks (_handleuncommitted uncommitted_u1)
       = callbacks uncommitted_u1
       /\ journal_calls (_handleuncommitted uncommitted_u1)
          = journal_calls uncommitted_u1))
  /\ (_handleuncommitted started
      = _finish
          (logger (LogDebug "transition to uncommitted messages") started)
      /\ sent (_handleuncommitted started) = sent started
      /\ callbacks (_handleuncommitted started) = S (callbacks started)).
Proof.
  split.
  - apply (proj1 (uncommitted_list_is_merged_once uncommitted_u1));
      [reflexivity|discriminate].
  - apply (proj1 (proj2 (uncommitted_list_is_merged_once started))).
    right. reflexivity.
Defined.

(** ** Which queue is drained first *)

Lemma blockreplyhandler_tail blk w :
  _blockreplyhandler blk w = drain_after_body (block_body_stored blk w).
Proof. reflexivity. Qed.

Lemma txnreplyhandler_tail txn w :
  _txnreplyhandler txn w = drain_after_body (transaction_body_stored txn w).
Proof. reflexivity. Qed.

Lemma drain_after_body_missing w1 locals id rest :
  PendingTransactions w1 = locals ++ id :: rest ->
  Forall (known (TransactionStore (journal w1))) locals ->
  TransactionStore (journal w1) !! id = None ->
  sent (drain_after_body w1)
  = sent w1 ++ [(TransactionRequestMessage id, PeerIdentifier (Peer w1))]
  /\ PendingBlocks (drain_after_body w1) = PendingBlocks w1
  /\ BlockMap (drain_after_body w1) = BlockMap w1.
Proof.
  intros Hp Hl Hm. unfold drain_after_body, _kick_off_next_transaction.
  rewrite Hp, transaction_loop_first_missing by assumption.
  repeat split.
Qed.

Lemma drain_after_body_known w1 :
  Forall (known (TransactionStore (journal w1))) (PendingTransactions w1) ->
  drain_after_body w1
  = (if fst (_kick_off_next_block (transactions_drained w1))
     then snd (_kick_off_next_block (transactions_drained w1))
     else _handleuncommitted
            (snd (_kick_off_next_block (transactions_drained w1)))).
Proof.
  intros Hl. unfold drain_after_body, _kick_off_next_transaction.
  rewrite (transaction_loop_all_known _ w1 eq_refl Hl).
  fold (transactions_drained w1).
  now destruct (_kick_off_next_block (transactions_drained w1)) as [[|] w2].
Qed.

Lemma list_handlers_block_missing i w locals id rest :
  PendingBlocks w = locals ++ id :: rest ->
  Forall (known (BlockStore (journal w))) locals ->
  BlockStore (journal w) !! id = None ->
  sent (_blocklistreplyhandler i [] w)
  = sent w ++ [(BlockRequestMessage id, PeerIdentifier (Peer w))]
  /\ sent (_txnlistreplyhandler i [] w)
     = sent w ++ [(BlockRequestMessage id, PeerIdentifier (Peer w))].
Proof.
  intros Hp Hl Hm. split.
  - change (_blocklistreplyhandler i [] w)
      with (let (sent_one, w') :=
              _kick_off_next_block (block_list_complete w) in
            if sent_one then w'
            else send_message (UncommittedListRequestMessage 0) w').
    unfold _kick_off_next_block.
    change (PendingBlocks (block_list_complete w)) with (PendingBlocks w).
    rewrite Hp, block_loop_first_missing by assumption.
    destruct (copy_local_blocks_frame locals (block_list_complete w))
      as (bm & tm & pt & ->). reflexivity.
  - change (_txnlistreplyhandler i [] w)
      with (let (sent_one, w') :=
              _kick_off_next_block (uncommitted_list_complete w) in
            if sent_one then w' else _handleuncommitted w').
    unfold _kick_off_next_block.
    change (PendingBlocks (uncommitted_list_complete w))
      with (PendingBlocks w).
    rewrite Hp, block_loop_first_missing by assumption.
    destruct (copy_local_blocks_frame locals (uncommitted_list_complete w))
      as (bm & tm & pt & ->). reflexivity.
Qed.

Lemma list_handlers_blocks_known i w :
  Forall (known (BlockStore (journal w))) (PendingBlocks w) ->
  _blocklistreplyhandler i [] w
  = (let w2 := blocks_drained (block_list_complete w) in
     if fst (_kick_off_next_transaction w2)
     then snd (_kick_off_next_transaction w2)
     else send_message (UncommittedListRequestMessage 0)
            (snd (_kick_off_next_transaction w2)))
  /\ _txnlistreplyhandler i [] w
     = (let w2 := blocks_drained (uncommitted_list_complete w) in
        if fst (_kick_off_next_transaction w2)
        then snd (_kick_off_next_transaction w2)
        else _handleuncommitted (snd (_kick_off_next_transaction w2))).
Proof.
  intros Hl. split.
  - change (_blocklistreplyhandler i [] w)
      with (let (sent_one, w') :=
              _kick_off_next_block (block_list_complete w) in
            if sent_one then w'
            else send_message (UncommittedListRequestMessage 0) w').
    unfold _kick_off_next_block.
    rewrite (block_loop_all_known _ (block_list_complete w) eq_refl Hl).
    fold (blocks_drained (block_list_complete w)). cbn zeta.
    now destruct (_kick_off_next_transaction _) as [[|] w2].
  - change (_txnlistreplyhandler i [] w)
      with (let (sent_one, w') :=
              _kick_off_next_block (uncommitted_list_complete w) in
            if sent_one then w' else _handleuncommitted w').
    unfold _kick_off_next_block.
    rewrite (block_loop_all_known _ (uncommitted_list_complete w) eq_refl Hl).
    fold (blocks_drained (uncommitted_list_complete w)). cbn zeta.
    now destruct (_kick_off_next_transaction _) as [[|] w2].
Qed.

Lemma block_body_stored_frame blk w :
  journal (block_body_stored blk w) = journal w
  /\ Peer (block_body_stored blk w) = Peer w
  /\ sent (block_body_stored blk w) = sent w
  /\ PendingBlocks (block_body_stored blk w) = PendingBlocks w.
Proof. unfold block_body_stored. now rewrite enqueue_transactions_eq. Qed.

(** C7: a body handler drains the transaction queue first: if that queue
    holds an identifier missing from the store, the handler requests the
    first such transaction and leaves the block queue as it is, whatever it
    holds; the block drain runs only once the transaction queue has been
    emptied without a request.  The two list handlers, on an empty page,
    drain the block queue first: if it holds an identifier missing from the
    store they request the first such block, whatever the transaction queue
    holds, and the transaction drain runs only as the end of the block
    drain. *)
Theorem drain_priority (w : World) :
  (forall blk locals id rest,
      PendingTransactions (block_body_stored blk w) = locals ++ id :: rest ->
      Forall (known (TransactionStore (journal w))) locals ->
      TransactionStore (journal w) !! id = None ->
      sent (_blockreplyhandler blk w)
      = sent w ++ [(TransactionRequestMessage id, PeerIdentifier (Peer w))]
      /\ PendingBlocks (_blockreplyhandler blk w) = PendingBlocks w)
  /\ (forall txn locals id rest,
      PendingTransactions w = locals ++ id :: rest ->
      Forall (known (TransactionStore (journal w))) locals ->
      TransactionStore (journal w) !! id = None ->
      sent (_txnreplyhandler txn w)
      = sent w ++ [(TransactionRequestMessage id, PeerIdentifier (Peer w))]
      /\ PendingBlocks (_txnreplyhandler txn w) = PendingBlocks w
      /\ BlockMap (_txnreplyhandler txn w) = BlockMap w)
  /\ (forall blk,
      let w1 := block_body_stored blk w in
      Forall (known (TransactionStore (journal w)))
        (PendingTransactions w1) ->
      PendingTransactions (transactions_drained w1) = []
      /\ sent (transactions_drained w1) = sent w
      /\ _blockreplyhandler blk w
         = (if fst (_kick_off_next_block (transactions_drained w1))
            then snd (_kick_off_next_block (transactions_drained w1))
            else _handleuncommitted
                   (snd (_kick_off_next_block (transactions_drained w1)))))
  /\ (forall txn,
      let w1 := transaction_body_stored txn w in
      Forall (known (TransactionStore (journal w)))
        (PendingTransactions w) ->
      PendingTransactions (transactions_drained w1) = []
      /\ sent (transactions_drained w1) = sent w
      /\ _txnreplyhandler txn w
         = (if fst (_kick_off_next_block (transactions_drained w1))
            then snd (_kick_off_next_block (transactions_drained w1))
            else _handleuncommitted
                   (snd (_kick_off_next_block (transactions_drained w1)))))
  /\ (forall i locals id rest,
      PendingBlocks w = locals ++ id :: rest ->
      Forall (known (BlockStore (journal w))) locals ->
      BlockStore (journal w) !! id = None ->
      sent (_blocklistreplyhandler i [] w)
      = sent w ++ [(BlockRequestMessage id, PeerIdentifier (Peer w))]
      /\ sent (_txnlistreplyhandler i [] w)
         = sent w ++ [(BlockRequestMessage id, PeerIdentifier (Peer w))])
  /\ (forall i,
      Forall (known (BlockStore (journal w))) (PendingBlocks w) ->
      _blocklistreplyhandler i [] w
      = (let w2 := blocks_drained (block_list_complete w) in
         if fst (_kick_off_next_transaction w2)
         then snd (_kick_off_next_transaction w2)
         else send_message (UncommittedListRequestMessage 0)
                (snd (_kick_off_next_transaction w2)))
      /\ _txnlistreplyhandler i [] w
         = (let w2 := blocks_drained (uncommitted_list_complete w) in
            if fst (_kick_off_next_transaction w2)
            then snd (_kick_off_next_transaction w2)
            else _handleuncommitted (snd (_kick_off_next_transaction w2)))).
Proof.
  split; [|split; [|split; [|split; [|split]]]].
  - intros blk locals id rest Hp Hl Hm.
    destruct (block_body_stored_frame blk w) as (Hj & Hpeer & Hs & Hpb).
    rewrite blockreplyhandler_tail.
    destruct (drain_after_body_missing (block_body_stored blk w)
                locals id rest Hp) as (-> & -> & _);
      rewrite ?Hj; auto.
    now rewrite Hs, Hpeer, Hpb.
  - intros txn locals id rest Hp Hl Hm. rewrite txnreplyhandler_tail.
    destruct (drain_after_body_missing (transaction_body_stored txn w)
                locals id rest Hp Hl Hm) as (-> & -> & ->).
    repeat split.
  - intros blk w1 Hl. subst w1.
    destruct (block_body_stored_frame blk w) as (Hj & Hpeer & Hs & Hpb).
    split; [reflexivity|]. split; [exact Hs|].
    rewrite blockreplyhandler_tail. apply drain_after_body_known.
    now rewrite Hj.
  - intros txn w1 Hl. split; [reflexivity|]. split; [reflexivity|].
    rewrite txnreplyhandler_tail. now apply drain_after_body_known.
  - intros i locals id rest. apply list_handlers_block_missing.
  - intros i. apply list_handlers_blocks_known.
Qed.

Lemma drain_priority_witness :
  (sent (_txnreplyhandler (txn_of "t1") both_queues_missing)
   = sent both_queues_missing
     ++ [(TransactionRequestMessage "t9",
          PeerIdentifier (Peer both_queues_missing))]
   /\ PendingBlocks (_txnreplyhandler (txn_of "t1") both_queues_missing)
      = PendingBlocks both_queues_missing
   /\ BlockMap (_txnreplyhandler (txn_of "t1") both_queues_missing)
      = BlockMap both_queues_missing)
  /\ (sent (_blocklistreplyhandler 0 [] both_queues_missing)
      = sent both_queues_missing
        ++ [(BlockRequestMessage "b9",
             PeerIdentifier (Peer both_queues_missing))]
      /\ sent (_txnlistreplyhandler 0 [] both_queues_missing)
         = sent both_queues_missing
           ++ [(BlockRequestMessage "b9",
                PeerIdentifier (Peer both_queues_missing))]).
Proof.
  split.
  - apply (proj1 (proj2 (drain_priority both_queues_missing))
             (txn_of "t1") [] "t9" []);
      [reflexivity|constructor|reflexivity].
  - apply (proj1 (proj2 (proj2 (proj2 (proj2
             (drain_priority both_queues_missing))))) 0%Z [] "b9" []);
      [reflexivity|constructor|reflexivity].
Defined.

(** ** Failure and restart *)

Lemma kind_eqb_eq a b : kind_eqb a b = true <-> a = b.
Proof. destruct a, b; cbn; split; congruence. Qed.

Lemma kind_eqb_refl a : kind_eqb a a = true.
Proof. now destruct a. Qed.

Lemma handler_of_app d1 d2 k :
  handler_of (d1 ++ d2) k
  = match handler_of d1 k with
    | Some h => Some h
    | None => handler_of d2 k
    end.
Proof.
  induction d1 as [|[k' h] d1 IH]; cbn; [reflexivity|].
  now destruct (kind_eqb k' k).
Qed.

Lemma handler_of_unregister_other d k k' :
  kind_eqb k' k = false ->
  handler_of (unregister k' d) k = handler_of d k.
Proof.
  intros Hne. induction d as [|[k0 h] d IH]; cbn; [reflexivity|].
  destruct (kind_eqb k0 k') eqn:E0; cbn.
  - apply kind_eqb_eq in E0. subst k0. now rewrite Hne.
  - now destruct (kind_eqb k0 k).
Qed.

Lemma register_message_handler_lookup k' h' w k :
  handler_of (dispatcher (register_message_handler k' h' w)) k
  = if kind_eqb k' k then Some h' else handler_of (dispatcher w) k.
Proof.
  unfold register_message_handler. cbn [dispatcher set_dispatcher].
  rewrite handler_of_app. destruct (kind_eqb k' k) eqn:E.
  - apply kind_eqb_eq in E. subst k'. rewrite unregister_handler_of.
    cbn. now rewrite kind_eqb_refl.
  - rewrite handler_of_unregister_other by assumption.
    destruct (handler_of (dispatcher w) k); [reflexivity|].
    cbn. now rewrite E.
Qed.

Lemma random_choice_In rnd p0 peers :
  peers <> [] -> In (random_choice rnd p0 peers) peers.
Proof.
  intros Hne. unfold random_choice. apply nth_In.
  apply Nat.mod_upper_bound. now destruct peers.
Qed.

Lemma dispatcher_send_message m w :
  dispatcher (send_message m w) = dispatcher w.
Proof. reflexivity. Qed.

(** The state in which a session starts once a peer has been chosen. *)
Lemma initiate_with_peers rnd w :
  peer_list w <> [] ->
  let w2 := initiate_journal_transfer rnd w in
  In (Peer w2) (peer_list w)
  /\ BlockMap w2 = [] /\ PendingBlocks w2 = []
  /\ TransactionMap w2 = [] /\ PendingTransactions w2 = []
  /\ ProcessingUncommitted w2 = false /\ UncommittedTransactions w2 = []
  /\ (forall k, handler_of (dispatcher w2) k = Some (session_handler k))
  /\ sent w2 = sent w ++ [(BlockListRequestMessage 0,
                           PeerIdentifier (Peer w2))]
  /\ timers w2 = timers w.
Proof.
  intros Hne. unfold initiate_journal_transfer.
  destruct (peer_list w) as [|p0 peers] eqn:Hp; [easy|]. cbn zeta.
  pose proof (random_choice_In rnd p0 (p0 :: peers) ltac:(discriminate))
    as Hin.
  set (chosen := random_choice rnd p0 (p0 :: peers)) in *.
  clearbody chosen.
  split; [exact Hin|].
  do 6 (split; [reflexivity|]).
  split; [|split; reflexivity].
  intros k. rewrite dispatcher_send_message.
  rewrite !register_message_handler_lookup. now destruct k.
Qed.

Lemma initiate_without_peers rnd w :
  peer_list w = [] ->
  initiate_journal_transfer rnd w = callLater 10 CallInitiateJournalTransfer w.
Proof. intros H. unfold initiate_journal_transfer. now rewrite H. Qed.

(** C8: a transfer-failure message clears the five handlers and schedules
    one call of [initiate_journal_transfer] after a delay of 10, and does
    nothing else; that call selects a peer again and, whatever the session
    held, makes both maps, both queues and the uncommitted list empty and
    the flag false before it registers the handlers and requests the block
    list from offset 0. *)
Theorem failure_restarts_from_scratch (w : World) (rnd : nat)
    (Hpeers : peer_list w <> []) :
  let w1 := _failedhandler w in
  let w2 := handle_event (Fire rnd) w1 in
  (forall k, handler_of (dispatcher w1) k = None)
  /\ timers w1 = timers w ++ [(10%Z, CallInitiateJournalTransfer)]
  /\ sent w1 = sent w
  /\ callbacks w1 = callbacks w
  /\ journal_calls w1 = journal_calls w
  /\ In (Peer w2) (peer_list w)
  /\ BlockMap w2 = [] /\ PendingBlocks w2 = []
  /\ TransactionMap w2 = [] /\ PendingTransactions w2 = []
  /\ ProcessingUncommitted w2 = false /\ UncommittedTransactions w2 = []
  /\ (forall k, handler_of (dispatcher w2) k = Some (session_handler k))
  /\ sent w2 = sent w ++ [(BlockListRequestMessage 0,
                           PeerIdentifier (Peer w2))]
  /\ timers w2 = tl (timers w1).
Proof.
  cbn zeta. split; [|split; [|split; [|split; [|split]]]];
    try reflexivity.
  - intros k. unfold _failedhandler, callLater.
    cbn [dispatcher set_timers]. apply clear_all_handlers_none.
  - unfold handle_event, _failedhandler, callLater.
    cbn [timers set_timers clear_all_handlers clear_message_handler
         set_dispatcher logger set_log].
    destruct (timers w) as [|[d []] ts]; cbn [app run_deferred tl];
      match goal with
      | |- context [initiate_journal_transfer rnd ?w0] =>
          exact (initiate_with_peers rnd w0 Hpeers)
      end.
Qed.

Lemma failure_restarts_from_scratch_witness :
  let w1 := _failedhandler after_first_block in
  let w2 := handle_event (Fire 0) w1 in
  (forall k, handler_of (dispatcher w1) k = None)
  /\ timers w1
     = timers after_first_block ++ [(10%Z, CallInitiateJournalTransfer)]
  /\ sent w1 = sent after_first_block
  /\ callbacks w1 = callbacks after_first_block
  /\ journal_calls w1 = journal_calls after_first_block
  /\ In (Peer w2) (peer_list after_first_block)
  /\ BlockMap w2 = [] /\ PendingBlocks w2 = []
  /\ TransactionMap w2 = [] /\ PendingTransactions w2 = []
  /\ ProcessingUncommitted w2 = false /\ UncommittedTransactions w2 = []
  /\ (forall k, handler_of (dispatcher w2) k = Some (session_handler k))
  /\ sent w2 = sent after_first_block
               ++ [(BlockListRequestMessage 0, PeerIdentifier (Peer w2))]
  /\ timers w2 = tl (timers w1).
Proof.
  apply (failure_restarts_from_scratch after_first_block 0).
  discriminate.
Defined.

Example partial_state_before_failure :
  BlockMap after_first_block = [("b1", Some block_b1); ("b2", None)]
  /\ TransactionMap after_first_block = [("t1", Some (txn_of "t1"))]
  /\ peer_list after_first_block = [peer1].
Proof. vm_compute. repeat split. Qed.

(** ** Starting, or not *)

Lemma dispatch_without_handler r w : no_handler w -> dispatch r w = w.
Proof. intros H. unfold dispatch. now rewrite H. Qed.

(** With no handler registered and no timer pending, nothing that happens
    around the session makes it act. *)
Lemma idle_world_stays_idle es w :
  no_handler w -> timers w = [] ->
  callbacks (run_events es w) = callbacks w
  /\ sent (run_events es w) = sent w
  /\ journal_calls (run_events es w) = journal_calls w
  /\ dispatcher (run_events es w) = dispatcher w.
Proof.
  revert w. induction es as [|e es IH]; intros w Hh Ht; [easy|].
  change (run_events (e :: es) w) with (run_events es (handle_event e w)).
  destruct e as [r|rnd|peers]; cbn [handle_event].
  - rewrite dispatch_without_handler by assumption. now apply IH.
  - rewrite Ht. now apply IH.
  - destruct (IH (set_peer_list peers w)) as (-> & -> & -> & ->); easy.
Qed.

(** C10: with the journal in restore mode and more than one key in the
    persisted global store map, [start_journal_transfer] answers false and
    leaves everything as it was: no handler, no message, no timer, and so no
    later call of the callback.  In every other case it answers true after
    calling [initiate_journal_transfer] on the new session. *)
Theorem start_unless_restored (w : World) (rnd : nat) :
  (Restore (journal w) = true ->
   (1 < length (persistmap_keys (journal w)))%nat ->
   start_journal_transfer rnd w = (false, w)
   /\ (no_handler w -> timers w = [] ->
       forall es,
         callbacks (run_events es (snd (start_journal_transfer rnd w)))
         = callbacks w
         /\ sent (run_events es (snd (start_journal_transfer rnd w)))
            = sent w))
  /\ (Restore (journal w) = false
      \/ (length (persistmap_keys (journal w)) <= 1)%nat ->
      let w' := snd (start_journal_transfer rnd w) in
      fst (start_journal_transfer rnd w) = true
      /\ w' = initiate_journal_transfer rnd
                (if Restore (journal w)
                 then logger
                        (LogWarn
                           "restoration from persistence layer not possible")
                        w
                 else w)
      /\ (peer_list w <> [] ->
          (forall k, handler_of (dispatcher w') k = Some (session_handler k))
          /\ sent w' = sent w ++ [(BlockListRequestMessage 0,
                                   PeerIdentifier (Peer w'))]
          /\ In (Peer w') (peer_list w))
      /\ (peer_list w = [] ->
          sent w' = sent w
          /\ dispatcher w' = dispatcher w
          /\ timers w'
             = timers w ++ [(10%Z, CallInitiateJournalTransfer)])).
Proof.
  split.
  - intros Hr Hk.
    assert (Hs : start_journal_transfer rnd w = (false, w)).
    { unfold start_journal_transfer. rewrite Hr.
      apply Nat.ltb_lt in Hk. now rewrite Hk. }
    split; [assumption|]. intros Hh Ht es. rewrite Hs. cbn [snd].
    destruct (idle_world_stays_idle es w Hh Ht) as (-> & -> & _). easy.
  - intros Hcase. cbn zeta.
    assert (Hs : start_journal_transfer rnd w
                 = (true,
                    initiate_journal_transfer rnd
                      (if Restore (journal w)
                       then logger
                              (LogWarn
                                 "restoration from persistence layer not possible")
                              w
                       else w))).
    { unfold start_journal_transfer.
      destruct Hcase as [-> | Hk]; [reflexivity|].
      apply Nat.ltb_ge in Hk. rewrite Hk, andb_false_r. reflexivity. }
    rewrite Hs. cbn [fst snd]. split; [reflexivity|]. split; [reflexivity|].
    set (w0 := if Restore (journal w) then _ else w).
    assert (Hw0 : peer_list w0 = peer_list w /\ sent w0 = sent w
                  /\ timers w0 = timers w /\ dispatcher w0 = dispatcher w).
    { unfold w0. now destruct (Restore (journal w)). }
    destruct Hw0 as (Hp & Hsent & Ht & Hd).
    split.
    + intros Hne. rewrite <- Hp in Hne.
      destruct (initiate_with_peers rnd w0 Hne)
        as (Hin & _ & _ & _ & _ & _ & _ & Hh & Hsnt & _).
      rewrite <- Hsent, <- Hp. auto.
    + intros He. rewrite <- Hp in He.
      rewrite (initiate_without_peers rnd w0 He).
      rewrite <- Hsent, <- Hd, <- Ht. repeat split.
Qed.

Lemma start_unless_restored_witness :
  (start_journal_transfer 0 (fresh_world restored_journal [peer1])
   = (false, fresh_world restored_journal [peer1])
   /\ (no_handler (fresh_world restored_journal [peer1]) ->
       timers (fresh_world restored_journal [peer1]) = [] ->
       forall es,
         callbacks
           (run_events es
              (snd (start_journal_transfer 0
                      (fresh_world restored_journal [peer1]))))
         = callbacks (fresh_world restored_journal [peer1])
         /\ sent
              (run_events es
                 (snd (start_journal_transfer 0
                         (fresh_world restored_journal [peer1]))))
            = sent (fresh_world restored_journal [peer1])))
  /\ fst (start_journal_transfer 0 (fresh_world quiet_journal [peer1]))
     = true.
Proof.
  split.
  - apply (proj1 (start_unless_restored
                    (fresh_world restored_journal [peer1]) 0)).
    + reflexivity.
    + cbn. lia.
  - apply (proj2 (start_unless_restored
                    (fresh_world quiet_journal [peer1]) 0)).
    left. reflexivity.
Defined.

(** ** One request in flight *)

Lemma one_fetch_length w out : one_fetch w out -> (length out <= 1)%nat.
Proof. intros [->|(m & -> & _)]; cbn; lia. Qed.

Lemma emits_grows w w' out :
  emits w w' out -> (length out <= 1)%nat -> grows_by_one w w'.
Proof.
  intros (Hs & Ht & _) Hl. exists out, []. rewrite app_nil_r.
  repeat split; auto. cbn. lia.
Qed.

Lemma drain_after_body_emits w1 :
  exists out, emits w1 (drain_after_body w1) out /\ one_fetch w1 out.
Proof.
  unfold drain_after_body.
  destruct (kick_off_next_transaction_emits w1)
    as (out & He & Hf & Hfalse & _).
  destruct (_kick_off_next_transaction w1) as [[|] w2]; cbn in *.
  - now exists out.
  - rewrite (Hfalse eq_refl) in He.
    destruct (kick_off_next_block_emits w2) as (out2 & He2 & Hf2 & Hfalse2 & _).
    destruct (_kick_off_next_block w2) as [[|] w3]; cbn in *.
    + exists out2. split; [exact (emits_after_silent _ _ _ _ He He2)|].
      exact (one_fetch_after _ _ _ _ He Hf2).
    + rewrite (Hfalse2 eq_refl) in He2.
      pose proof (emits_after_silent _ _ _ _ He He2) as H3.
      destruct (handleuncommitted_emits w3) as (out3 & He3 & Hf3).
      exists out3. split; [exact (emits_after_silent _ _ _ _ H3 He3)|].
      exact (one_fetch_after _ _ _ _ H3 Hf3).
Qed.

Lemma block_body_stored_emits blk w : emits w (block_body_stored blk w) [].
Proof.
  unfold block_body_stored. rewrite enqueue_transactions_eq.
  unfold emits. cbn. now rewrite app_nil_r.
Qed.

Lemma transaction_body_stored_emits txn w :
  emits w (transaction_body_stored txn w) [].
Proof. unfold emits. cbn. now rewrite app_nil_r. Qed.

Lemma blocklistreplyhandler_grows i ids w :
  grows_by_one w (_blocklistreplyhandler i ids w).
Proof.
  destruct ids as [|id ids].
  - destruct (blocklistreplyhandler_empty_emits i w) as (out & He & Hout).
    apply (emits_grows _ _ out He).
    destruct Hout as [[Hf _]| ->]; [exact (one_fetch_length _ _ Hf)|].
    cbn. lia.
  - rewrite blocklistreplyhandler_nonempty by discriminate.
    rewrite enqueue_blocks_eq. eexists [_], [].
    repeat split; cbn; [now rewrite app_nil_r|lia].
Qed.

Lemma txnlistreplyhandler_grows i ids w :
  grows_by_one w (_txnlistreplyhandler i ids w).
Proof.
  destruct ids as [|id ids].
  - destruct (txnlistreplyhandler_empty_emits i w) as (out & He & Hf).
    exact (emits_grows _ _ out He (one_fetch_length _ _ Hf)).
  - rewrite txnlistreplyhandler_nonempty by discriminate.
    eexists [_], []. repeat split; cbn; [now rewrite app_nil_r|lia].
Qed.

Lemma blockreplyhandler_grows blk w :
  grows_by_one w (_blockreplyhandler blk w).
Proof.
  rewrite blockreplyhandler_tail.
  pose proof (block_body_stored_emits blk w) as H0.
  destruct (drain_after_body_emits (block_body_stored blk w))
    as (out & He & Hf).
  exact (emits_grows _ _ out (emits_after_silent _ _ _ _ H0 He)
           (one_fetch_length _ _ Hf)).
Qed.

Lemma txnreplyhandler_grows txn w :
  grows_by_one w (_txnreplyhandler txn w).
Proof.
  rewrite txnreplyhandler_tail.
  pose proof (transaction_body_stored_emits txn w) as H0.
  destruct (drain_after_body_emits (transaction_body_stored txn w))
    as (out & He & Hf).
  exact (emits_grows _ _ out (emits_after_silent _ _ _ _ H0 He)
           (one_fetch_length _ _ Hf)).
Qed.

Lemma failedhandler_grows w : grows_by_one w (_failedhandler w).
Proof.
  exists [], [(10%Z, CallInitiateJournalTransfer)].
  repeat split; cbn; [now rewrite app_nil_r|lia].
Qed.

Lemma grows_by_one_refl w : grows_by_one w w.
Proof. exists [], []. rewrite !app_nil_r. repeat split. cbn. lia. Qed.

Lemma dispatch_grows r w : grows_by_one w (dispatch r w).
Proof.
  unfold dispatch.
  destruct (handler_of (dispatcher w) (kind_of r)) as [h|];
    [|apply grows_by_one_refl].
  destruct h, r; cbn [run_handler];
    auto using grows_by_one_refl, blocklistreplyhandler_grows,
               txnlistreplyhandler_grows, blockreplyhandler_grows,
               txnreplyhandler_grows, failedhandler_grows.
Qed.

Lemma initiate_grows rnd w :
  grows_by_one w (initiate_journal_transfer rnd w).
Proof.
  destruct (peer_list w) as [|p0 peers] eqn:Hp.
  - rewrite initiate_without_peers by assumption.
    exists [], [(10%Z, CallInitiateJournalTransfer)].
    repeat split; cbn; [now rewrite app_nil_r|lia].
  - destruct (initiate_with_peers rnd w)
      as (_ & _ & _ & _ & _ & _ & _ & _ & Hs & Ht); [now rewrite Hp|].
    eexists [_], []. rewrite app_nil_r. repeat split; eauto; cbn; lia.
Qed.

Lemma grows_requests_since w w' :
  grows_by_one w w' ->
  (length (requests_since w w') + length (timers w') <= 1 + length (timers w))%nat.
Proof.
  intros (out & tm & Hs & Ht & Hl). unfold requests_since.
  rewrite (sent_since_app _ _ out Hs), length_map, Ht, length_app. lia.
Qed.

Lemma start_grows rnd w :
  grows_by_one w (snd (start_journal_transfer rnd w)).
Proof.
  unfold start_journal_transfer.
  destruct (Restore (journal w) && _); cbn [snd]; [apply grows_by_one_refl|].
  destruct (Restore (journal w)); [|apply initiate_grows].
  destruct (initiate_grows rnd
              (logger (LogWarn
                         "restoration from persistence layer not possible")
                 w)) as (out & tm & Hs & Ht & Hl).
  now exists out, tm.
Qed.

Lemma fire_grows rnd w d f ts :
  timers w = (d, f) :: ts ->
  exists out tm,
    sent (handle_event (Fire rnd) w) = sent w ++ out
    /\ timers (handle_event (Fire rnd) w) = ts ++ tm
    /\ (length out + length tm <= 1)%nat.
Proof.
  intros Ht. cbn [handle_event]. rewrite Ht. destruct f. cbn [run_deferred].
  destruct (initiate_grows rnd (set_timers ts w)) as (out & tm & H1 & H2 & H3).
  now exists out, tm.
Qed.

(** The invariant of a run: requests in flight and pending timers are
    one item at most, taken together. *)
Lemma session_run_invariant w outstanding :
  session_run w outstanding ->
  (length outstanding + length (timers w) <= 1)%nat.
Proof.
  induction 1 as [w rnd Hs Ht Hh|w before m after r Hrun IH Hans
                  |w outstanding rnd Hrun IH Hne|w outstanding peers Hrun IH].
  - pose proof (grows_requests_since _ _ (start_grows rnd w)) as Hg.
    unfold requests_since, sent_since in Hg. rewrite Hs, Ht in Hg.
    cbn [length drop] in Hg. rewrite drop_0 in Hg. exact Hg.
  - pose proof (grows_requests_since _ _ (dispatch_grows r w)) as Hg.
    rewrite !length_app in *. cbn [length] in IH. lia.
  - destruct (timers w) as [|[d f] ts] eqn:Ht; [easy|].
    destruct (fire_grows rnd w d f ts Ht) as (out & tm & H1 & H2 & H3).
    unfold requests_since.
    rewrite (sent_since_app _ _ out H1), H2, !length_app, length_map.
    cbn [length] in IH. lia.
  - exact IH.
Qed.

Lemma filter_length_bound {A : Type} (f : A -> bool) (l : list A) :
  (length (List.filter f l) <= length l)%nat.
Proof.
  induction l as [|x l IH]; cbn; [lia|]. destruct (f x); cbn; lia.
Qed.

Lemma kick_off_next_transaction_sends_once w0 :
  sends_at_most_once w0 (_kick_off_next_transaction w0).
Proof.
  destruct (kick_off_next_transaction_cases w0)
    as [(locals & id & rest & Hp & Hl & Hm & ->)|[Hall ->]].
  - eexists [_]. split; [reflexivity|]. split; [|discriminate].
    intros _. eexists _, _. split; reflexivity.
  - exists []. cbn [fst snd]. split; [now rewrite app_nil_r|].
    split; [discriminate|reflexivity].
Qed.

Lemma kick_off_next_block_sends_once w0 :
  sends_at_most_once w0 (_kick_off_next_block w0).
Proof.
  destruct (kick_off_next_block_cases w0)
    as [(locals & id & rest & Hp & Hl & Hm & ->)|[Hall ->]].
  - destruct (copy_local_blocks_frame locals w0) as (bm & tm & pt & Hf).
    exists [(BlockRequestMessage id, PeerIdentifier (Peer w0))].
    cbn [fst snd]. split; [now rewrite Hf|]. split; [|discriminate].
    intros _. eexists _, _. split; [reflexivity|]. rewrite Hf. reflexivity.
  - set (w2 := set_PendingBlocks [] (copy_local_blocks (PendingBlocks w0) w0)).
    assert (Hfr : sent w2 = sent w0 /\ Peer w2 = Peer w0).
    { unfold w2.
      destruct (copy_local_blocks_frame (PendingBlocks w0) w0)
        as (bm & tm & pt & ->). now split. }
    destruct Hfr as (Hsent & Hpeer).
    destruct (kick_off_next_transaction_sends_once w2)
      as (out & Hs & Ht & Hfalse).
    exists out. rewrite <- Hsent, <- Hpeer. now repeat split.
Qed.

Lemma scenario_A_run : session_run scenario_A [BlockRequestMessage "b2"].
Proof.
  unfold scenario_A.
  set (w0 := fresh_world journal_with_b1 [peer1]).
  assert (H0 : session_run (snd (start_journal_transfer 0 w0))
                 [BlockListRequestMessage 0]).
  { apply (run_start w0 0); [reflexivity|reflexivity|intros k; reflexivity]. }
  set (w1 := snd (start_journal_transfer 0 w0)) in *.
  assert (H1 : session_run (dispatch (BlockListReplyMessage 0 ["b1"; "b2"]) w1)
                 [BlockListRequestMessage 2]).
  { apply (run_receive w1 [] (BlockListRequestMessage 0) []
             (BlockListReplyMessage 0 ["b1"; "b2"]) H0). reflexivity. }
  set (w2 := dispatch (BlockListReplyMessage 0 ["b1"; "b2"]) w1) in *.
  apply (run_receive w2 [] (BlockListRequestMessage 2) []
           (BlockListReplyMessage 2 []) H1). reflexivity.
Defined.

(** * Further properties of the module *)

(** ** After the session is torn down *)


Lemma failedhandler_no_handler w : no_handler (_failedhandler w).
Proof.
  intros k. unfold _failedhandler, callLater. cbn [dispatcher set_timers].
  apply clear_all_handlers_none.
Qed.

Lemma finish_no_handler w : no_handler (_finish w).
Proof.
  intros k. destruct (finish_frame w) as (d & jc & lg & -> & Hd). apply Hd.
Qed.


(** ** Waiting for a peer *)

Lemma fire_without_peers rnd w :
  peer_list w = [] ->
  let w' := handle_event (Fire rnd) w in
  sent w' = sent w /\ dispatcher w' = dispatcher w
  /\ length (timers w') = length (timers w)
  /\ callbacks w' = callbacks w /\ journal_calls w' = journal_calls w
  /\ log w' = log w /\ peer_list w' = []
  /\ BlockMap w' = BlockMap w /\ PendingBlocks w' = PendingBlocks w
  /\ TransactionMap w' = TransactionMap w
  /\ PendingTransactions w' = PendingTransactions w
  /\ UncommittedTransactions w' = UncommittedTransactions w
  /\ ProcessingUncommitted w' = ProcessingUncommitted w.
Proof.
  intros Hp. cbn [handle_event].
  destruct (timers w) as [|[d []] ts] eqn:Ht; cbn zeta.
  - rewrite Ht. repeat split; assumption.
  - cbn [run_deferred].
    rewrite (initiate_without_peers rnd (set_timers ts w)) by exact Hp.
    cbn. rewrite length_app. cbn. repeat split; try assumption. lia.
Qed.

(** X2: while the peer list is empty, the retry timer only re-arms itself:
    however often it fires, no message is sent, no handler is registered,
    the session attributes and the journal are not touched, and the number
    of pending timers stays the same. *)
Theorem no_peer_no_message (w : World) (rnds : list nat)
    (Hnone : peer_list w = []) :
  let w' := run_events (map Fire rnds) w in
  sent w' = sent w /\ dispatcher w' = dispatcher w
  /\ length (timers w') = length (timers w)
  /\ callbacks w' = callbacks w /\ journal_calls w' = journal_calls w
  /\ log w' = log w /\ peer_list w' = []
  /\ BlockMap w' = BlockMap w /\ PendingBlocks w' = PendingBlocks w
  /\ TransactionMap w' = TransactionMap w
  /\ PendingTransactions w' = PendingTransactions w
  /\ UncommittedTransactions w' = UncommittedTransactions w
  /\ ProcessingUncommitted w' = ProcessingUncommitted w.
Proof.
  revert w Hnone. induction rnds as [|rnd rnds IH]; intros w Hnone.
  - cbn. repeat split; assumption.
  - change (run_events (map Fire (rnd :: rnds)) w)
      with (run_events (map Fire rnds) (handle_event (Fire rnd) w)).
    destruct (fire_without_peers rnd w Hnone)
      as (H1 & H2 & H3 & H4 & H5 & H6 & H7 & H8 & H9 & H10 & H11 & H12 & H13).
    cbn zeta in *.
    destruct (IH (handle_event (Fire rnd) w) H7)
      as (-> & -> & -> & -> & -> & -> & -> & -> & -> & -> & -> & -> & ->).
    repeat split; assumption.
Qed.

Lemma no_peer_no_message_witness :
  let w0 := snd (start_journal_transfer 0 (fresh_world quiet_journal [])) in
  let w' := run_events (map Fire [3; 1; 4]) w0 in
  sent w' = sent w0 /\ dispatcher w' = dispatcher w0
  /\ length (timers w') = length (timers w0)
  /\ callbacks w' = callbacks w0 /\ journal_calls w' = journal_calls w0
  /\ log w' = log w0 /\ peer_list w' = []
  /\ BlockMap w' = BlockMap w0 /\ PendingBlocks w' = PendingBlocks w0
  /\ TransactionMap w' = TransactionMap w0
  /\ PendingTransactions w' = PendingTransactions w0
  /\ UncommittedTransactions w' = UncommittedTransactions w0
  /\ ProcessingUncommitted w' = ProcessingUncommitted w0.
Proof.
  apply (no_peer_no_message
           (snd (start_journal_transfer 0 (fresh_world quiet_journal [])))
           [3; 1; 4]).
  reflexivity.
Defined.

(** ** The shape of the commit trace *)

Lemma pending_submissions_kind w c :
  In c (pending_submissions w) -> is_pending_submission c = true.
Proof.
  unfold pending_submissions. intros Hin.
  apply in_map_iff in Hin as ([k v] & <- & _). reflexivity.
Qed.

(** If a list that starts with [P] is cut after an element that is not of
    the kind of [P]'s elements, [P] lies before the cut. *)
Lemma prefix_before_cut (P B pre post : list JournalCall) (c y : JournalCall) :
  P ++ B = pre ++ c :: post ->
  (forall x, In x P -> is_pending_submission x = true) ->
  In y (pre ++ [c]) -> is_pending_submission y = false ->
  forall x, In x P -> In x pre.
Proof.
  revert pre. induction P as [|a P IH]; intros pre Heq HP Hy Hny x Hx;
    [destruct Hx|].
  destruct pre as [|a' pre]; cbn in Heq; injection Heq as -> Heq.
  - cbn in Hy. destruct Hy as [<-|[]].
    rewrite (HP c) in Hny by now left. discriminate.
  - cbn in Hy. destruct Hy as [<-|Hy].
    + rewrite (HP a') in Hny by now left. discriminate.
    + destruct Hx as [<-|Hx]; [now left|]. right.
      apply (IH pre Heq); auto. intros z Hz. apply HP. now right.
Qed.

(** X3: whatever the journal answers, the submissions [_finish] makes are
    the transactions of the map followed by its blocks, cut after the first
    submission that raises; so a block is submitted only after every
    transaction of the map has been applied. *)
Theorem commit_phase_trace (w : World) :
  exists new,
    journal_calls (_finish w) = journal_calls w ++ new
    /\ (new = map applied (pending_submissions w ++ block_submissions w)
        \/ exists pre c post e,
             pending_submissions w ++ block_submissions w = pre ++ c :: post
             /\ new = map applied pre ++ [(c, Some e)])
    /\ (forall blk outcome,
          In (CommitTransactionBlock blk, outcome) new ->
          forall c, In c (pending_submissions w) -> In (applied c) new).
Proof.
  rewrite finish_unfold, finish_epilogue_journal_calls,
    finish_try_one_sequence.
  set (P := pending_submissions w). set (B := block_submissions w).
  destruct (fst (submit_all (P ++ B) w)) as [e|] eqn:E.
  - destruct (submit_all_raise _ _ _ E) as (pre & c & post & Hcs & ->).
    exists (map applied pre ++ [(c, Some e)]).
    split; [reflexivity|]. split; [right; now exists pre, c, post, e|].
    intros blk outcome Hin x Hx. apply in_or_app. left. apply in_map.
    apply (prefix_before_cut P B pre post c (CommitTransactionBlock blk) Hcs);
      [exact (pending_submissions_kind w)| |reflexivity|exact Hx].
    apply in_app_or in Hin as [Hin|[Hc|[]]].
    + apply in_map_iff in Hin as (y & Hfy & Hy).
      unfold applied in Hfy. injection Hfy as Hfy _. subst y.
      apply in_or_app. now left.
    + injection Hc as Hc _. subst c. apply in_or_app. right. now left.
  - exists (map applied (P ++ B)).
    split; [now apply submit_all_ok|]. split; [now left|].
    intros blk outcome _ x Hx. apply in_map, in_or_app. now left.
Qed.

(** ** The journal is written in the commit phase only *)

Lemma steady_refl w : steady w w.
Proof. now unfold steady. Qed.

Lemma steady_trans w1 w2 w3 : steady w1 w2 -> steady w2 w3 -> steady w1 w3.
Proof. unfold steady. intros (-> & -> & ->) (-> & -> & ->). auto. Qed.

Lemma commit_or_nothing_steady w w' : steady w w' -> commit_or_nothing w w'.
Proof. intros (H1 & H2 & _). now left. Qed.

Lemma commit_or_nothing_after_steady w w1 w' :
  steady w w1 -> commit_or_nothing w1 w' -> commit_or_nothing w w'.
Proof.
  intros (Hj & Hc & Ht) [[Hj' Hc']|(Hc' & Hh & Hb & Hp & Ht')].
  - left. now rewrite Hj', Hc'.
  - right. unfold commits. now rewrite Hc', Ht', Hc, Ht.
Qed.

Lemma kick_off_next_transaction_steady w :
  steady w (snd (_kick_off_next_transaction w))
  /\ PendingBlocks (snd (_kick_off_next_transaction w)) = PendingBlocks w
  /\ (fst (_kick_off_next_transaction w) = false ->
      PendingTransactions (snd (_kick_off_next_transaction w)) = []).
Proof.
  destruct (kick_off_next_transaction_effect w)
    as (tm & pt & out & Hs & Hcase).
  rewrite Hs. repeat split.
  intros Hf. destruct Hcase as [[Ht _]|(_ & _ & ->)]; [congruence|].
  reflexivity.
Qed.

Lemma kick_off_next_block_steady w :
  steady w (snd (_kick_off_next_block w))
  /\ (fst (_kick_off_next_block w) = false ->
      PendingBlocks (snd (_kick_off_next_block w)) = []
      /\ PendingTransactions (snd (_kick_off_next_block w)) = []).
Proof.
  destruct (kick_off_next_block_effect w)
    as (bm & pb & tm & pt & out & Hs & Hcase).
  rewrite Hs. repeat split;
    destruct Hcase as [[Ht _]|(_ & _ & -> & ->)]; congruence || reflexivity.
Qed.

Lemma finish_commits w :
  PendingBlocks w = [] -> PendingTransactions w = [] -> commits w (_finish w).
Proof.
  intros Hb Hp. destruct (finish_untouched w) as (_ & Hb' & Hp').
  destruct (finish_emits w) as (_ & Ht & _).
  unfold commits. rewrite Hb', Hp', finish_callbacks.
  auto using finish_no_handler.
Qed.

Lemma handleuncommitted_outcome w :
  PendingBlocks w = [] -> PendingTransactions w = [] ->
  commit_or_nothing w (_handleuncommitted w).
Proof.
  intros Hb Hp. unfold _handleuncommitted.
  set (w0 := logger _ w).
  assert (H0 : steady w w0) by (now unfold steady).
  destruct (negb (ProcessingUncommitted w0) && _).
  - set (w1 := enqueue_transactions _ _).
    assert (H1 : steady w w1 /\ PendingBlocks w1 = []).
    { unfold w1. rewrite enqueue_transactions_eq. now unfold steady. }
    destruct H1 as (H1 & Hb1).
    destruct (kick_off_next_transaction_steady w1) as (Hs & Hpb & Hfalse).
    destruct (_kick_off_next_transaction w1) as [[|] w2]; cbn [fst snd] in *.
    + apply commit_or_nothing_steady. exact (steady_trans _ _ _ H1 Hs).
    + apply (commit_or_nothing_after_steady _ w2);
        [exact (steady_trans _ _ _ H1 Hs)|].
      right. apply finish_commits; [congruence|auto].
  - apply (commit_or_nothing_after_steady _ w0 _ H0).
    right. now apply finish_commits.
Qed.

Lemma drain_after_body_outcome w1 :
  commit_or_nothing w1 (drain_after_body w1).
Proof.
  unfold drain_after_body.
  destruct (kick_off_next_transaction_steady w1) as (Hs & _ & _).
  destruct (_kick_off_next_transaction w1) as [[|] w2]; cbn [fst snd] in *;
    [now apply commit_or_nothing_steady|].
  destruct (kick_off_next_block_steady w2) as (Hs2 & Hfalse).
  destruct (_kick_off_next_block w2) as [[|] w3]; cbn [fst snd] in *.
  - apply commit_or_nothing_steady. exact (steady_trans _ _ _ Hs Hs2).
  - destruct (Hfalse eq_refl) as (Hb & Hp).
    apply (commit_or_nothing_after_steady _ w3);
      [exact (steady_trans _ _ _ Hs Hs2)|].
    now apply handleuncommitted_outcome.
Qed.

Lemma blocklistreplyhandler_steady i ids w :
  steady w (_blocklistreplyhandler i ids w).
Proof.
  destruct ids as [|id ids].
  - change (_blocklistreplyhandler i [] w)
      with (let (sent_one, w') :=
              _kick_off_next_block (block_list_complete w) in
            if sent_one then w'
            else send_message (UncommittedListRequestMessage 0) w').
    destruct (kick_off_next_block_steady (block_list_complete w))
      as (Hs & _).
    destruct (_kick_off_next_block (block_list_complete w)) as [[|] w1];
      cbn [fst snd] in *; exact Hs.
  - rewrite blocklistreplyhandler_nonempty by discriminate.
    rewrite enqueue_blocks_eq. now unfold steady.
Qed.

Lemma txnlistreplyhandler_outcome i ids w :
  commit_or_nothing w (_txnlistreplyhandler i ids w).
Proof.
  destruct ids as [|id ids].
  - change (_txnlistreplyhandler i [] w)
      with (let (sent_one, w') :=
              _kick_off_next_block (uncommitted_list_complete w) in
            if sent_one then w' else _handleuncommitted w').
    destruct (kick_off_next_block_steady (uncommitted_list_complete w))
      as (Hs & Hfalse).
    destruct (_kick_off_next_block (uncommitted_list_complete w))
      as [[|] w1]; cbn [fst snd] in *.
    + apply commit_or_nothing_steady. exact Hs.
    + destruct (Hfalse eq_refl) as (Hb & Hp).
      apply (commit_or_nothing_after_steady _ w1 _ Hs).
      now apply handleuncommitted_outcome.
  - rewrite txnlistreplyhandler_nonempty by discriminate. now left.
Qed.

Lemma dispatch_outcome r w : commit_or_nothing w (dispatch r w).
Proof.
  unfold dispatch.
  destruct (handler_of (dispatcher w) (kind_of r)) as [h|]; [|now left].
  destruct h; destruct r as [i ids|blk|i ids|txn|]; cbn [run_handler];
    try (now left).
  - apply commit_or_nothing_steady, blocklistreplyhandler_steady.
  - rewrite blockreplyhandler_tail.
    apply (commit_or_nothing_after_steady _ (block_body_stored blk w)).
    + unfold block_body_stored. rewrite enqueue_transactions_eq.
      now unfold steady.
    + apply drain_after_body_outcome.
  - apply txnlistreplyhandler_outcome.
  - rewrite txnreplyhandler_tail.
    apply (commit_or_nothing_after_steady _ (transaction_body_stored txn w));
      [now unfold steady|apply drain_after_body_outcome].
Qed.

Lemma initiate_keeps_journal rnd w :
  journal_calls (initiate_journal_transfer rnd w) = journal_calls w
  /\ callbacks (initiate_journal_transfer rnd w) = callbacks w.
Proof.
  unfold initiate_journal_transfer. now destruct (peer_list w).
Qed.

(** X4: whatever happens, the journal is submitted to only in the commit
    phase: an event either leaves the journal trace and the callback count
    as they were, or it ran [_finish], and then the callback was invoked
    once, both queues were empty, and no handler is left. *)
Theorem journal_written_only_at_completion (e : Event) (w : World) :
  commit_or_nothing w (handle_event e w).
Proof.
  destruct e as [r|rnd|peers]; cbn [handle_event].
  - apply dispatch_outcome.
  - destruct (timers w) as [|[d []] ts]; [now left|]. cbn [run_deferred].
    left. destruct (initiate_keeps_journal rnd (set_timers ts w)) as (-> & ->).
    now split.
  - now left.
Qed.

(** ** Runs: the retry timer and the callback *)

Lemma dispatch_timers r w :
  timers (dispatch r w) = timers w \/ no_handler (dispatch r w).
Proof.
  unfold dispatch.
  destruct (handler_of (dispatcher w) (kind_of r)) as [h|]; [|now left].
  destruct h; destruct r as [i ids|blk|i ids|txn|]; cbn [run_handler];
    try (now left); try (right; apply failedhandler_no_handler).
  - left. apply blocklistreplyhandler_steady.
  - left. rewrite blockreplyhandler_tail.
    destruct (drain_after_body_emits (block_body_stored blk w))
      as (out & (_ & -> & _) & _).
    apply block_body_stored_emits.
  - left. destruct ids as [|id ids].
    + destruct (txnlistreplyhandler_empty_emits i w) as (out & He & _).
      apply He.
    + now rewrite txnlistreplyhandler_nonempty by discriminate.
  - left. rewrite txnreplyhandler_tail.
    destruct (drain_after_body_emits (transaction_body_stored txn w))
      as (out & (_ & -> & _) & _).
    reflexivity.
Qed.

Lemma session_run_timer_excludes_handlers w outstanding :
  session_run w outstanding -> timers w <> [] -> no_handler w.
Proof.
  induction 1 as [w rnd Hs Ht Hh|w before m after r Hrun IH Hans
                  |w outstanding rnd Hrun IH Hne|w outstanding peers Hrun IH].
  - unfold start_journal_transfer.
    destruct (Restore (journal w) && _); cbn [snd]; [auto|].
    set (w0 := if Restore (journal w) then _ else w).
    assert (Hw0 : no_handler w0 /\ timers w0 = []).
    { unfold w0. now destruct (Restore (journal w)). }
    destruct Hw0 as (Hh0 & Ht0).
    destruct (peer_list w0) as [|p0 peers] eqn:Hp.
    + rewrite initiate_without_peers by assumption. auto.
    + destruct (initiate_with_peers rnd w0)
        as (_ & _ & _ & _ & _ & _ & _ & _ & _ & Htm); [now rewrite Hp|].
      rewrite Htm, Ht0. easy.
  - intros Hne. destruct (dispatch_timers r w) as [Ht|Hh]; [|exact Hh].
    rewrite Ht in Hne. rewrite dispatch_without_handler by auto. auto.
  - intros Hne'. pose proof (session_run_invariant _ _ Hrun) as Hinv.
    destruct (timers w) as [|[d []] ts] eqn:Ht; [easy|].
    cbn [handle_event] in *. rewrite Ht in *. cbn [run_deferred] in *.
    assert (Hts : ts = []) by (destruct ts; [reflexivity|cbn in Hinv; lia]).
    subst ts.
    destruct (peer_list w) as [|p0 peers] eqn:Hp.
    + rewrite initiate_without_peers by exact Hp.
      intros k. exact (IH ltac:(discriminate) k).
    + destruct (initiate_with_peers rnd (set_timers [] w))
        as (_ & _ & _ & _ & _ & _ & _ & _ & _ & Htm);
        [cbn; now rewrite Hp|].
      rewrite Htm in Hne'. now cbn in Hne'.
  - exact IH.
Qed.

(** X5: in a run, while a retry timer is pending the session is down: no
    handler is registered, no request is outstanding, and the timer is the
    only one.  A retry therefore never starts on top of a live session. *)
Theorem pending_retry_excludes_session (w : World)
    (outstanding : list Message) (Hrun : session_run w outstanding)
    (Htimer : timers w <> []) :
  no_handler w /\ outstanding = [] /\ length (timers w) = 1%nat.
Proof.
  pose proof (session_run_invariant _ _ Hrun) as Hinv.
  split; [exact (session_run_timer_excludes_handlers _ _ Hrun Htimer)|].
  destruct (timers w) as [|t ts]; [easy|]. cbn [length] in *.
  destruct outstanding; cbn [length] in *; split; (reflexivity || lia).
Qed.

Lemma waiting_for_peer_run : session_run waiting_for_peer [].
Proof.
  apply (run_start (fresh_world quiet_journal []) 0);
    [reflexivity|reflexivity|intros k; reflexivity].
Defined.

Lemma pending_retry_excludes_session_witness :
  no_handler waiting_for_peer /\ @nil Message = []
  /\ length (timers waiting_for_peer) = 1%nat.
Proof.
  apply (pending_retry_excludes_session waiting_for_peer []
           waiting_for_peer_run).
  discriminate.
Defined.

(** X6: in a run, the callback is invoked at most once: once a received
    message has led to the commit phase, no later event invokes the callback
    again, sends a message or submits to the journal. *)
Theorem callback_once_then_idle (w : World) (outstanding : list Message)
    (Hrun : session_run w outstanding) (r : Reply)
    (Hcallback : callbacks (dispatch r w) <> callbacks w) (es : list Event) :
  callbacks (run_events es (dispatch r w)) = S (callbacks w)
  /\ sent (run_events es (dispatch r w)) = sent (dispatch r w)
  /\ journal_calls (run_events es (dispatch r w))
     = journal_calls (dispatch r w).
Proof.
  destruct (dispatch_outcome r w) as [[_ Hc]|(Hc & Hh & _ & _ & Ht)];
    [contradiction|].
  assert (Hidle : timers w = []).
  { destruct (timers w) as [|t ts] eqn:Htw; [reflexivity|]. exfalso.
    apply Hcallback.
    rewrite dispatch_without_handler; [reflexivity|].
    apply (session_run_timer_excludes_handlers _ _ Hrun).
    rewrite Htw. discriminate. }
  rewrite Hidle in Ht.
  destruct (idle_world_stays_idle es (dispatch r w) Hh Ht)
    as (-> & -> & -> & _).
  auto.
Qed.

Lemma uncommitted_requested_run :
  session_run uncommitted_requested [UncommittedListRequestMessage 0].
Proof.
  assert (H0 : session_run started [BlockListRequestMessage 0]).
  { apply (run_start (fresh_world quiet_journal [peer1]) 0);
      [reflexivity|reflexivity|intros k; reflexivity]. }
  apply (run_receive started [] (BlockListRequestMessage 0) []
           (BlockListReplyMessage 0 []) H0). reflexivity.
Defined.

Lemma callback_once_then_idle_witness :
  callbacks
    (run_events [Receive (BlockReplyMessage block_b1); Fire 0]
       (dispatch (UncommittedListReplyMessage 0 []) uncommitted_requested))
  = S (callbacks uncommitted_requested)
  /\ sent
       (run_events [Receive (BlockReplyMessage block_b1); Fire 0]
          (dispatch (UncommittedListReplyMessage 0 []) uncommitted_requested))
     = sent (dispatch (UncommittedListReplyMessage 0 [])
               uncommitted_requested)
  /\ journal_calls
       (run_events [Receive (BlockReplyMessage block_b1); Fire 0]
          (dispatch (UncommittedListReplyMessage 0 []) uncommitted_requested))
     = journal_calls
         (dispatch (UncommittedListReplyMessage 0 []) uncommitted_requested).
Proof.
  apply (callback_once_then_idle uncommitted_requested
           [UncommittedListRequestMessage 0] uncommitted_requested_run
           (UncommittedListReplyMessage 0 [])).
  vm_compute. discriminate.
Defined.

(** ** What the drains resolve and what they request *)

Section CopyLocal.
Context {V : Type}.
Implicit Types (store : gmap string V) (d : OrderedDict (option V)).

Lemma copy_local_cons store k ids d :
  copy_local store (k :: ids) d
  = copy_local store ids
      match store !! k with
      | Some v => OrderedDict.setitem d k (Some v)
      | None => d
      end.
Proof. reflexivity. Qed.

Lemma copy_local_getitem_other store ids d k :
  ~ In k ids ->
  OrderedDict.getitem (copy_local store ids d) k = OrderedDict.getitem d k.
Proof.
  revert d. induction ids as [|k' ids IH]; intros d Hin; [reflexivity|].
  rewrite copy_local_cons, IH by (cbn in Hin; tauto).
  destruct (store !! k'); [|reflexivity].
  apply getitem_setitem_ne. cbn in Hin. intros ->. tauto.
Qed.

Lemma copy_local_getitem store ids d k v :
  In k ids -> store !! k = Some v ->
  OrderedDict.getitem (copy_local store ids d) k = Some (Some v).
Proof.
  revert d. induction ids as [|k' ids IH]; intros d Hin Hk; [easy|].
  rewrite copy_local_cons.
  destruct (in_dec String.string_dec k ids) as [Hi|Hi]; [now apply IH|].
  destruct Hin as [->|Hin]; [|tauto].
  rewrite copy_local_getitem_other by assumption. rewrite Hk.
  apply getitem_setitem_eq.
Qed.

Lemma copy_local_keys_incl store ids d k :
  In k (OrderedDict.keys d) ->
  In k (OrderedDict.keys (copy_local store ids d)).
Proof.
  revert d. induction ids as [|k' ids IH]; intros d Hin; [assumption|].
  rewrite copy_local_cons. apply IH.
  destruct (store !! k'); [now apply setitem_keys_incl|assumption].
Qed.
End CopyLocal.

Lemma copy_local_blocks_cons k ids w :
  copy_local_blocks (k :: ids) w
  = copy_local_blocks ids
      match BlockStore (journal w) !! k with
      | Some blk => copy_local_block k blk w
      | None => w
      end.
Proof. reflexivity. Qed.

Lemma copy_local_blocks_BlockMap ids w :
  BlockMap (copy_local_blocks ids w)
  = copy_local (BlockStore (journal w)) ids (BlockMap w).
Proof.
  revert w. induction ids as [|k ids IH]; intros w; [reflexivity|].
  rewrite copy_local_blocks_cons, copy_local_cons, IH.
  destruct (BlockStore (journal w) !! k) as [blk|] eqn:Hk; [|reflexivity].
  rewrite copy_local_block_journal.
  unfold copy_local_block. now rewrite enqueue_transactions_eq.
Qed.

(** X7: a drain that finds an identifier missing from the store requests the
    first such identifier of the queue, and that one only: the identifiers
    queued before it are resolved from the store, and those queued after it
    stay queued, in order. *)
Theorem drain_requests_first_missing (w : World) :
  (forall locals id rest,
      PendingTransactions w = locals ++ id :: rest ->
      Forall (known (TransactionStore (journal w))) locals ->
      TransactionStore (journal w) !! id = None ->
      let r := _kick_off_next_transaction w in
      fst r = true
      /\ sent (snd r)
         = sent w ++ [(TransactionRequestMessage id, PeerIdentifier (Peer w))]
      /\ PendingTransactions (snd r) = rest
      /\ forall k txn,
           In k locals -> TransactionStore (journal w) !! k = Some txn ->
           OrderedDict.getitem (TransactionMap (snd r)) k = Some (Some txn))
  /\ (forall locals id rest,
      PendingBlocks w = locals ++ id :: rest ->
      Forall (known (BlockStore (journal w))) locals ->
      BlockStore (journal w) !! id = None ->
      let r := _kick_off_next_block w in
      fst r = true
      /\ sent (snd r)
         = sent w ++ [(BlockRequestMessage id, PeerIdentifier (Peer w))]
      /\ PendingBlocks (snd r) = rest
      /\ forall k blk,
           In k locals -> BlockStore (journal w) !! k = Some blk ->
           OrderedDict.getitem (BlockMap (snd r)) k = Some (Some blk)).
Proof.
  split.
  - intros locals id rest Hq Hl Hm. cbn zeta.
    unfold _kick_off_next_transaction.
    rewrite Hq, transaction_loop_first_missing by assumption.
    cbn [fst snd]. repeat split.
    intros k txn Hk Hs. cbn. now apply copy_local_getitem.
  - intros locals id rest Hq Hl Hm. cbn zeta.
    unfold _kick_off_next_block.
    rewrite Hq, block_loop_first_missing by assumption.
    cbn [fst snd].
    destruct (copy_local_blocks_frame locals w) as (bm & tm & pt & Hf).
    split; [reflexivity|]. split; [now rewrite Hf|].
    split; [reflexivity|].
    intros k blk Hk Hs.
    change (BlockMap (send_message (BlockRequestMessage id)
                        (set_PendingBlocks rest (copy_local_blocks locals w))))
      with (BlockMap (copy_local_blocks locals w)).
    rewrite copy_local_blocks_BlockMap. now apply copy_local_getitem.
Qed.

Lemma drain_requests_first_missing_witness :
  let r := _kick_off_next_block b1_b2_queued in
  fst r = true
  /\ sent (snd r)
     = sent b1_b2_queued
       ++ [(BlockRequestMessage "b2", PeerIdentifier (Peer b1_b2_queued))]
  /\ PendingBlocks (snd r) = []
  /\ forall k blk,
       In k ["b1"] -> BlockStore (journal b1_b2_queued) !! k = Some blk ->
       OrderedDict.getitem (BlockMap (snd r)) k = Some (Some blk).
Proof.
  apply (proj2 (drain_requests_first_missing b1_b2_queued) ["b1"] "b2" []).
  - reflexivity.
  - repeat constructor. now exists block_b1.
  - reflexivity.
Defined.

Lemma copy_local_blocks_pending_known ids w :
  Forall (known (TransactionStore (journal w))) (PendingTransactions w) ->
  (forall k blk,
      In k ids -> BlockStore (journal w) !! k = Some blk ->
      Forall (known (TransactionStore (journal w))) (TransactionIDs blk)) ->
  Forall (known (TransactionStore (journal w)))
    (PendingTransactions (copy_local_blocks ids w)).
Proof.
  revert w. induction ids as [|k ids IH]; intros w Hp Hb; [assumption|].
  rewrite copy_local_blocks_cons.
  destruct (BlockStore (journal w) !! k) as [blk|] eqn:Hk.
  - rewrite <- (copy_local_block_journal k blk w).
    apply IH; rewrite copy_local_block_journal.
    + unfold copy_local_block. rewrite enqueue_transactions_eq. cbn.
      apply Forall_app. split; [assumption|].
      apply (Hb k blk); [now left|assumption].
    + intros k' blk' Hin. apply Hb. now right.
  - apply IH; [assumption|]. intros k' blk' Hin. apply Hb. now right.
Qed.

Lemma kick_off_next_block_all_local w :
  all_local w ->
  _kick_off_next_block w = (false, transactions_drained (blocks_drained w)).
Proof.
  intros (Hb & Hp & Ht). unfold _kick_off_next_block.
  rewrite (block_loop_all_known _ w eq_refl Hb).
  fold (blocks_drained w). unfold _kick_off_next_transaction.
  apply transaction_loop_all_known; [reflexivity|].
  unfold blocks_drained.
  change (journal (set_PendingBlocks [] (copy_local_blocks (PendingBlocks w) w)))
    with (journal (copy_local_blocks (PendingBlocks w) w)).
  rewrite copy_local_blocks_journal.
  change (PendingTransactions
            (set_PendingBlocks [] (copy_local_blocks (PendingBlocks w) w)))
    with (PendingTransactions (copy_local_blocks (PendingBlocks w) w)).
  now apply copy_local_blocks_pending_known.
Qed.

Lemma drained_frame w :
  sent (transactions_drained (blocks_drained w)) = sent w
  /\ Peer (transactions_drained (blocks_drained w)) = Peer w
  /\ PendingBlocks (transactions_drained (blocks_drained w)) = []
  /\ PendingTransactions (transactions_drained (blocks_drained w)) = []
  /\ BlockMap (transactions_drained (blocks_drained w))
     = copy_local (BlockStore (journal w)) (PendingBlocks w) (BlockMap w).
Proof.
  unfold transactions_drained, blocks_drained.
  cbn [sent Peer PendingBlocks PendingTransactions BlockMap
       set_TransactionMap set_PendingTransactions set_PendingBlocks].
  rewrite copy_local_blocks_BlockMap.
  destruct (copy_local_blocks_frame (PendingBlocks w) w)
    as (bm & tm & pt & ->).
  repeat split.
Qed.

(** X8: when every queued block, every transaction of those blocks and
    every queued transaction is in the local store, draining fetches
    nothing: the block drain answers false with both queues empty and every
    queued block resolved to its record of the store, and the block-list
    handler, on an empty page, sends the first uncommitted-list request and
    nothing else. *)
Theorem nothing_fetched_when_all_local (w : World) (Hlocal : all_local w) :
  fst (_kick_off_next_block w) = false
  /\ sent (snd (_kick_off_next_block w)) = sent w
  /\ PendingBlocks (snd (_kick_off_next_block w)) = []
  /\ PendingTransactions (snd (_kick_off_next_block w)) = []
  /\ (forall k blk,
        In k (PendingBlocks w) -> BlockStore (journal w) !! k = Some blk ->
        OrderedDict.getitem (BlockMap (snd (_kick_off_next_block w))) k
        = Some (Some blk))
  /\ forall i,
       sent (_blocklistreplyhandler i [] w)
       = sent w ++ [(UncommittedListRequestMessage 0,
                     PeerIdentifier (Peer w))].
Proof.
  rewrite (kick_off_next_block_all_local w Hlocal). cbn [fst snd].
  destruct (drained_frame w) as (Hs & Hpeer & Hb & Hp & Hm).
  split; [reflexivity|]. split; [exact Hs|]. split; [exact Hb|].
  split; [exact Hp|]. split.
  - intros k blk Hk Hst. rewrite Hm. now apply copy_local_getitem.
  - intros i.
    change (_blocklistreplyhandler i [] w)
      with (let (sent_one, w') :=
              _kick_off_next_block (block_list_complete w) in
            if sent_one then w'
            else send_message (UncommittedListRequestMessage 0) w').
    rewrite (kick_off_next_block_all_local (block_list_complete w) Hlocal).
    destruct (drained_frame (block_list_complete w)) as (Hs' & Hpeer' & _).
    unfold send_message. cbn [sent set_sent]. now rewrite Hs', Hpeer'.
Qed.

Lemma nothing_fetched_when_all_local_witness :
  fst (_kick_off_next_block b1_queued) = false
  /\ sent (snd (_kick_off_next_block b1_queued)) = sent b1_queued
  /\ PendingBlocks (snd (_kick_off_next_block b1_queued)) = []
  /\ PendingTransactions (snd (_kick_off_next_block b1_queued)) = []
  /\ (forall k blk,
        In k (PendingBlocks b1_queued) ->
        BlockStore (journal b1_queued) !! k = Some blk ->
        OrderedDict.getitem
          (BlockMap (snd (_kick_off_next_block b1_queued))) k
        = Some (Some blk))
  /\ forall i,
       sent (_blocklistreplyhandler i [] b1_queued)
       = sent b1_queued ++ [(UncommittedListRequestMessage 0,
                             PeerIdentifier (Peer b1_queued))].
Proof.
  apply (nothing_fetched_when_all_local b1_queued).
  split; [|split].
  - repeat constructor. now exists block_b1.
  - constructor.
  - intros k blk [<-|[]] Hk. vm_compute in Hk. injection Hk as <-.
    repeat constructor. now exists (txn_of "t1").
Defined.

(** ** Which handler requests what *)

Lemma body_handler_requests w1 m p :
  In (m, p) (sent_since w1 (drain_after_body w1)) ->
  requests_missing (journal w1) m.
Proof.
  destruct (drain_after_body_emits w1) as (out & He & Hf).
  rewrite (sent_since_app _ _ out) by apply He.
  destruct Hf as [->|(m' & -> & Hm)]; [easy|].
  now intros [[= <- _]|[]].
Qed.

(** X9: the handlers of block and transaction bodies send nothing but a
    request for a body missing from the store, and the uncommitted-list
    handler sends nothing but such a request or the request for its own
    next page; the first uncommitted-list request comes from the block-list
    handler only, on an empty page, and only when its drain sent nothing. *)
Theorem uncommitted_list_requested_by_block_list_handler_only (w : World) :
  (forall blk m p,
      In (m, p) (sent_since w (_blockreplyhandler blk w)) ->
      requests_missing (journal w) m)
  /\ (forall txn m p,
      In (m, p) (sent_since w (_txnreplyhandler txn w)) ->
      requests_missing (journal w) m)
  /\ (forall i ids m p,
      In (m, p) (sent_since w (_txnlistreplyhandler i ids w)) ->
      requests_missing (journal w) m
      \/ (ids <> []
          /\ m = UncommittedListRequestMessage (i + Z.of_nat (length ids))))
  /\ (forall i ids j p,
      In (UncommittedListRequestMessage j, p)
        (sent_since w (_blocklistreplyhandler i ids w)) ->
      j = 0%Z /\ ids = []
      /\ fst (_kick_off_next_block (block_list_complete w)) = false).
Proof.
  split; [|split; [|split]].
  - intros blk m p. rewrite blockreplyhandler_tail.
    destruct (block_body_stored_frame blk w) as (Hj & _ & Hs & _).
    unfold sent_since. rewrite <- Hs, <- Hj. apply body_handler_requests.
  - intros txn m p. rewrite txnreplyhandler_tail.
    apply (body_handler_requests (transaction_body_stored txn w)).
  - intros i ids m p. destruct ids as [|id ids].
    + destruct (txnlistreplyhandler_empty_emits i w) as (out & He & Hf).
      rewrite (sent_since_app _ _ out) by apply He.
      destruct Hf as [->|(m' & -> & Hm)]; [easy|].
      intros [[= <- _]|[]]. now left.
    + rewrite txnlistreplyhandler_nonempty by discriminate.
      rewrite (sent_since_app _ _ [(UncommittedListRequestMessage
                                      (i + Z.of_nat (length (id :: ids))),
                                    PeerIdentifier (Peer w))])
        by reflexivity.
      intros [[= <- _]|[]]. right. split; [discriminate|reflexivity].
  - intros i ids j p. destruct ids as [|id ids].
    + change (_blocklistreplyhandler i [] w)
        with (let (sent_one, w') :=
                _kick_off_next_block (block_list_complete w) in
              if sent_one then w'
              else send_message (UncommittedListRequestMessage 0) w').
      destruct (kick_off_next_block_emits (block_list_complete w))
        as (out & He & Hf & Hfalse & _).
      destruct (_kick_off_next_block (block_list_complete w)) as [[|] w1];
        cbn [fst snd] in *.
      * rewrite (sent_since_app _ _ out) by apply He.
        destruct Hf as [->|(m' & -> & Hm)]; [easy|].
        intros [[= -> _]|[]]. destruct Hm.
      * rewrite (Hfalse eq_refl) in He. destruct He as (Hs & _).
        rewrite app_nil_r in Hs.
        rewrite (sent_since_app _ _ [(UncommittedListRequestMessage 0,
                                      PeerIdentifier (Peer w1))])
          by (cbn; now rewrite Hs).
        intros [[= <- _]|[]]. auto.
    + rewrite blocklistreplyhandler_nonempty by discriminate.
      rewrite enqueue_blocks_eq.
      rewrite (sent_since_app _ _ [(BlockListRequestMessage
                                      (i + Z.of_nat (length (id :: ids))),
                                    PeerIdentifier (Peer w))])
        by reflexivity.
      intros [[=]|[]].
Qed.

(** ** Offsets of the page requests *)

Lemma echo_pages_nonempty offset idss :
  Forall (fun ids => ids <> []) idss -> nonempty_pages (echo_pages offset idss).
Proof.
  revert offset. induction idss as [|ids idss IH]; intros offset H;
    [constructor|].
  inversion H; subst. constructor; [assumption|now apply IH].
Qed.

Lemma echo_pages_collected offset idss :
  collected (echo_pages offset idss) = concat idss.
Proof.
  revert offset. induction idss as [|ids idss IH]; intros offset;
    [reflexivity|].
  unfold collected in *. cbn. now rewrite IH.
Qed.

Lemma echo_pages_snoc offset idss ids :
  echo_pages offset (idss ++ [ids])
  = echo_pages offset idss
    ++ [((offset + Z.of_nat (length (concat idss)))%Z, ids)].
Proof.
  revert offset. induction idss as [|ids0 idss IH]; intros offset.
  - cbn. now rewrite Z.add_0_r.
  - cbn [app echo_pages concat]. rewrite IH, length_app, Nat2Z.inj_add.
    now rewrite Z.add_assoc.
Qed.

Lemma next_page_requests_echo_snoc request peer offset idss ids :
  next_page_requests request peer (echo_pages offset (idss ++ [ids]))
  = next_page_requests request peer (echo_pages offset idss)
    ++ [(request (offset + Z.of_nat (length (concat (idss ++ [ids]))))%Z,
         PeerIdentifier peer)].
Proof.
  rewrite echo_pages_snoc. unfold next_page_requests.
  rewrite map_app. cbn [map fst snd].
  rewrite concat_app, length_app, Nat2Z.inj_add, Z.add_assoc. cbn [concat].
  now rewrite app_nil_r.
Qed.

(** X10: when the peer answers each page request at the offset asked for,
    the offset of every next-page request is the offset of the first page
    plus the number of identifiers collected so far, for the block list and
    for the uncommitted list alike: pages neither overlap nor leave a
    gap. *)
Theorem page_offset_counts_collected (w : World) (offset : Z)
    (idss : list (list Identifier)) (ids : list Identifier)
    (Hne : Forall (fun ids => ids <> []) (idss ++ [ids])) :
  let pages := echo_pages offset (idss ++ [ids]) in
  (PendingBlocks (feed_block_pages pages w)
   = PendingBlocks w ++ concat (idss ++ [ids])
   /\ sent (feed_block_pages pages w)
      = sent w
        ++ next_page_requests BlockListRequestMessage (Peer w)
             (echo_pages offset idss)
        ++ [(BlockListRequestMessage
               (offset + Z.of_nat (length (concat (idss ++ [ids])))),
             PeerIdentifier (Peer w))])
  /\ (UncommittedTransactions (feed_uncommitted_pages pages w)
      = UncommittedTransactions w ++ concat (idss ++ [ids])
      /\ sent (feed_uncommitted_pages pages w)
         = sent w
           ++ next_page_requests UncommittedListRequestMessage (Peer w)
                (echo_pages offset idss)
           ++ [(UncommittedListRequestMessage
                  (offset + Z.of_nat (length (concat (idss ++ [ids])))),
                PeerIdentifier (Peer w))]).
Proof.
  cbn zeta.
  pose proof (echo_pages_nonempty offset _ Hne) as Hpages.
  destruct (feed_block_pages_nonempty _ w Hpages) as (Hb & _ & Hs & _).
  destruct (feed_uncommitted_pages_nonempty _ w Hpages) as (Hu & Hs' & _).
  rewrite Hb, Hs, Hu, Hs', echo_pages_collected,
    !next_page_requests_echo_snoc.
  now repeat split.
Qed.

Lemma page_offset_counts_collected_witness :
  let pages := echo_pages 0 ([["b1"; "b2"]; ["b3"]] ++ [["b4"; "b5"]]) in
  (PendingBlocks (feed_block_pages pages started)
   = PendingBlocks started ++ concat ([["b1"; "b2"]; ["b3"]] ++ [["b4"; "b5"]])
   /\ sent (feed_block_pages pages started)
      = sent started
        ++ next_page_requests BlockListRequestMessage (Peer started)
             (echo_pages 0 [["b1"; "b2"]; ["b3"]])
        ++ [(BlockListRequestMessage
               (0 + Z.of_nat
                      (length (concat ([["b1"; "b2"]; ["b3"]]
                                       ++ [["b4"; "b5"]])))),
             PeerIdentifier (Peer started))])
  /\ (UncommittedTransactions (feed_uncommitted_pages pages started)
      = UncommittedTransactions started
        ++ concat ([["b1"; "b2"]; ["b3"]] ++ [["b4"; "b5"]])
      /\ sent (feed_uncommitted_pages pages started)
         = sent started
           ++ next_page_requests UncommittedListRequestMessage (Peer started)
                (echo_pages 0 [["b1"; "b2"]; ["b3"]])
           ++ [(UncommittedListRequestMessage
                  (0 + Z.of_nat
                         (length (concat ([["b1"; "b2"]; ["b3"]]
                                          ++ [["b4"; "b5"]])))),
                PeerIdentifier (Peer started))]).
Proof.
  apply (page_offset_counts_collected started 0
           [["b1"; "b2"]; ["b3"]] ["b4"; "b5"]).
  repeat constructor; discriminate.
Defined.

(** ** Queued identifiers have map entries *)

Lemma mark_pending_keys_incl {V : Type} ids (d : OrderedDict (option V)) k :
  In k (OrderedDict.keys d) -> In k (OrderedDict.keys (mark_pending ids d)).
Proof.
  revert d. induction ids as [|k' ids IH]; intros d Hin; [assumption|].
  rewrite mark_pending_cons. now apply IH, setitem_keys_incl.
Qed.

Lemma mark_pending_keys_self {V : Type} ids (d : OrderedDict (option V)) k :
  In k ids -> In k (OrderedDict.keys (mark_pending ids d)).
Proof.
  revert d. induction ids as [|k' ids IH]; intros d Hin; [easy|].
  rewrite mark_pending_cons. destruct Hin as [->|Hin]; [|now apply IH].
  apply mark_pending_keys_incl, setitem_keys_self.
Qed.

Lemma queues_have_entries_frame w w' :
  BlockMap w' = BlockMap w -> PendingBlocks w' = PendingBlocks w ->
  TransactionMap w' = TransactionMap w ->
  PendingTransactions w' = PendingTransactions w ->
  queues_have_entries w -> queues_have_entries w'.
Proof. unfold queues_have_entries. now intros -> -> -> ->. Qed.

Lemma queues_have_entries_enqueue_transactions ids w :
  queues_have_entries w -> queues_have_entries (enqueue_transactions ids w).
Proof.
  intros (Hb & Ht). rewrite enqueue_transactions_eq. split; cbn; [exact Hb|].
  intros k Hk. apply in_app_or in Hk as [Hk|Hk].
  - now apply mark_pending_keys_incl, Ht.
  - now apply mark_pending_keys_self.
Qed.

Lemma queues_have_entries_enqueue_blocks ids w :
  queues_have_entries w -> queues_have_entries (enqueue_blocks ids w).
Proof.
  intros (Hb & Ht). rewrite enqueue_blocks_eq. split; cbn; [|exact Ht].
  intros k Hk. apply in_app_or in Hk as [Hk|Hk].
  - now apply mark_pending_keys_incl, Hb.
  - now apply mark_pending_keys_self.
Qed.

Lemma queues_have_entries_store_block k v w :
  queues_have_entries w ->
  queues_have_entries
    (set_BlockMap (OrderedDict.setitem (BlockMap w) k v) w).
Proof.
  intros (Hb & Ht). split; cbn; [|exact Ht].
  intros k' Hk'. now apply setitem_keys_incl, Hb.
Qed.

Lemma queues_have_entries_store_transaction k v w :
  queues_have_entries w ->
  queues_have_entries
    (set_TransactionMap (OrderedDict.setitem (TransactionMap w) k v) w).
Proof.
  intros (Hb & Ht). split; cbn; [exact Hb|].
  intros k' Hk'. now apply setitem_keys_incl, Ht.
Qed.

Lemma queues_have_entries_kick_off_next_transaction w :
  queues_have_entries w ->
  queues_have_entries (snd (_kick_off_next_transaction w)).
Proof.
  intros (Hb & Ht).
  destruct (kick_off_next_transaction_cases w)
    as [(locals & id & rest & Hp & Hl & Hm & ->)|[Hall ->]];
    split; cbn; try exact Hb; [|easy].
  intros k Hk. apply copy_local_keys_incl, Ht. rewrite Hp.
  apply in_or_app. right. now right.
Qed.

Lemma queues_have_entries_copy_local_blocks ids w :
  queues_have_entries w -> queues_have_entries (copy_local_blocks ids w).
Proof.
  revert w. induction ids as [|k ids IH]; intros w Hq; [assumption|].
  rewrite copy_local_blocks_cons.
  destruct (BlockStore (journal w) !! k) as [blk|]; [|now apply IH].
  apply IH. unfold copy_local_block.
  now apply queues_have_entries_enqueue_transactions,
    queues_have_entries_store_block.
Qed.

Lemma copy_local_blocks_PendingBlocks ids w :
  PendingBlocks (copy_local_blocks ids w) = PendingBlocks w.
Proof. now destruct (copy_local_blocks_frame ids w) as (bm & tm & pt & ->). Qed.

Lemma queues_have_entries_shorter_block_queue rest w :
  (forall k, In k rest -> In k (PendingBlocks w)) ->
  queues_have_entries w -> queues_have_entries (set_PendingBlocks rest w).
Proof. intros Hr (Hb & Ht). split; cbn; auto. Qed.

Lemma queues_have_entries_kick_off_next_block w :
  queues_have_entries w ->
  queues_have_entries (snd (_kick_off_next_block w)).
Proof.
  intros Hq.
  destruct (kick_off_next_block_cases w)
    as [(locals & id & rest & Hp & Hl & Hm & ->)|[Hall ->]].
  - cbn [snd].
    apply (queues_have_entries_frame
             (set_PendingBlocks rest (copy_local_blocks locals w)));
      try reflexivity.
    apply queues_have_entries_shorter_block_queue;
      [|now apply queues_have_entries_copy_local_blocks].
    intros k Hk. rewrite copy_local_blocks_PendingBlocks, Hp.
    apply in_or_app. right. now right.
  - apply queues_have_entries_kick_off_next_transaction.
    apply queues_have_entries_shorter_block_queue; [easy|].
    now apply queues_have_entries_copy_local_blocks.
Qed.

Lemma queues_have_entries_finish w :
  queues_have_entries w -> queues_have_entries (_finish w).
Proof.
  destruct (finish_frame w) as (d & jc & lg & -> & _).
  now apply queues_have_entries_frame.
Qed.

Lemma queues_have_entries_handleuncommitted w :
  queues_have_entries w -> queues_have_entries (_handleuncommitted w).
Proof.
  intros Hq. unfold _handleuncommitted.
  set (w0 := logger _ w).
  assert (H0 : queues_have_entries w0) by exact Hq.
  destruct (negb (ProcessingUncommitted w0) && _).
  - set (w1 := enqueue_transactions _ _).
    assert (H1 : queues_have_entries w1).
    { unfold w1. apply queues_have_entries_enqueue_transactions. exact H0. }
    pose proof (queues_have_entries_kick_off_next_transaction w1 H1) as H2.
    destruct (_kick_off_next_transaction w1) as [[|] w2]; cbn [snd] in H2;
      [exact H2|now apply queues_have_entries_finish].
  - now apply queues_have_entries_finish.
Qed.

Lemma queues_have_entries_drain_after_body w1 :
  queues_have_entries w1 -> queues_have_entries (drain_after_body w1).
Proof.
  intros H1. unfold drain_after_body.
  pose proof (queues_have_entries_kick_off_next_transaction w1 H1) as H2.
  destruct (_kick_off_next_transaction w1) as [[|] w2]; cbn [snd] in H2;
    [exact H2|].
  pose proof (queues_have_entries_kick_off_next_block w2 H2) as H3.
  destruct (_kick_off_next_block w2) as [[|] w3]; cbn [snd] in H3;
    [exact H3|now apply queues_have_entries_handleuncommitted].
Qed.

Lemma queues_have_entries_dispatch r w :
  queues_have_entries w -> queues_have_entries (dispatch r w).
Proof.
  intros Hq. unfold dispatch.
  destruct (handler_of (dispatcher w) (kind_of r)) as [h|]; [|exact Hq].
  destruct h; destruct r as [i ids|blk|i ids|txn|]; cbn [run_handler];
    try exact Hq.
  - destruct ids as [|id ids].
    + change (_blocklistreplyhandler i [] w)
        with (let (sent_one, w') :=
                _kick_off_next_block (block_list_complete w) in
              if sent_one then w'
              else send_message (UncommittedListRequestMessage 0) w').
      pose proof (queues_have_entries_kick_off_next_block
                    (block_list_complete w) Hq) as H1.
      destruct (_kick_off_next_block (block_list_complete w)) as [[|] w1];
        exact H1.
    + rewrite blocklistreplyhandler_nonempty by discriminate.
      exact (queues_have_entries_enqueue_blocks (id :: ids)
               (block_list_complete w) Hq).
  - rewrite blockreplyhandler_tail.
    apply queues_have_entries_drain_after_body. unfold block_body_stored.
    apply queues_have_entries_enqueue_transactions.
    exact (queues_have_entries_store_block (BlockIdentifier blk) (Some blk)
             (logger (LogInfo "received block") w) Hq).
  - destruct ids as [|id ids].
    + change (_txnlistreplyhandler i [] w)
        with (let (sent_one, w') :=
                _kick_off_next_block (uncommitted_list_complete w) in
              if sent_one then w' else _handleuncommitted w').
      pose proof (queues_have_entries_kick_off_next_block
                    (uncommitted_list_complete w) Hq) as H1.
      destruct (_kick_off_next_block (uncommitted_list_complete w))
        as [[|] w1]; cbn [snd] in H1;
        [exact H1|now apply queues_have_entries_handleuncommitted].
    + rewrite txnlistreplyhandler_nonempty by discriminate. exact Hq.
  - rewrite txnreplyhandler_tail.
    apply queues_have_entries_drain_after_body.
    exact (queues_have_entries_store_transaction (TxnIdentifier txn)
             (Some txn) (logger (LogDebug "received transaction") w) Hq).
Qed.

Lemma queues_have_entries_initiate rnd w :
  queues_have_entries w ->
  queues_have_entries (initiate_journal_transfer rnd w).
Proof.
  intros Hq. unfold initiate_journal_transfer.
  destruct (peer_list w); [exact Hq|]. now split.
Qed.

(** No event breaks [queues_have_entries]. *)
Lemma queues_have_entries_handle_event (e : Event) (w : World)
    (Hq : queues_have_entries w) :
  queues_have_entries (handle_event e w).
Proof.
  destruct e as [r|rnd|peers]; cbn [handle_event].
  - now apply queues_have_entries_dispatch.
  - destruct (timers w) as [|[d []] ts]; [exact Hq|]. cbn [run_deferred].
    now apply queues_have_entries_initiate.
  - exact Hq.
Qed.

(** ** One peer, and one step forward per reply *)

Lemma one_fetch_addressed w out m p :
  one_fetch w out -> In (m, p) out -> p = PeerIdentifier (Peer w).
Proof.
  intros [->|(m' & -> & _)]; [easy|]. now intros [[= _ <-]|[]].
Qed.

(** X12: a session talks to one peer: handling a received message never
    changes the session's peer, and every message sent while handling it is
    addressed to that peer. *)
Theorem messages_go_to_session_peer (r : Reply) (w : World) :
  Peer (dispatch r w) = Peer w
  /\ forall m p,
       In (m, p) (sent_since w (dispatch r w)) -> p = PeerIdentifier (Peer w).
Proof.
  unfold dispatch.
  destruct (handler_of (dispatcher w) (kind_of r)) as [h|].
  2:{ split; [reflexivity|]. intros m p.
      rewrite (sent_since_app w w []) by now rewrite app_nil_r. easy. }
  assert (Hquiet : forall w', sent w' = sent w -> Peer w' = Peer w ->
            Peer w' = Peer w
            /\ forall m p, In (m, p) (sent_since w w') ->
                           p = PeerIdentifier (Peer w)).
  { intros w' Hs Hp. split; [exact Hp|]. intros m p.
    rewrite (sent_since_app w w' []) by now rewrite app_nil_r. easy. }
  assert (Hbody : forall w1, emits w w1 [] ->
            Peer (drain_after_body w1) = Peer w
            /\ forall m p, In (m, p) (sent_since w (drain_after_body w1)) ->
                           p = PeerIdentifier (Peer w)).
  { intros w1 H1.
    destruct (drain_after_body_emits w1) as (out & He & Hf).
    pose proof (emits_after_silent _ _ _ _ H1 He) as H.
    split; [exact (emits_peer _ _ _ H)|]. intros m p.
    rewrite (sent_since_app _ _ out) by apply H.
    apply one_fetch_addressed. exact (one_fetch_after _ _ _ _ H1 Hf). }
  destruct h; destruct r as [i ids|blk|i ids|txn|]; cbn [run_handler];
    try (now apply Hquiet).
  - destruct ids as [|id ids].
    + destruct (blocklistreplyhandler_empty_emits i w) as (out & He & Hout).
      split; [exact (emits_peer _ _ _ He)|]. intros m p.
      rewrite (sent_since_app _ _ out) by apply He.
      destruct Hout as [[Hf _]| ->]; [now apply one_fetch_addressed|].
      now intros [[= _ <-]|[]].
    + rewrite blocklistreplyhandler_nonempty by discriminate.
      rewrite enqueue_blocks_eq. split; [reflexivity|]. intros m p.
      rewrite (sent_since_app _ _ [(BlockListRequestMessage
                                      (i + Z.of_nat (length (id :: ids))),
                                    PeerIdentifier (Peer w))])
        by reflexivity.
      now intros [[= _ <-]|[]].
  - rewrite blockreplyhandler_tail. apply Hbody, block_body_stored_emits.
  - destruct ids as [|id ids].
    + destruct (txnlistreplyhandler_empty_emits i w) as (out & He & Hf).
      split; [exact (emits_peer _ _ _ He)|]. intros m p.
      rewrite (sent_since_app _ _ out) by apply He.
      now apply one_fetch_addressed.
    + rewrite txnlistreplyhandler_nonempty by discriminate.
      split; [reflexivity|]. intros m p.
      rewrite (sent_since_app _ _ [(UncommittedListRequestMessage
                                      (i + Z.of_nat (length (id :: ids))),
                                    PeerIdentifier (Peer w))])
        by reflexivity.
      now intros [[= _ <-]|[]].
  - rewrite txnreplyhandler_tail.
    apply Hbody, transaction_body_stored_emits.
Qed.

Lemma silent_refl w : silent w w.
Proof. unfold silent, steady. auto. Qed.

Lemma silent_trans w1 w2 w3 : silent w1 w2 -> silent w2 w3 -> silent w1 w3.
Proof.
  unfold silent. intros (-> & -> & H1) (-> & -> & H2).
  split; [reflexivity|]. split; [reflexivity|].
  exact (steady_trans _ _ _ H1 H2).
Qed.

Lemma progress_after_silent w w1 w' :
  silent w w1 -> progress w1 w' -> progress w w'.
Proof.
  intros (Hs & Hp & Hj & Hc & Ht)
         [(rq & Hs' & Hj' & Hc')|(Hs' & Hc' & Hh & Hb & Hq & Ht')].
  - left. exists rq. now rewrite Hs', Hj', Hc', Hs, Hp, Hj, Hc.
  - right. unfold commits. now rewrite Hs', Hc', Ht', Hs, Hc, Ht.
Qed.

(** A drain either sent one request, or sent nothing and emptied its queue;
    it leaves the journal, the callback count and the timers alone. *)
Lemma kick_off_next_transaction_step w :
  (fst (_kick_off_next_transaction w) = true
   /\ exists request,
        sent (snd (_kick_off_next_transaction w))
        = sent w ++ [(request, PeerIdentifier (Peer w))]
        /\ steady w (snd (_kick_off_next_transaction w)))
  \/ (fst (_kick_off_next_transaction w) = false
      /\ silent w (snd (_kick_off_next_transaction w))
      /\ PendingTransactions (snd (_kick_off_next_transaction w)) = []
      /\ PendingBlocks (snd (_kick_off_next_transaction w))
         = PendingBlocks w).
Proof.
  destruct (kick_off_next_transaction_steady w) as (Hst & Hpb & Hfalse).
  destruct (kick_off_next_transaction_emits w) as (out & He & Hf & Hnil & Hne).
  destruct (fst (_kick_off_next_transaction w)) eqn:E.
  - left. split; [reflexivity|].
    destruct Hf as [->|(m & -> & _)]; [now specialize (Hne eq_refl)|].
    exists m. split; [apply He|exact Hst].
  - right. split; [reflexivity|]. rewrite (Hnil eq_refl) in He.
    destruct He as (Hs & _ & Hp & _). rewrite app_nil_r in Hs.
    unfold silent. auto.
Qed.

Lemma kick_off_next_block_step w :
  (fst (_kick_off_next_block w) = true
   /\ exists request,
        sent (snd (_kick_off_next_block w))
        = sent w ++ [(request, PeerIdentifier (Peer w))]
        /\ steady w (snd (_kick_off_next_block w)))
  \/ (fst (_kick_off_next_block w) = false
      /\ silent w (snd (_kick_off_next_block w))
      /\ PendingBlocks (snd (_kick_off_next_block w)) = []
      /\ PendingTransactions (snd (_kick_off_next_block w)) = []).
Proof.
  destruct (kick_off_next_block_steady w) as (Hst & Hfalse).
  destruct (kick_off_next_block_emits w) as (out & He & Hf & Hnil & Hne).
  destruct (fst (_kick_off_next_block w)) eqn:E.
  - left. split; [reflexivity|].
    destruct Hf as [->|(m & -> & _)]; [now specialize (Hne eq_refl)|].
    exists m. split; [apply He|exact Hst].
  - right. split; [reflexivity|]. rewrite (Hnil eq_refl) in He.
    destruct He as (Hs & _ & Hp & _). rewrite app_nil_r in Hs.
    destruct (Hfalse eq_refl). unfold silent. auto.
Qed.

Lemma finish_progress w :
  PendingBlocks w = [] -> PendingTransactions w = [] -> progress w (_finish w).
Proof.
  intros Hb Hp. right. split; [|now apply finish_commits].
  destruct (finish_emits w) as (-> & _). now rewrite app_nil_r.
Qed.

Lemma handleuncommitted_progress w :
  PendingBlocks w = [] -> PendingTransactions w = [] ->
  progress w (_handleuncommitted w).
Proof.
  intros Hb Hp. unfold _handleuncommitted.
  set (w0 := logger _ w).
  assert (H0 : silent w w0) by (unfold silent, steady; auto).
  destruct (negb (ProcessingUncommitted w0) && _).
  - set (w1 := enqueue_transactions _ _).
    assert (H1 : silent w w1 /\ PendingBlocks w1 = []).
    { unfold w1. rewrite enqueue_transactions_eq.
      unfold silent, steady. auto. }
    destruct H1 as (H1 & Hb1).
    apply (progress_after_silent _ w1 _ H1).
    destruct (kick_off_next_transaction_step w1)
      as [(E & rq & Hs & Hj & Hc & _)|(E & Hsil & Hpt & Hpb)];
      destruct (_kick_off_next_transaction w1) as [b w2];
      cbn [fst snd] in *; subst b.
    + left. now exists rq.
    + apply (progress_after_silent _ w2 _ Hsil).
      apply finish_progress; congruence.
  - apply (progress_after_silent _ w0 _ H0). now apply finish_progress.
Qed.

Lemma drain_after_body_progress w1 : progress w1 (drain_after_body w1).
Proof.
  unfold drain_after_body.
  destruct (kick_off_next_transaction_step w1)
    as [(E & rq & Hs & Hj & Hc & _)|(E & Hsil & Hpt & Hpb)];
    destruct (_kick_off_next_transaction w1) as [b w2];
    cbn [fst snd] in *; subst b.
  - left. now exists rq.
  - apply (progress_after_silent _ w2 _ Hsil).
    destruct (kick_off_next_block_step w2)
      as [(E & rq & Hs & Hj & Hc & _)|(E & Hsil2 & Hb & Hp)];
      destruct (_kick_off_next_block w2) as [b w3];
      cbn [fst snd] in *; subst b.
    + left. now exists rq.
    + apply (progress_after_silent _ w3 _ Hsil2).
      now apply handleuncommitted_progress.
Qed.

(** X13: the session never stalls on a reply: with the session's handlers
    registered, handling a block-list page, a block body, an
    uncommitted-list page or a transaction body either sends exactly one
    request, to the session's peer, and leaves the journal alone, or sends
    nothing and runs the commit phase. *)
Theorem every_reply_makes_progress (r : Reply) (w : World)
    (Hregistered : handler_of (dispatcher w) (kind_of r)
                   = Some (session_handler (kind_of r)))
    (Hreply : r <> TransferFailedMessage) :
  progress w (dispatch r w).
Proof.
  unfold dispatch. rewrite Hregistered.
  destruct r as [i ids|blk|i ids|txn|]; cbn [kind_of session_handler
                                             run_handler]; [| | | |easy].
  - destruct ids as [|id ids].
    + change (_blocklistreplyhandler i [] w)
        with (let (sent_one, w') :=
                _kick_off_next_block (block_list_complete w) in
              if sent_one then w'
              else send_message (UncommittedListRequestMessage 0) w').
      apply (progress_after_silent _ (block_list_complete w));
        [unfold silent, steady; auto|].
      destruct (kick_off_next_block_step (block_list_complete w))
        as [(E & rq & Hs & Hj & Hc & _)|(E & (Hs & Hp & Hj & Hc & _) & _)];
        destruct (_kick_off_next_block (block_list_complete w)) as [b w1];
        cbn [fst snd] in *; subst b.
      * left. now exists rq.
      * left. exists (UncommittedListRequestMessage 0).
        unfold send_message. cbn. now rewrite Hs, Hp.
    + rewrite blocklistreplyhandler_nonempty by discriminate.
      rewrite enqueue_blocks_eq. left. eexists. repeat split.
  - rewrite blockreplyhandler_tail.
    apply (progress_after_silent _ (block_body_stored blk w)).
    + unfold block_body_stored. rewrite enqueue_transactions_eq.
      unfold silent, steady. auto.
    + apply drain_after_body_progress.
  - destruct ids as [|id ids].
    + change (_txnlistreplyhandler i [] w)
        with (let (sent_one, w') :=
                _kick_off_next_block (uncommitted_list_complete w) in
              if sent_one then w' else _handleuncommitted w').
      apply (progress_after_silent _ (uncommitted_list_complete w));
        [unfold silent, steady; auto|].
      destruct (kick_off_next_block_step (uncommitted_list_complete w))
        as [(E & rq & Hs & Hj & Hc & _)|(E & Hsil & Hb & Hp)];
        destruct (_kick_off_next_block (uncommitted_list_complete w))
          as [b w1];
        cbn [fst snd] in *; subst b.
      * left. now exists rq.
      * apply (progress_after_silent _ w1 _ Hsil).
        now apply handleuncommitted_progress.
    + rewrite txnlistreplyhandler_nonempty by discriminate.
      left. eexists. repeat split.
  - rewrite txnreplyhandler_tail.
    apply (progress_after_silent _ (transaction_body_stored txn w));
      [unfold silent, steady; auto|apply drain_after_body_progress].
Qed.

Lemma every_reply_makes_progress_witness :
  progress uncommitted_requested
    (dispatch (UncommittedListReplyMessage 0 []) uncommitted_requested).
Proof.
  apply (every_reply_makes_progress (UncommittedListReplyMessage 0 [])
           uncommitted_requested); [reflexivity|discriminate].
Defined.

(** ** Instances of the statements that carry a condition *)

Lemma commit_phase_trace_witness :
  exists new,
    journal_calls (_finish (staged_world second_fails))
    = journal_calls (staged_world second_fails) ++ new
    /\ (new = map applied
                (pending_submissions (staged_world second_fails)
                 ++ block_submissions (staged_world second_fails))
        \/ exists pre c post e,
             pending_submissions (staged_world second_fails)
             ++ block_submissions (staged_world second_fails)
             = pre ++ c :: post
             /\ new = map applied pre ++ [(c, Some e)])
    /\ (forall blk outcome,
          In (CommitTransactionBlock blk, outcome) new ->
          forall c,
            In c (pending_submissions (staged_world second_fails)) ->
            In (applied c) new).
Proof. exact (commit_phase_trace (staged_world second_fails)). Defined.

Lemma uncommitted_list_requested_by_block_list_handler_only_witness :
  0%Z = 0%Z /\ @nil Identifier = []
  /\ fst (_kick_off_next_block (block_list_complete started)) = false.
Proof.
  apply (proj2 (proj2 (proj2
           (uncommitted_list_requested_by_block_list_handler_only started)))
           0%Z [] 0%Z "p1").
  vm_compute. left. reflexivity.
Defined.

Lemma messages_go_to_session_peer_witness :
  Peer (dispatch (BlockListReplyMessage 0 ["b1"]) started) = Peer started
  /\ forall m p,
       In (m, p)
         (sent_since started
            (dispatch (BlockListReplyMessage 0 ["b1"]) started)) ->
       p = PeerIdentifier (Peer started).
Proof.
  exact (messages_go_to_session_peer (BlockListReplyMessage 0 ["b1"]) started).
Defined.

(** * The drains, on their results *)

Lemma mark_pending_app {V : Type} a b (d : OrderedDict (option V)) :
  mark_pending (a ++ b) d = mark_pending b (mark_pending a d).
Proof. unfold mark_pending. apply fold_left_app. Qed.

Lemma block_transactions_cons store k ids :
  block_transactions store (k :: ids)
  = match store !! k with
    | Some blk => TransactionIDs blk
    | None => []
    end ++ block_transactions store ids.
Proof. reflexivity. Qed.

Lemma copy_local_blocks_transactions ids w :
  TransactionMap (copy_local_blocks ids w)
  = mark_pending (block_transactions (BlockStore (journal w)) ids)
      (TransactionMap w)
  /\ PendingTransactions (copy_local_blocks ids w)
     = PendingTransactions w
       ++ block_transactions (BlockStore (journal w)) ids.
Proof.
  revert w. induction ids as [|k ids IH]; intros w.
  - cbn. now rewrite app_nil_r.
  - rewrite copy_local_blocks_cons, block_transactions_cons.
    destruct (BlockStore (journal w) !! k) as [blk|] eqn:Hk;
      [|exact (IH w)].
    destruct (IH (copy_local_block k blk w)) as (-> & ->).
    rewrite copy_local_block_journal.
    unfold copy_local_block. rewrite enqueue_transactions_eq. cbn.
    now rewrite mark_pending_app, app_assoc.
Qed.

(** The block drain that meets a block missing from the store: what it
    returns, field by field. *)
Lemma kick_off_next_block_stops_at_missing w locals id rest :
  PendingBlocks w = locals ++ id :: rest ->
  Forall (known (BlockStore (journal w))) locals ->
  BlockStore (journal w) !! id = None ->
  fst (_kick_off_next_block w) = true
  /\ sent (snd (_kick_off_next_block w))
     = sent w ++ [(BlockRequestMessage id, PeerIdentifier (Peer w))]
  /\ PendingBlocks (snd (_kick_off_next_block w)) = rest
  /\ BlockMap (snd (_kick_off_next_block w))
     = copy_local (BlockStore (journal w)) locals (BlockMap w)
  /\ TransactionMap (snd (_kick_off_next_block w))
     = mark_pending (block_transactions (BlockStore (journal w)) locals)
         (TransactionMap w)
  /\ PendingTransactions (snd (_kick_off_next_block w))
     = PendingTransactions w
       ++ block_transactions (BlockStore (journal w)) locals.
Proof.
  intros Hq Hl Hm. unfold _kick_off_next_block.
  rewrite Hq, block_loop_first_missing by assumption. cbn [fst snd].
  destruct (copy_local_blocks_transactions locals w) as (Htm & Hpt).
  pose proof (copy_local_blocks_BlockMap locals w) as Hbm.
  destruct (copy_local_blocks_frame locals w) as (bm & tm & pt & Hf).
  split; [reflexivity|]. split; [now rewrite Hf|].
  split; [reflexivity|]. split; [exact Hbm|]. split; [exact Htm|exact Hpt].
Qed.

(** The transaction drain that meets a transaction missing from the
    store. *)
Lemma kick_off_next_transaction_stops_at_missing w locals id rest :
  PendingTransactions w = locals ++ id :: rest ->
  Forall (known (TransactionStore (journal w))) locals ->
  TransactionStore (journal w) !! id = None ->
  fst (_kick_off_next_transaction w) = true
  /\ sent (snd (_kick_off_next_transaction w))
     = sent w ++ [(TransactionRequestMessage id, PeerIdentifier (Peer w))]
  /\ PendingTransactions (snd (_kick_off_next_transaction w)) = rest
  /\ TransactionMap (snd (_kick_off_next_transaction w))
     = copy_local (TransactionStore (journal w)) locals (TransactionMap w)
  /\ BlockMap (snd (_kick_off_next_transaction w)) = BlockMap w
  /\ PendingBlocks (snd (_kick_off_next_transaction w)) = PendingBlocks w.
Proof.
  intros Hq Hl Hm. unfold _kick_off_next_transaction.
  rewrite Hq, transaction_loop_first_missing by assumption.
  repeat split.
Qed.

(** The transaction drain that finds every queued transaction in the
    store. *)
Lemma kick_off_next_transaction_all_known w :
  Forall (known (TransactionStore (journal w))) (PendingTransactions w) ->
  fst (_kick_off_next_transaction w) = false
  /\ sent (snd (_kick_off_next_transaction w)) = sent w
  /\ PendingTransactions (snd (_kick_off_next_transaction w)) = []
  /\ TransactionMap (snd (_kick_off_next_transaction w))
     = copy_local (TransactionStore (journal w)) (PendingTransactions w)
         (TransactionMap w)
  /\ BlockMap (snd (_kick_off_next_transaction w)) = BlockMap w
  /\ PendingBlocks (snd (_kick_off_next_transaction w)) = PendingBlocks w.
Proof.
  intros Hl. unfold _kick_off_next_transaction.
  rewrite (transaction_loop_all_known _ w eq_refl Hl). repeat split.
Qed.

Lemma blocks_drained_fields w :
  journal (blocks_drained w) = journal w
  /\ sent (blocks_drained w) = sent w
  /\ Peer (blocks_drained w) = Peer w
  /\ PendingBlocks (blocks_drained w) = []
  /\ BlockMap (blocks_drained w)
     = copy_local (BlockStore (journal w)) (PendingBlocks w) (BlockMap w)
  /\ TransactionMap (blocks_drained w)
     = mark_pending
         (block_transactions (BlockStore (journal w)) (PendingBlocks w))
         (TransactionMap w)
  /\ PendingTransactions (blocks_drained w)
     = PendingTransactions w
       ++ block_transactions (BlockStore (journal w)) (PendingBlocks w).
Proof.
  unfold blocks_drained.
  destruct (copy_local_blocks_transactions (PendingBlocks w) w) as (Htm & Hpt).
  pose proof (copy_local_blocks_BlockMap (PendingBlocks w) w) as Hbm.
  pose proof (copy_local_blocks_journal (PendingBlocks w) w) as Hj.
  destruct (copy_local_blocks_frame (PendingBlocks w) w)
    as (bm & tm & pt & Hf).
  split; [exact Hj|]. split; [now rewrite Hf|]. split; [now rewrite Hf|].
  split; [reflexivity|]. split; [exact Hbm|]. split; [exact Htm|exact Hpt].
Qed.

Lemma kick_off_next_block_falls_through w :
  Forall (known (BlockStore (journal w))) (PendingBlocks w) ->
  _kick_off_next_block w = _kick_off_next_transaction (blocks_drained w).
Proof.
  intros Hl. unfold _kick_off_next_block.
  now rewrite (block_loop_all_known _ w eq_refl Hl).
Qed.

(** C5: an identifier popped from a queue while the local store holds it is
    not requested.  Stated on what each drain returns: the identifiers
    popped before the drain stops are resolved, in its map, to their records
    of the store; for a popped block, the identifiers of its transactions
    are appended, in order, to the transaction map and queue; the only
    message sent, if any, is the request for the first identifier missing
    from the store, and every request a drain sends names an identifier the
    store does not hold. *)
Theorem local_items_are_never_requested (w : World) :
  (forall locals id rest,
      PendingBlocks w = locals ++ id :: rest ->
      Forall (known (BlockStore (journal w))) locals ->
      BlockStore (journal w) !! id = None ->
      let r := snd (_kick_off_next_block w) in
      sent r = sent w ++ [(BlockRequestMessage id, PeerIdentifier (Peer w))]
      /\ (forall k blk,
            In k locals -> BlockStore (journal w) !! k = Some blk ->
            OrderedDict.getitem (BlockMap r) k = Some (Some blk))
      /\ BlockMap r
         = copy_local (BlockStore (journal w)) locals (BlockMap w)
      /\ TransactionMap r
         = mark_pending (block_transactions (BlockStore (journal w)) locals)
             (TransactionMap w)
      /\ PendingTransactions r
         = PendingTransactions w
           ++ block_transactions (BlockStore (journal w)) locals
      /\ PendingBlocks r = rest)
  /\ (Forall (known (BlockStore (journal w))) (PendingBlocks w) ->
      let r := snd (_kick_off_next_block w) in
      let appended :=
        block_transactions (BlockStore (journal w)) (PendingBlocks w) in
      (forall k blk,
          In k (PendingBlocks w) -> BlockStore (journal w) !! k = Some blk ->
          OrderedDict.getitem (BlockMap r) k = Some (Some blk))
      /\ BlockMap r
         = copy_local (BlockStore (journal w)) (PendingBlocks w) (BlockMap w)
      /\ PendingBlocks r = []
      /\ (forall m p k, In (m, p) (sent_since w r) ->
                        m <> BlockRequestMessage k)
      /\ (forall tlocals tid trest,
            PendingTransactions w ++ appended = tlocals ++ tid :: trest ->
            Forall (known (TransactionStore (journal w))) tlocals ->
            TransactionStore (journal w) !! tid = None ->
            sent r = sent w ++ [(TransactionRequestMessage tid,
                                 PeerIdentifier (Peer w))]
            /\ TransactionMap r
               = copy_local (TransactionStore (journal w)) tlocals
                   (mark_pending appended (TransactionMap w))
            /\ PendingTransactions r = trest)
      /\ (Forall (known (TransactionStore (journal w)))
            (PendingTransactions w ++ appended) ->
          sent r = sent w
          /\ TransactionMap r
             = copy_local (TransactionStore (journal w))
                 (PendingTransactions w ++ appended)
                 (mark_pending appended (TransactionMap w))
          /\ PendingTransactions r = []))
  /\ (forall locals id rest,
      PendingTransactions w = locals ++ id :: rest ->
      Forall (known (TransactionStore (journal w))) locals ->
      TransactionStore (journal w) !! id = None ->
      let r := snd (_kick_off_next_transaction w) in
      sent r = sent w ++ [(TransactionRequestMessage id,
                           PeerIdentifier (Peer w))]
      /\ (forall k txn,
            In k locals -> TransactionStore (journal w) !! k = Some txn ->
            OrderedDict.getitem (TransactionMap r) k = Some (Some txn))
      /\ TransactionMap r
         = copy_local (TransactionStore (journal w)) locals (TransactionMap w)
      /\ PendingTransactions r = rest)
  /\ (Forall (known (TransactionStore (journal w))) (PendingTransactions w) ->
      let r := snd (_kick_off_next_transaction w) in
      sent r = sent w
      /\ (forall k txn,
            In k (PendingTransactions w) ->
            TransactionStore (journal w) !! k = Some txn ->
            OrderedDict.getitem (TransactionMap r) k = Some (Some txn))
      /\ TransactionMap r
         = copy_local (TransactionStore (journal w)) (PendingTransactions w)
             (TransactionMap w)
      /\ PendingTransactions r = [])
  /\ (forall m p,
      In (m, p) (sent_since w (snd (_kick_off_next_block w))) ->
      requests_missing (journal w) m)
  /\ (forall m p,
      In (m, p) (sent_since w (snd (_kick_off_next_transaction w))) ->
      requests_missing (journal w) m).
Proof.
  split; [|split; [|split; [|split; [|split]]]].
  - intros locals id rest Hq Hl Hm. cbn zeta.
    destruct (kick_off_next_block_stops_at_missing w locals id rest Hq Hl Hm)
      as (_ & Hs & Hpb & Hbm & Htm & Hpt).
    split; [exact Hs|]. split.
    { intros k blk Hk Hst. rewrite Hbm. now apply copy_local_getitem. }
    auto.
  - intros Hl. cbn zeta. rewrite (kick_off_next_block_falls_through w Hl).
    destruct (blocks_drained_fields w)
      as (Hj & Hs & Hp & Hpb & Hbm & Htm & Hpt).
    set (w2 := blocks_drained w) in *.
    assert (Hsteady : BlockMap (snd (_kick_off_next_transaction w2))
                      = BlockMap w2
                      /\ PendingBlocks (snd (_kick_off_next_transaction w2))
                         = PendingBlocks w2).
    { pose proof (kick_off_next_transaction_untouched w2) as H.
      cbn zeta in H. tauto. }
    destruct Hsteady as (Hbm' & Hpb').
    split.
    { intros k blk Hk Hst. rewrite Hbm', Hbm. now apply copy_local_getitem. }
    split; [now rewrite Hbm'|]. split; [now rewrite Hpb'|]. split.
    { intros m p k.
      destruct (kick_off_next_transaction_effect w2)
        as (tm & pt & out & Hsnd & Hcase).
      assert (Hout : sent (snd (_kick_off_next_transaction w2))
                     = sent w ++ out).
      { rewrite Hsnd. cbn [sent set_sent]. now rewrite Hs. }
      rewrite (sent_since_app w _ out Hout).
      destruct Hcase as [[_ (id & -> & _)]|(_ & -> & _)]; [|easy].
      intros [[= <- _]|[]]. discriminate. }
    split.
    + intros tlocals tid trest Hq Htl Htm'.
      rewrite <- Hpt in Hq. rewrite <- Hj in Htl, Htm'.
      destruct (kick_off_next_transaction_stops_at_missing w2 tlocals tid
                  trest Hq Htl Htm') as (_ & Hs2 & Hpt2 & Htm2 & _).
      now rewrite Hs2, Htm2, Hpt2, Hs, Hp, Htm, Hj.
    + intros Hall. rewrite <- Hpt, <- Hj in Hall.
      destruct (kick_off_next_transaction_all_known w2 Hall)
        as (_ & Hs2 & Hpt2 & Htm2 & _).
      now rewrite Hs2, Htm2, Hpt2, Hs, Htm, Hpt, Hj.
  - intros locals id rest Hq Hl Hm. cbn zeta.
    destruct (kick_off_next_transaction_stops_at_missing w locals id rest
                Hq Hl Hm) as (_ & Hs & Hpt & Htm & _).
    split; [exact Hs|]. split.
    { intros k txn Hk Hst. rewrite Htm. now apply copy_local_getitem. }
    auto.
  - intros Hl. cbn zeta.
    destruct (kick_off_next_transaction_all_known w Hl)
      as (_ & Hs & Hpt & Htm & _).
    split; [exact Hs|]. split.
    { intros k txn Hk Hst. rewrite Htm. now apply copy_local_getitem. }
    auto.
  - intros m p.
    destruct (kick_off_next_block_effect w)
      as (bm & pb & tm & pt & out & -> & Hcase).
    rewrite (sent_since_app _ _ out) by reflexivity.
    destruct Hcase as [[_ (m' & -> & Hm)]|(_ & -> & _)]; [|easy].
    intros [[= <- _]|[]]. assumption.
  - intros m p.
    destruct (kick_off_next_transaction_effect w)
      as (tm & pt & out & -> & Hcase).
    rewrite (sent_since_app _ _ out) by reflexivity.
    destruct Hcase as [[_ (id & -> & _ & Hm)]|(_ & -> & _)]; [|easy].
    intros [[= <- _]|[]]. assumption.
Qed.

Example queues_mixed_block_drain :
  fst (_kick_off_next_block queues_mixed) = true
  /\ sent (snd (_kick_off_next_block queues_mixed))
     = [(BlockRequestMessage "b2", "p1")]
  /\ BlockMap (snd (_kick_off_next_block queues_mixed))
     = [("b1", Some block_b1); ("b2", None)]
  /\ PendingBlocks (snd (_kick_off_next_block queues_mixed)) = ["b1"]
  /\ TransactionMap (snd (_kick_off_next_block queues_mixed))
     = [("t1", None); ("t9", None)]
  /\ PendingTransactions (snd (_kick_off_next_block queues_mixed))
     = ["t1"; "t9"; "t1"; "t1"].
Proof. vm_compute. repeat split. Qed.

Example queues_mixed_transaction_drain :
  fst (_kick_off_next_transaction queues_mixed) = true
  /\ sent (snd (_kick_off_next_transaction queues_mixed))
     = [(TransactionRequestMessage "t9", "p1")]
  /\ TransactionMap (snd (_kick_off_next_transaction queues_mixed))
     = [("t1", Some (txn_of "t1")); ("t9", None)]
  /\ PendingTransactions (snd (_kick_off_next_transaction queues_mixed))
     = ["t1"]
  /\ PendingBlocks (snd (_kick_off_next_transaction queues_mixed))
     = ["b1"; "b2"; "b1"].
Proof. vm_compute. repeat split. Qed.

Lemma local_items_are_never_requested_witness :
  (let r := snd (_kick_off_next_block queues_mixed) in
   sent r = sent queues_mixed
            ++ [(BlockRequestMessage "b2",
                 PeerIdentifier (Peer queues_mixed))]
   /\ (forall k blk,
         In k ["b1"] -> BlockStore (journal queues_mixed) !! k = Some blk ->
         OrderedDict.getitem (BlockMap r) k = Some (Some blk))
   /\ BlockMap r
      = copy_local (BlockStore (journal queues_mixed)) ["b1"]
          (BlockMap queues_mixed)
   /\ TransactionMap r
      = mark_pending
          (block_transactions (BlockStore (journal queues_mixed)) ["b1"])
          (TransactionMap queues_mixed)
   /\ PendingTransactions r
      = PendingTransactions queues_mixed
        ++ block_transactions (BlockStore (journal queues_mixed)) ["b1"]
   /\ PendingBlocks r = ["b1"])
  /\ (let r := snd (_kick_off_next_transaction queues_mixed) in
      sent r = sent queues_mixed
               ++ [(TransactionRequestMessage "t9",
                    PeerIdentifier (Peer queues_mixed))]
      /\ (forall k txn,
            In k ["t1"] ->
            TransactionStore (journal queues_mixed) !! k = Some txn ->
            OrderedDict.getitem (TransactionMap r) k = Some (Some txn))
      /\ TransactionMap r
         = copy_local (TransactionStore (journal queues_mixed)) ["t1"]
             (TransactionMap queues_mixed)
      /\ PendingTransactions r = ["t1"]).
Proof.
  split.
  - apply (proj1 (local_items_are_never_requested queues_mixed)
             ["b1"] "b2" ["b1"]).
    + reflexivity.
    + repeat constructor. now exists block_b1.
    + reflexivity.
  - apply (proj1 (proj2 (proj2 (local_items_are_never_requested queues_mixed)))
             ["t1"] "t9" ["t1"]).
    + reflexivity.
    + repeat constructor. now exists (txn_of "t1").
    + reflexivity.
Defined.

(** * One request in flight, revisited *)

(** C4, as stated, fails: nothing in the code ties a received message to an
    outstanding request.  When the peer sends the empty page that ends the
    block list a second time, the handler drains the block queue again and
    requests [b2] while the request for [b1] is unanswered: two block-body
    requests are in flight. *)
Lemma repeated_empty_page_puts_two_requests_in_flight :
  List.filter is_block_request (map fst (sent after_empty_page_twice))
  = [BlockRequestMessage "b1"; BlockRequestMessage "b2"]
  /\ List.filter is_block_reply empty_page_twice = []
  /\ block_requests_unanswered after_empty_page_twice empty_page_twice = 2%nat
  /\ ~ (block_requests_unanswered after_empty_page_twice empty_page_twice
        <= 1)%nat.
Proof. vm_compute. repeat split. lia. Qed.

(** C4, amended: in a run in which every message received answers an
    outstanding request, one request at most is outstanding at any time, so
    one block-body request at most and one transaction-body request at most.
    Each drain sends one request at most per call and returns right after
    sending it: the request names the first identifier of the queue missing
    from the store, the identifiers queued behind it stay queued, untouched,
    and the maps hold only what was resolved before it. *)
Theorem single_request_in_flight (w : World) (outstanding : list Message)
    (Hrun : session_run w outstanding) :
  (length outstanding <= 1)%nat
  /\ (length (List.filter is_block_request outstanding) <= 1)%nat
  /\ (length (List.filter is_transaction_request outstanding) <= 1)%nat
  /\ (forall w0, sends_at_most_once w0 (_kick_off_next_block w0))
  /\ (forall w0, sends_at_most_once w0 (_kick_off_next_transaction w0))
  /\ (forall w0 locals id rest,
        PendingBlocks w0 = locals ++ id :: rest ->
        Forall (known (BlockStore (journal w0))) locals ->
        BlockStore (journal w0) !! id = None ->
        fst (_kick_off_next_block w0) = true
        /\ sent (snd (_kick_off_next_block w0))
           = sent w0 ++ [(BlockRequestMessage id, PeerIdentifier (Peer w0))]
        /\ PendingBlocks (snd (_kick_off_next_block w0)) = rest
        /\ BlockMap (snd (_kick_off_next_block w0))
           = copy_local (BlockStore (journal w0)) locals (BlockMap w0)
        /\ TransactionMap (snd (_kick_off_next_block w0))
           = mark_pending
               (block_transactions (BlockStore (journal w0)) locals)
               (TransactionMap w0)
        /\ PendingTransactions (snd (_kick_off_next_block w0))
           = PendingTransactions w0
             ++ block_transactions (BlockStore (journal w0)) locals)
  /\ (forall w0 locals id rest,
        PendingTransactions w0 = locals ++ id :: rest ->
        Forall (known (TransactionStore (journal w0))) locals ->
        TransactionStore (journal w0) !! id = None ->
        fst (_kick_off_next_transaction w0) = true
        /\ sent (snd (_kick_off_next_transaction w0))
           = sent w0 ++ [(TransactionRequestMessage id,
                          PeerIdentifier (Peer w0))]
        /\ PendingTransactions (snd (_kick_off_next_transaction w0)) = rest
        /\ TransactionMap (snd (_kick_off_next_transaction w0))
           = copy_local (TransactionStore (journal w0)) locals
               (TransactionMap w0)
        /\ BlockMap (snd (_kick_off_next_transaction w0)) = BlockMap w0
        /\ PendingBlocks (snd (_kick_off_next_transaction w0))
           = PendingBlocks w0).
Proof.
  pose proof (session_run_invariant w outstanding Hrun) as Hinv.
  pose proof (filter_length_bound is_block_request outstanding).
  pose proof (filter_length_bound is_transaction_request outstanding).
  split; [lia|]. split; [lia|]. split; [lia|].
  split; [apply kick_off_next_block_sends_once|].
  split; [apply kick_off_next_transaction_sends_once|].
  split.
  - intros w0. apply kick_off_next_block_stops_at_missing.
  - intros w0. apply kick_off_next_transaction_stops_at_missing.
Qed.

Lemma single_request_in_flight_witness :
  ((length [BlockRequestMessage "b2"] <= 1)%nat
   /\ (length (List.filter is_block_request [BlockRequestMessage "b2"])
       <= 1)%nat
   /\ (length (List.filter is_transaction_request [BlockRequestMessage "b2"])
       <= 1)%nat)
  /\ (fst (_kick_off_next_block queues_mixed) = true
      /\ sent (snd (_kick_off_next_block queues_mixed))
         = sent queues_mixed
           ++ [(BlockRequestMessage "b2", PeerIdentifier (Peer queues_mixed))]
      /\ PendingBlocks (snd (_kick_off_next_block queues_mixed)) = ["b1"]
      /\ BlockMap (snd (_kick_off_next_block queues_mixed))
         = copy_local (BlockStore (journal queues_mixed)) ["b1"]
             (BlockMap queues_mixed)
      /\ TransactionMap (snd (_kick_off_next_block queues_mixed))
         = mark_pending
             (block_transactions (BlockStore (journal queues_mixed)) ["b1"])
             (TransactionMap queues_mixed)
      /\ PendingTransactions (snd (_kick_off_next_block queues_mixed))
         = PendingTransactions queues_mixed
           ++ block_transactions (BlockStore (journal queues_mixed)) ["b1"])
  /\ (fst (_kick_off_next_transaction queues_mixed) = true
      /\ sent (snd (_kick_off_next_transaction queues_mixed))
         = sent queues_mixed
           ++ [(TransactionRequestMessage "t9",
                PeerIdentifier (Peer queues_mixed))]
      /\ PendingTransactions (snd (_kick_off_next_transaction queues_mixed))
         = ["t1"]
      /\ TransactionMap (snd (_kick_off_next_transaction queues_mixed))
         = copy_local (TransactionStore (journal queues_mixed)) ["t1"]
             (TransactionMap queues_mixed)
      /\ BlockMap (snd (_kick_off_next_transaction queues_mixed))
         = BlockMap queues_mixed
      /\ PendingBlocks (snd (_kick_off_next_transaction queues_mixed))
         = PendingBlocks queues_mixed).
Proof.
  pose proof (single_request_in_flight scenario_A [BlockRequestMessage "b2"]
                scenario_A_run) as (H1 & H2 & H3 & _ & _ & Hb & Ht).
  split; [auto|]. split.
  - apply (Hb queues_mixed ["b1"] "b2" ["b1"]).
    + reflexivity.
    + repeat constructor. now exists block_b1.
    + reflexivity.
  - apply (Ht queues_mixed ["t1"] "t9" ["t1"]).
    + reflexivity.
    + repeat constructor. now exists (txn_of "t1").
    + reflexivity.
Defined.

(** * Keys are never removed *)

Lemma keys_kept_refl w : keys_kept w w.
Proof. now split. Qed.

Lemma keys_kept_trans w1 w2 w3 :
  keys_kept w1 w2 -> keys_kept w2 w3 -> keys_kept w1 w3.
Proof. intros (Hb & Ht) (Hb' & Ht'). split; auto. Qed.

Lemma keys_kept_frame w w' :
  BlockMap w' = BlockMap w -> TransactionMap w' = TransactionMap w ->
  keys_kept w w'.
Proof. intros Hb Ht. unfold keys_kept. now rewrite Hb, Ht. Qed.

Lemma keys_kept_enqueue_transactions ids w :
  keys_kept w (enqueue_transactions ids w).
Proof.
  rewrite enqueue_transactions_eq. split; cbn; [auto|].
  intros k. apply mark_pending_keys_incl.
Qed.

Lemma keys_kept_enqueue_blocks ids w : keys_kept w (enqueue_blocks ids w).
Proof.
  rewrite enqueue_blocks_eq. split; cbn; [|auto].
  intros k. apply mark_pending_keys_incl.
Qed.

Lemma keys_kept_kick_off_next_transaction w :
  keys_kept w (snd (_kick_off_next_transaction w)).
Proof.
  destruct (split_known (TransactionStore (journal w))
              (PendingTransactions w))
    as [Hall|(locals & id & rest & Hp & Hl & Hm)].
  - destruct (kick_off_next_transaction_all_known w Hall)
      as (_ & _ & _ & Htm & Hbm & _).
    split; [now rewrite Hbm|]. rewrite Htm. intros k.
    apply copy_local_keys_incl.
  - destruct (kick_off_next_transaction_stops_at_missing w locals id rest
                Hp Hl Hm) as (_ & _ & _ & Htm & Hbm & _).
    split; [now rewrite Hbm|]. rewrite Htm. intros k.
    apply copy_local_keys_incl.
Qed.

Lemma keys_kept_kick_off_next_block w :
  keys_kept w (snd (_kick_off_next_block w)).
Proof.
  destruct (split_known (BlockStore (journal w)) (PendingBlocks w))
    as [Hall|(locals & id & rest & Hp & Hl & Hm)].
  - rewrite (kick_off_next_block_falls_through w Hall).
    apply (keys_kept_trans _ (blocks_drained w));
      [|apply keys_kept_kick_off_next_transaction].
    destruct (blocks_drained_fields w) as (_ & _ & _ & _ & Hbm & Htm & _).
    split; intros k.
    + rewrite Hbm. apply copy_local_keys_incl.
    + rewrite Htm. apply mark_pending_keys_incl.
  - destruct (kick_off_next_block_stops_at_missing w locals id rest Hp Hl Hm)
      as (_ & _ & _ & Hbm & Htm & _).
    split; intros k.
    + rewrite Hbm. apply copy_local_keys_incl.
    + rewrite Htm. apply mark_pending_keys_incl.
Qed.

Lemma keys_kept_finish w : keys_kept w (_finish w).
Proof.
  destruct (finish_frame w) as (d & jc & lg & -> & _).
  now apply keys_kept_frame.
Qed.

Lemma keys_kept_handleuncommitted w : keys_kept w (_handleuncommitted w).
Proof.
  unfold _handleuncommitted. set (w0 := logger _ w).
  assert (H0 : keys_kept w w0) by now apply keys_kept_frame.
  destruct (negb (ProcessingUncommitted w0) && _).
  - set (w1 := enqueue_transactions _ _).
    assert (H1 : keys_kept w w1).
    { apply (keys_kept_trans _ _ _ H0). unfold w1.
      apply (keys_kept_trans _ (set_ProcessingUncommitted true w0));
        [now apply keys_kept_frame|apply keys_kept_enqueue_transactions]. }
    pose proof (keys_kept_kick_off_next_transaction w1) as H2.
    destruct (_kick_off_next_transaction w1) as [[|] w2]; cbn [snd] in H2.
    + exact (keys_kept_trans _ _ _ H1 H2).
    + exact (keys_kept_trans _ _ _ (keys_kept_trans _ _ _ H1 H2)
               (keys_kept_finish w2)).
  - exact (keys_kept_trans _ _ _ H0 (keys_kept_finish w0)).
Qed.

Lemma keys_kept_drain_after_body w1 : keys_kept w1 (drain_after_body w1).
Proof.
  unfold drain_after_body.
  pose proof (keys_kept_kick_off_next_transaction w1) as H2.
  destruct (_kick_off_next_transaction w1) as [[|] w2]; cbn [snd] in H2;
    [exact H2|].
  pose proof (keys_kept_kick_off_next_block w2) as H3.
  destruct (_kick_off_next_block w2) as [[|] w3]; cbn [snd] in H3.
  - exact (keys_kept_trans _ _ _ H2 H3).
  - exact (keys_kept_trans _ _ _ (keys_kept_trans _ _ _ H2 H3)
             (keys_kept_handleuncommitted w3)).
Qed.

Lemma keys_kept_dispatch r w : keys_kept w (dispatch r w).
Proof.
  unfold dispatch.
  destruct (handler_of (dispatcher w) (kind_of r)) as [h|];
    [|apply keys_kept_refl].
  destruct h; destruct r as [i ids|blk|i ids|txn|]; cbn [run_handler];
    try apply keys_kept_refl; try (now apply keys_kept_frame).
  - destruct ids as [|id ids].
    + change (_blocklistreplyhandler i [] w)
        with (let (sent_one, w') :=
                _kick_off_next_block (block_list_complete w) in
              if sent_one then w'
              else send_message (UncommittedListRequestMessage 0) w').
      pose proof (keys_kept_kick_off_next_block (block_list_complete w))
        as H1.
      destruct (_kick_off_next_block (block_list_complete w)) as [[|] w1];
        exact H1.
    + rewrite blocklistreplyhandler_nonempty by discriminate.
      exact (keys_kept_enqueue_blocks (id :: ids) (block_list_complete w)).
  - rewrite blockreplyhandler_tail.
    apply (keys_kept_trans _ (block_body_stored blk w));
      [|apply keys_kept_drain_after_body].
    unfold block_body_stored.
    apply (keys_kept_trans _ (set_BlockMap
                                (OrderedDict.setitem (BlockMap w)
                                   (BlockIdentifier blk) (Some blk))
                                (logger (LogInfo "received block") w)));
      [|apply keys_kept_enqueue_transactions].
    split; cbn; [|auto]. intros k. apply setitem_keys_incl.
  - destruct ids as [|id ids].
    + change (_txnlistreplyhandler i [] w)
        with (let (sent_one, w') :=
                _kick_off_next_block (uncommitted_list_complete w) in
              if sent_one then w' else _handleuncommitted w').
      pose proof (keys_kept_kick_off_next_block (uncommitted_list_complete w))
        as H1.
      destruct (_kick_off_next_block (uncommitted_list_complete w))
        as [[|] w1]; cbn [snd] in H1; [exact H1|].
      exact (keys_kept_trans _ _ _ H1 (keys_kept_handleuncommitted w1)).
    + rewrite txnlistreplyhandler_nonempty by discriminate.
      now apply keys_kept_frame.
  - rewrite txnreplyhandler_tail.
    apply (keys_kept_trans _ (transaction_body_stored txn w));
      [|apply keys_kept_drain_after_body].
    split; cbn; [auto|]. intros k. apply setitem_keys_incl.
Qed.

(** X11: every identifier waiting in a queue has an entry in the map of its
    kind; handling received messages keeps this true and never removes a key
    from either map, so an identifier that is queued, or has an entry, at
    some point still has an entry after any number of further messages. *)
Theorem queued_identifiers_have_entries (w : World) (rs : list Reply)
    (Hq : queues_have_entries w) :
  let w' := run_events (map Receive rs) w in
  queues_have_entries w'
  /\ (forall k,
        In k (PendingBlocks w) \/ In k (OrderedDict.keys (BlockMap w)) ->
        In k (OrderedDict.keys (BlockMap w')))
  /\ (forall k,
        In k (PendingTransactions w)
        \/ In k (OrderedDict.keys (TransactionMap w)) ->
        In k (OrderedDict.keys (TransactionMap w'))).
Proof.
  cbn zeta.
  assert (H : queues_have_entries (run_events (map Receive rs) w)
              /\ keys_kept w (run_events (map Receive rs) w)).
  { revert w Hq. induction rs as [|r rs IH]; intros w Hq.
    - split; [exact Hq|apply keys_kept_refl].
    - change (run_events (map Receive (r :: rs)) w)
        with (run_events (map Receive rs) (dispatch r w)).
      destruct (IH (dispatch r w) (queues_have_entries_dispatch r w Hq))
        as (Hq' & Hk').
      split; [exact Hq'|].
      exact (keys_kept_trans _ _ _ (keys_kept_dispatch r w) Hk'). }
  destruct H as (Hq' & Hb & Ht). destruct Hq as (Hqb & Hqt).
  split; [exact Hq'|]. split; intros k [Hk|Hk]; auto.
Qed.

Example blocks_listed_queues :
  PendingBlocks blocks_listed = ["b1"; "b2"]
  /\ PendingBlocks
       (run_events
          (map Receive [BlockListReplyMessage 2 [];
                        BlockReplyMessage block_b1]) blocks_listed)
     = ["b2"]
  /\ OrderedDict.keys
       (BlockMap
          (run_events
             (map Receive [BlockListReplyMessage 2 [];
                           BlockReplyMessage block_b1]) blocks_listed))
     = ["b1"; "b2"]
  /\ OrderedDict.keys
       (TransactionMap
          (run_events
             (map Receive [BlockListReplyMessage 2 [];
                           BlockReplyMessage block_b1]) blocks_listed))
     = ["t1"].
Proof. vm_compute. repeat split. Qed.

Lemma queued_identifiers_have_entries_witness :
  let w' := run_events
              (map Receive [BlockListReplyMessage 2 [];
                            BlockReplyMessage block_b1]) blocks_listed in
  queues_have_entries w'
  /\ (forall k,
        In k (PendingBlocks blocks_listed)
        \/ In k (OrderedDict.keys (BlockMap blocks_listed)) ->
        In k (OrderedDict.keys (BlockMap w')))
  /\ (forall k,
        In k (PendingTransactions blocks_listed)
        \/ In k (OrderedDict.keys (TransactionMap blocks_listed)) ->
        In k (OrderedDict.keys (TransactionMap w'))).
Proof.
  apply (queued_identifiers_have_entries blocks_listed
           [BlockListReplyMessage 2 []; BlockReplyMessage block_b1]).
  split; vm_compute; tauto.
Defined.
